(** * CoPaint: session registry, action history and raster reconstruction

    A shallow embedding of the collaboration core of CoPaint:

    - the relay server ([rooms], [handleLeave], [addToHistory] and the
      socket handlers of the server script),
    - the local fallback bus of [SocketService] (its mock history),
    - the replay engine of [PaintCanvas] ([drawStroke], [drawShape],
      [floodFill], [redrawCanvas]).

    JavaScript numbers that carry coordinates are exact rationals ([Q]);
    array indices, canvas sizes and colour channels are integers ([Z]);
    [undefined] is [None].  Arrays are lists, the room table (a JS [Map])
    is a [gmap]. *)

From Stdlib Require Import ZArith QArith Qround Qminmax Lia Ascii String List.
From stdpp Require Import gmap strings list fin_maps.
Import ListNotations.

(* ===================================================================== *)
(** ** The data model ([types.ts])                                        *)
(* ===================================================================== *)

Module Point.
Record t := mk { x : Q; y : Q }.
End Point.

Inductive StrokeTool := brush | pencil | eraser.

Module DrawStroke.
Record t := mk { points : list Point.t; color : string; width : Q; tool : StrokeTool }.
End DrawStroke.

Inductive ShapeType := rect | circle | triangle.

Module DrawShape.
Record t := mk {
  type : ShapeType;
  startPoint : Point.t;
  endPoint : Point.t;
  color : string;
  width : Q;
  isFilled : bool }.
End DrawShape.

Module FillAction.
Record t := mk { point : Point.t; color : string }.
End FillAction.

Inductive ActionType := stroke | shape | fill | clear.

(** [CanvasAction] carries a [type] tag and a [data] field of type
    [DrawStroke | DrawShape | FillAction | null]; every reader casts [data]
    by the tag.  The embedding keeps tag and data together, so that the
    cast is always the right one; [data] may still be [null] under every
    tag.  A clear action has no data that anyone reads. *)
Inductive Payload :=
| Stroke (data : option DrawStroke.t)
| Shape (data : option DrawShape.t)
| Fill (data : option FillAction.t)
| Clear.

Module CanvasAction.
Record t := mk { id : string; payload : Payload; userId : string; timestamp : Z }.
Definition type (a : t) : ActionType :=
  match payload a with
  | Stroke _ => stroke
  | Shape _ => shape
  | Fill _ => fill
  | Clear => clear
  end.
End CanvasAction.

Module User.
Record t := mk { id : string; username : string; isHost : bool; color : string }.
Definition setHost (b : bool) (u : t) : t :=
  {| id := id u; username := username u; isHost := b; color := color u |}.
End User.

(* ===================================================================== *)
(** ** The relay server                                                    *)
(* ===================================================================== *)

Module Server.

(** Room structure: [{ users, history, redoStack }]. *)
Record Room := mkRoom {
  users : list User.t;
  history : list CanvasAction.t;
  redoStack : list CanvasAction.t }.

(** What a handler sends: to one socket ([socket.emit]), to the whole
    transport group of a room ([io.to(roomId).emit]) or to the group without
    the sender ([socket.to(roomId).emit]). *)
Inductive Target :=
| ToSocket (socketId : string)
| ToRoom (roomId : string)
| ToRoomExcept (roomId : string) (socketId : string).

Inductive Event :=
| room_joined (roomId : string) (us : list User.t)
| user_joined (u : User.t)
| error (msg : string)
| room_updated (us : list User.t)
| user_left (userId : string)
| user_kicked
| game_started (roomId : string)
| draw_line (data : string)
| history_action (action : CanvasAction.t)
| history_sync (h : list CanvasAction.t)
| cursor_move (data : string)
| chat_message (message : string).

(** The effects of a handler on the transport, in program order. *)
Inductive Effect :=
| Emit (to : Target) (ev : Event)
| Join (socketId roomId : string)
| Leave (socketId roomId : string).

(** The server's state: the room table, and the sockets that are connected
    ([io.sockets.sockets]). *)
Record State := mkState {
  rooms : gmap string Room;
  sockets : gset string }.

Definition init : State := {| rooms := ∅; sockets := ∅ |}.

Definition setRooms (r : gmap string Room) (s : State) : State :=
  {| rooms := r; sockets := sockets s |}.

(** [Array.prototype.findIndex]; [None] is JavaScript's [-1]. *)
Fixpoint findIndex {A} (p : A -> bool) (l : list A) : option nat :=
  match l with
  | [] => None
  | a :: l' => if p a then Some 0%nat else option_map S (findIndex p l')
  end.

(** [Array.prototype.find]. *)
Fixpoint find {A} (p : A -> bool) (l : list A) : option A :=
  match l with
  | [] => None
  | a :: l' => if p a then Some a else find p l'
  end.

Definition hasId (socketId : string) (u : User.t) : bool :=
  String.eqb (User.id u) socketId.

(** [room.users[0].isHost = true]. *)
Definition promoteFirst (us : list User.t) : list User.t :=
  match us with
  | [] => []
  | u :: rest => User.setHost true u :: rest
  end.

Definition handleLeave (roomId socketId : string) (rs : gmap string Room)
  : gmap string Room * list Effect :=
  match rs !! roomId with
  | None => (rs, [])
  | Some room =>
    match findIndex (hasId socketId) (users room) with
    | None => (rs, [])
    | Some index =>
      let wasHost :=
        match users room !! index with
        | Some u => User.isHost u
        | None => false
        end in
      let spliced := delete index (users room) in
      let migrate := wasHost && negb (Nat.eqb (length spliced) 0) in
      let us := if migrate then promoteFirst spliced else spliced in
      let notifyHost :=
        if migrate then [Emit (ToRoom roomId) (room_updated us)] else [] in
      if Nat.eqb (length us) 0
      then (delete roomId rs, notifyHost)
      else (<[roomId := mkRoom us (history room) (redoStack room)]> rs,
            notifyHost ++ [Emit (ToRoom roomId) (user_left socketId)])
    end
  end.

(** [create_room]: the room id and the member colour are drawn at random by
    the handler; here they are arguments. *)
Definition on_create_room (socketId roomId username color : string) (s : State)
  : State * list Effect :=
  let user := User.mk socketId username true color in
  (setRooms (<[roomId := mkRoom [user] [] []]> (rooms s)) s,
   [Join socketId roomId; Emit (ToSocket socketId) (room_joined roomId [user])]).

Definition on_join_room (socketId roomId username color : string) (s : State)
  : State * list Effect :=
  match rooms s !! roomId with
  | None => (s, [Emit (ToSocket socketId) (error "Room not found")])
  | Some room =>
    let user := User.mk socketId username false color in
    let us := users room ++ [user] in
    (setRooms (<[roomId := mkRoom us (history room) (redoStack room)]> (rooms s)) s,
     [Join socketId roomId;
      Emit (ToRoomExcept roomId socketId) (user_joined user);
      Emit (ToSocket socketId) (room_joined roomId us);
      Emit (ToSocket socketId) (history_sync (history room))])
  end.

Definition on_leave_room (socketId roomId : string) (s : State)
  : State * list Effect :=
  let '(rs, out) := handleLeave roomId socketId (rooms s) in
  (setRooms rs s, Leave socketId roomId :: out).

Definition on_kick_user (socketId roomId userId : string) (s : State)
  : State * list Effect :=
  match rooms s !! roomId with
  | None => (s, [])
  | Some room =>
    match find (hasId socketId) (users room) with
    | None => (s, [])
    | Some requester =>
      if negb (User.isHost requester) then (s, [])
      else
        let toTarget :=
          if bool_decide (userId ∈ sockets s)
          then [Leave userId roomId; Emit (ToSocket userId) user_kicked]
          else [] in
        let '(rs, out) := handleLeave roomId userId (rooms s) in
        (setRooms rs s, toTarget ++ out)
    end
  end.

Definition on_start_game (roomId : string) (s : State) : State * list Effect :=
  (s, [Emit (ToRoom roomId) (game_started roomId)]).

Definition on_draw_line (socketId roomId data : string) (s : State)
  : State * list Effect :=
  (s, [Emit (ToRoomExcept roomId socketId) (draw_line data)]).

(** The history cap of [addToHistory]. *)
Definition HISTORY_CAP : nat := 500.

(** [Array.prototype.shift]: drops the first entry. *)
Definition shift {A} (l : list A) : list A := tail l.

(** [history.push(action); redoStack = []; if (history.length > 500) history.shift()]
    on the two arrays of a room. *)
Definition pushCapped (action : CanvasAction.t) (h : list CanvasAction.t)
  : list CanvasAction.t :=
  let h1 := h ++ [action] in
  if Nat.ltb HISTORY_CAP (length h1) then shift h1 else h1.

Definition addToHistory (roomId : string) (action : CanvasAction.t)
  (rs : gmap string Room) : gmap string Room :=
  match rs !! roomId with
  | None => rs
  | Some room =>
    <[roomId := mkRoom (users room) (pushCapped action (history room)) []]> rs
  end.

(** [draw_stroke], [draw_shape], [draw_text], [fill_canvas] and
    [clear_canvas] have one and the same body. *)
Definition on_durable (roomId : string) (action : CanvasAction.t) (s : State)
  : State * list Effect :=
  (setRooms (addToHistory roomId action (rooms s)) s,
   [Emit (ToRoom roomId) (history_action action)]).

(** [Array.prototype.pop] on a non-empty array: the array without its last
    entry, and that entry. *)
Fixpoint pop {A} (l : list A) : option (list A * A) :=
  match l with
  | [] => None
  | a :: l' =>
    match pop l' with
    | None => Some ([], a)
    | Some (front, z) => Some (a :: front, z)
    end
  end.

Definition on_undo (roomId : string) (s : State) : State * list Effect :=
  match rooms s !! roomId with
  | None => (s, [])
  | Some room =>
    match pop (history room) with
    | None => (s, [])
    | Some (h, action) =>
      (setRooms (<[roomId := mkRoom (users room) h (redoStack room ++ [action])]> (rooms s)) s,
       [Emit (ToRoom roomId) (history_sync h)])
    end
  end.

Definition on_redo (roomId : string) (s : State) : State * list Effect :=
  match rooms s !! roomId with
  | None => (s, [])
  | Some room =>
    match pop (redoStack room) with
    | None => (s, [])
    | Some (r, action) =>
      let h := history room ++ [action] in
      (setRooms (<[roomId := mkRoom (users room) h r]> (rooms s)) s,
       [Emit (ToRoom roomId) (history_sync h)])
    end
  end.

Definition on_cursor_move (socketId roomId data : string) (s : State)
  : State * list Effect :=
  (s, [Emit (ToRoomExcept roomId socketId) (cursor_move data)]).

Definition on_chat_message (roomId message : string) (s : State)
  : State * list Effect :=
  (s, [Emit (ToRoom roomId) (chat_message message)]).

(** [disconnect]: every room that lists the socket is left once.  The
    JavaScript [Map] is walked in insertion order, the [gmap] in key order;
    [handleLeave] touches its own room only, so the table that results is
    the same and only the interleaving of the effects of different rooms
    may differ. *)
Definition leaveIfMember (socketId : string) (acc : gmap string Room * list Effect)
  (entry : string * Room) : gmap string Room * list Effect :=
  match find (hasId socketId) (users (snd entry)) with
  | None => acc
  | Some _ =>
    let '(rs, out) := handleLeave (fst entry) socketId (fst acc) in
    (rs, snd acc ++ out)
  end.

Definition on_disconnect (socketId : string) (s : State) : State * list Effect :=
  let '(rs, out) :=
    fold_left (leaveIfMember socketId) (map_to_list (rooms s)) (rooms s, []) in
  ({| rooms := rs; sockets := sockets s ∖ {[socketId]} |}, out).

Definition on_connection (socketId : string) (s : State) : State * list Effect :=
  ({| rooms := rooms s; sockets := {[socketId]} ∪ sockets s |}, []).

(** What a client may send, and the dispatch [io.on('connection', ...)] sets
    up for its socket. *)
Inductive Request :=
| connection
| create_room (roomId username color : string)
| join_room (roomId username color : string)
| leave_room (roomId : string)
| kick_user (roomId userId : string)
| start_game (roomId : string)
| send_draw_line (roomId data : string)
| draw_stroke (roomId : string) (action : CanvasAction.t)
| draw_shape (roomId : string) (action : CanvasAction.t)
| draw_text (roomId : string) (action : CanvasAction.t)
| fill_canvas (roomId : string) (action : CanvasAction.t)
| clear_canvas (roomId : string) (action : CanvasAction.t)
| undo (roomId : string)
| redo (roomId : string)
| send_cursor_move (roomId data : string)
| send_chat_message (roomId message : string)
| disconnect.

Definition handle (socketId : string) (req : Request) (s : State)
  : State * list Effect :=
  match req with
  | connection => on_connection socketId s
  | create_room roomId username color => on_create_room socketId roomId username color s
  | join_room roomId username color => on_join_room socketId roomId username color s
  | leave_room roomId => on_leave_room socketId roomId s
  | kick_user roomId userId => on_kick_user socketId roomId userId s
  | start_game roomId => on_start_game roomId s
  | send_draw_line roomId data => on_draw_line socketId roomId data s
  | draw_stroke roomId action
  | draw_shape roomId action
  | draw_text roomId action
  | fill_canvas roomId action
  | clear_canvas roomId action => on_durable roomId action s
  | undo roomId => on_undo roomId s
  | redo roomId => on_redo roomId s
  | send_cursor_move roomId data => on_cursor_move socketId roomId data s
  | send_chat_message roomId message => on_chat_message roomId message s
  | disconnect => on_disconnect socketId s
  end.

(** The server handles one request at a time, in arrival order. *)
Definition run (reqs : list (string * Request)) (s : State) : State :=
  fold_left (fun st r => fst (handle (fst r) (snd r) st)) reqs s.


(** *** Vocabulary of the statements about the server *)

(** The members that hold host authority. *)
Definition hostCount (us : list User.t) : nat :=
  length (List.filter User.isHost us).

(** The member list [handleLeave] leaves when it removes the member at
    [index]: the splice, followed by the host migration. *)
Definition usersAfterLeave (index : nat) (us : list User.t) : list User.t :=
  let wasHost :=
    match us !! index with
    | Some u => User.isHost u
    | None => false
    end in
  let spliced := delete index us in
  if wasHost && negb (Nat.eqb (length spliced) 0) then promoteFirst spliced else spliced.

(** A run of [addToHistory] over a list of actions, in order. *)
Definition appendAll (roomId : string) (actions : list CanvasAction.t)
  (rs : gmap string Room) : gmap string Room :=
  fold_left (fun r a => addToHistory roomId a r) actions rs.

End Server.

(* ===================================================================== *)
(** ** The local fallback bus ([SocketService] in mock mode)               *)
(* ===================================================================== *)

Module Mock.

Record State := mkState {
  mockHistory : list CanvasAction.t;
  mockRedoStack : list CanvasAction.t }.

Definition mockAddToHistory (action : CanvasAction.t) (s : State) : State :=
  let h1 := mockHistory s ++ [action] in
  {| mockHistory := if Nat.ltb 500 (length h1) then Server.shift h1 else h1;
     mockRedoStack := [] |}.

(** [emitUndo] and [emitRedo]: the state, and the history handed to the
    local [history_sync] listeners, if any. *)
Definition emitUndo (s : State) : State * option (list CanvasAction.t) :=
  match Server.pop (mockHistory s) with
  | None => (s, None)
  | Some (h, action) =>
    ({| mockHistory := h; mockRedoStack := mockRedoStack s ++ [action] |}, Some h)
  end.

Definition emitRedo (s : State) : State * option (list CanvasAction.t) :=
  match Server.pop (mockRedoStack s) with
  | None => (s, None)
  | Some (r, action) =>
    let h := mockHistory s ++ [action] in
    ({| mockHistory := h; mockRedoStack := r |}, Some h)
  end.


Definition appendAll (actions : list CanvasAction.t) (s : State) : State :=
  fold_left (fun st a => mockAddToHistory a st) actions s.

End Mock.

(* ===================================================================== *)
(** ** The replay engine ([PaintCanvas])                                   *)
(* ===================================================================== *)

Module Canvas.

Inductive LineCap := CapButt | CapRound | CapSquare.
Inductive LineJoin := JoinMiter | JoinRound | JoinBevel.

(** The drawing state of a 2D context that the engine assigns to. *)
Record Pen := mkPen {
  strokeStyle : string;
  lineWidth : Q;
  lineCap : LineCap;
  lineJoin : LineJoin }.

(** The current path.  [arc x y radiusSq] is the call
    [ctx.arc(x, y, Math.sqrt(radiusSq), 0, 2 * Math.PI)]: the radius is kept
    as its square, which is rational. *)
Inductive PathOp :=
| moveTo (x y : Q)
| lineTo (x y : Q)
| arc (x y : Q) (radiusSq : Q)
| closePath.

(** What a stroking call hands to the rasteriser. *)
Inductive Outline :=
| rectOutline (x y w h : Q)
| pathOutline (p : list PathOp).

(** The context of the drawing canvas: the bitmap as [getImageData] reads
    it and [putImageData] writes it back (RGBA bytes, row by row), the pen
    and the current path. *)
Record Ctx := mkCtx {
  width : Z;
  height : Z;
  data : list Z;
  pen : Pen;
  path : list PathOp }.

(** What the browser provides and the source does not contain: which
    strings the [strokeStyle] setter accepts, the channels that
    [getComputedStyle(div).color] serialises for a colour string (the first
    three numbers of the match of [/\d+/g], [None] when there is no match),
    and the rasteriser behind [stroke] and [strokeRect]. *)
Class Browser := {
  parsesAsColor : string -> bool;
  computedColor : string -> option (Z * Z * Z);
  paintStroke : Pen -> Outline -> Z -> Z -> list Z -> list Z }.

(** The properties of a browser that the results below name as
    assumptions: colour channels are bytes, as the serialisations
    [rgb(r, g, b)] and [rgba(r, g, b, a)] have them; stroking keeps the size
    of the bitmap; stroking is an opaque replacement (stroking the same
    outline with the same pen a second time changes nothing). *)
Definition byteChannels (B : Browser) : Prop :=
  forall s r g b, computedColor s = Some (r, g, b) ->
    (0 <= r <= 255 /\ 0 <= g <= 255 /\ 0 <= b <= 255)%Z.

Definition keepsSize (B : Browser) : Prop :=
  forall p o w h d, length (paintStroke p o w h d) = length d.


Definition withData (d : list Z) (c : Ctx) : Ctx :=
  {| width := width c; height := height c; data := d; pen := pen c; path := path c |}.

Definition withPen (p : Pen) (c : Ctx) : Ctx :=
  {| width := width c; height := height c; data := data c; pen := p; path := path c |}.

Definition withPath (p : list PathOp) (c : Ctx) : Ctx :=
  {| width := width c; height := height c; data := data c; pen := pen c; path := p |}.

Definition defaultPen : Pen :=
  {| strokeStyle := "#000000"; lineWidth := 1; lineCap := CapButt; lineJoin := JoinMiter |}.

Definition blank (w h : Z) : list Z := replicate (Z.to_nat (4 * (w * h))) 0%Z.

(** A context as [getContext('2d')] first returns it. *)
Definition newContext (w h : Z) : Ctx :=
  {| width := w; height := h; data := blank w h; pen := defaultPen; path := [] |}.

(** The bitmap of a canvas always has four bytes for each pixel. *)
Definition wellSized (c : Ctx) : Prop :=
  length (data c) = Z.to_nat (4 * (width c * height c)).

Section Engine.
Context {B : Browser}.

(** *** The context operations the engine calls *)

(** The setter ignores a string that is no colour. *)
Definition set_strokeStyle (s : string) (c : Ctx) : Ctx :=
  if parsesAsColor s
  then withPen (mkPen s (lineWidth (pen c)) (lineCap (pen c)) (lineJoin (pen c))) c
  else c.

(** The setter ignores a width that is not positive. *)
Definition set_lineWidth (w : Q) (c : Ctx) : Ctx :=
  if Qle_bool w 0 then c
  else withPen (mkPen (strokeStyle (pen c)) w (lineCap (pen c)) (lineJoin (pen c))) c.

Definition set_lineCap (v : LineCap) (c : Ctx) : Ctx :=
  withPen (mkPen (strokeStyle (pen c)) (lineWidth (pen c)) v (lineJoin (pen c))) c.

Definition set_lineJoin (v : LineJoin) (c : Ctx) : Ctx :=
  withPen (mkPen (strokeStyle (pen c)) (lineWidth (pen c)) (lineCap (pen c)) v) c.

Definition beginPath (c : Ctx) : Ctx := withPath [] c.

Definition addPath (op : PathOp) (c : Ctx) : Ctx := withPath (path c ++ [op]) c.

Definition stroke_ (c : Ctx) : Ctx :=
  withData (paintStroke (pen c) (pathOutline (path c)) (width c) (height c) (data c)) c.

Definition strokeRect (x y w h : Q) (c : Ctx) : Ctx :=
  withData (paintStroke (pen c) (rectOutline x y w h) (width c) (height c) (data c)) c.

(** [ctx.clearRect(0, 0, canvas.width, canvas.height)]. *)
Definition clearRect (c : Ctx) : Ctx := withData (blank (width c) (height c)) c.

(** *** [drawStroke] *)

Definition lineToAll (ps : list Point.t) (c : Ctx) : Ctx :=
  fold_left (fun c' p => addPath (lineTo (Point.x p) (Point.y p)) c') ps c.

Definition drawStroke (d : DrawStroke.t) (c : Ctx) : Ctx :=
  match DrawStroke.points d with
  | p0 :: ((_ :: _) as rest) =>
    let c := beginPath c in
    let c := set_lineCap CapRound c in
    let c := set_lineJoin JoinRound c in
    let c := set_strokeStyle (DrawStroke.color d) c in
    let c := set_lineWidth (DrawStroke.width d) c in
    let c := addPath (moveTo (Point.x p0) (Point.y p0)) c in
    let c := lineToAll rest c in
    stroke_ c
  | _ => c
  end.

(** *** [drawShape] *)

Definition drawShape (d : DrawShape.t) (c : Ctx) : Ctx :=
  let startPoint := DrawShape.startPoint d in
  let endPoint := DrawShape.endPoint d in
  let c := set_strokeStyle (DrawShape.color d) c in
  let c := set_lineWidth (DrawShape.width d) c in
  let c := beginPath c in
  let w := (Point.x endPoint - Point.x startPoint)%Q in
  let h := (Point.y endPoint - Point.y startPoint)%Q in
  match DrawShape.type d with
  | rect => strokeRect (Point.x startPoint) (Point.y startPoint) w h c
  | circle =>
    let radiusSq := (w * w + h * h)%Q in
    stroke_ (addPath (arc (Point.x startPoint) (Point.y startPoint) radiusSq) c)
  | triangle =>
    let c := addPath (moveTo (Point.x startPoint + w / 2) (Point.y startPoint)) c in
    let c := addPath (lineTo (Point.x startPoint) (Point.y startPoint + h)) c in
    let c := addPath (lineTo (Point.x startPoint + w) (Point.y startPoint + h)) c in
    let c := addPath closePath c in
    stroke_ c
  end.

(** *** [floodFill] *)

(** [data[i]] on the byte array: [undefined] outside it. *)
Definition rd (d : list Z) (i : Z) : option Z :=
  if (i <? 0)%Z then None else d !! Z.to_nat i.

(** The conversion of a stored number by [Uint8ClampedArray]. *)
Definition clamp8 (v : Z) : Z := Z.max 0 (Z.min 255 v).

(** [data[i] = v]: a store outside the array is dropped. *)
Definition wr (d : list Z) (i : Z) (v : Z) : list Z :=
  if (i <? 0)%Z then d else <[Z.to_nat i := clamp8 v]> d.

(** The four channels at a byte offset. *)
Definition Pixel : Type := option Z * option Z * option Z * option Z.

Definition rd4 (d : list Z) (pos : Z) : Pixel :=
  (rd d pos, rd d (pos + 1)%Z, rd d (pos + 2)%Z, rd d (pos + 3)%Z).

Definition wr4 (d : list Z) (pos : Z) (v : Z * Z * Z * Z) : list Z :=
  let '(r, g, b, a) := v in
  wr (wr (wr (wr d pos r) (pos + 1)%Z g) (pos + 2)%Z b) (pos + 3)%Z a.

(** [a === b] on all four channels. *)
Definition samePixel (p q : Pixel) : bool :=
  let '(r1, g1, b1, a1) := p in
  let '(r2, g2, b2, a2) := q in
  bool_decide (r1 = r2) && bool_decide (g1 = g2) && bool_decide (b1 = b2)
  && bool_decide (a1 = a2).

Definition numbers (v : Z * Z * Z * Z) : Pixel :=
  let '(r, g, b, a) := v in (Some r, Some g, Some b, Some a).

Definition offset (w cx cy : Z) : Z := ((cy * w + cx) * 4)%Z.

Definition outside (w h cx cy : Z) : bool :=
  (cx <? 0)%Z || (cx >=? w)%Z || (cy <? 0)%Z || (cy >=? h)%Z.

(** The [while (stack.length)] loop.  The work stack is a list whose head is
    the top of the JavaScript array; one unit of fuel is one iteration, and
    [None] means that the fuel ran out before the stack was empty. *)
Fixpoint fillLoop (fuel : nat) (w h : Z) (start : Pixel) (fillc : Z * Z * Z * Z)
  (stack : list (Z * Z)) (d : list Z) : option (list Z) :=
  match stack with
  | [] => Some d
  | (cx, cy) :: stack' =>
    match fuel with
    | O => None
    | S fuel' =>
      let pos := offset w cx cy in
      if outside w h cx cy then fillLoop fuel' w h start fillc stack' d
      else if samePixel (rd4 d pos) start
      then fillLoop fuel' w h start fillc
             ((cx, cy - 1) :: (cx, cy + 1) :: (cx - 1, cy) :: (cx + 1, cy) :: stack')%Z
             (wr4 d pos fillc)
      else fillLoop fuel' w h start fillc stack' d
    end
  end.

(** [floodFill].  The seed is a point with two numbers for coordinates;
    a point with a missing coordinate, which [Math.floor] turns into [NaN],
    is not represented. *)
Definition floodFill (fuel : nat) (x y : Q) (fillColor : string) (c : Ctx)
  : option Ctx :=
  match computedColor fillColor with
  | None => Some c
  | Some (fillR, fillG, fillB) =>
    let fillc := (fillR, fillG, fillB, 255%Z) in
    let seed := (Qfloor x, Qfloor y) in
    let start := rd4 (data c) (offset (width c) (fst seed) (snd seed)) in
    if samePixel (numbers fillc) start then Some c
    else
      match fillLoop fuel (width c) (height c) start fillc [seed] (data c) with
      | None => None
      | Some d => Some (withData d c)
      end
  end.

(** *** [redrawCanvas] *)

(** The body of the [forEach] callback. *)
Definition replay (fuel : nat) (action : CanvasAction.t) (c : Ctx) : option Ctx :=
  match CanvasAction.payload action with
  | Clear => Some (clearRect c)
  | Stroke None | Shape None | Fill None => Some c
  | Stroke (Some d) => Some (drawStroke d c)
  | Shape (Some d) => Some (drawShape d c)
  | Fill (Some d) =>
    floodFill fuel (Point.x (FillAction.point d)) (Point.y (FillAction.point d))
      (FillAction.color d) c
  end.

Fixpoint replayAll (fuel : nat) (actions : list CanvasAction.t) (c : Ctx)
  : option Ctx :=
  match actions with
  | [] => Some c
  | a :: rest =>
    match replay fuel a c with
    | None => None
    | Some c' => replayAll fuel rest c'
    end
  end.

(** [redrawCanvas] on a mounted canvas: clear everything, then replay. *)
Definition redrawCanvas (fuel : nat) (actions : list CanvasAction.t) (c : Ctx)
  : option Ctx :=
  replayAll fuel actions (clearRect c).

(** Fuel that is enough for every fill on a canvas of this size. *)
Definition enough (c : Ctx) : nat := S (Z.to_nat (4 * (width c * height c))).

(** [reconstruct]: the bitmap that replaying a history leaves. *)
Definition reconstruct (actions : list CanvasAction.t) (c : Ctx) : option (list Z) :=
  option_map data (redrawCanvas (enough c) actions c).

End Engine.

(** *** Vocabulary of the statements about the engine *)

Definition inside (w h : Z) (p : Z * Z) : Prop :=
  (0 <= fst p < w /\ 0 <= snd p < h)%Z.

(** [q] is one of the four neighbours of [p]. *)
Definition neighbour (p q : Z * Z) : Prop :=
  q = (fst p + 1, snd p)%Z \/ q = (fst p - 1, snd p)%Z \/
  q = (fst p, snd p + 1)%Z \/ q = (fst p, snd p - 1)%Z.

(** The pixels of the bitmap [d] that a chain of neighbours, all inside the
    canvas and all of the colour of the seed, links to the seed. *)
Inductive connected (w h : Z) (d : list Z) (seed : Z * Z) : Z * Z -> Prop :=
| connected_seed : inside w h seed -> connected w h d seed seed
| connected_step p q :
    connected w h d seed p -> neighbour p q -> inside w h q ->
    rd4 d (offset w (fst q) (snd q)) = rd4 d (offset w (fst seed) (snd seed)) ->
    connected w h d seed q.

(** The byte [j] is one of the four channels of the pixel [p]. *)
Definition channelOf (w : Z) (p : Z * Z) (j : Z) : Prop :=
  (offset w (fst p) (snd p) <= j <= offset w (fst p) (snd p) + 3)%Z.

(** The shape contract in the words of the specification, for a shape
    with start point [(sx, sy)] and end point [(ex, ey)]; the canvas has its
    origin at the top left corner, so the top edge of a box is the smaller
    [y].

    - rectangle: the axis-aligned box between the start and end corners;
    - circle: centre at the start point, radius the Euclidean distance from
      start to end (here: its square);
    - triangle: apex at the horizontal midpoint of the top edge of the
      bounding box of start and end, base spanning its bottom edge. *)
Definition boxLeft (d : DrawShape.t) : Q :=
  Qmin (Point.x (DrawShape.startPoint d)) (Point.x (DrawShape.endPoint d)).
Definition boxRight (d : DrawShape.t) : Q :=
  Qmax (Point.x (DrawShape.startPoint d)) (Point.x (DrawShape.endPoint d)).
Definition boxTop (d : DrawShape.t) : Q :=
  Qmin (Point.y (DrawShape.startPoint d)) (Point.y (DrawShape.endPoint d)).
Definition boxBottom (d : DrawShape.t) : Q :=
  Qmax (Point.y (DrawShape.startPoint d)) (Point.y (DrawShape.endPoint d)).

Definition specRect (d : DrawShape.t) (o : Outline) : Prop :=
  exists x y w h, o = rectOutline x y w h /\
    x == Point.x (DrawShape.startPoint d) /\ y == Point.y (DrawShape.startPoint d) /\
    x + w == Point.x (DrawShape.endPoint d) /\ y + h == Point.y (DrawShape.endPoint d).

Definition specCircle (d : DrawShape.t) (p : list PathOp) : Prop :=
  exists x y radiusSq, p = [arc x y radiusSq] /\
    x == Point.x (DrawShape.startPoint d) /\ y == Point.y (DrawShape.startPoint d) /\
    radiusSq ==
      (Point.x (DrawShape.endPoint d) - Point.x (DrawShape.startPoint d)) ^ 2
      + (Point.y (DrawShape.endPoint d) - Point.y (DrawShape.startPoint d)) ^ 2.

Definition specTriangle (d : DrawShape.t) (p : list PathOp) : Prop :=
  exists ax ay bx by_ cx cy,
    p = [moveTo ax ay; lineTo bx by_; lineTo cx cy; closePath] /\
    ax == (boxLeft d + boxRight d) / 2 /\ ay == boxTop d /\
    by_ == boxBottom d /\ cy == boxBottom d /\
    ((bx == boxLeft d /\ cx == boxRight d) \/ (bx == boxRight d /\ cx == boxLeft d)).

(** What the code draws for a triangle, whichever way it was dragged: the
    apex at the horizontal midpoint of the box, on the horizontal edge
    through the start point; the base along the edge through the end
    point, from one side of the box to the other. *)
Definition drawnTriangle (d : DrawShape.t) (p : list PathOp) : Prop :=
  exists ax ay bx by_ cx cy,
    p = [moveTo ax ay; lineTo bx by_; lineTo cx cy; closePath] /\
    ax == (boxLeft d + boxRight d) / 2 /\
    ay == Point.y (DrawShape.startPoint d) /\
    by_ == Point.y (DrawShape.endPoint d) /\ cy == Point.y (DrawShape.endPoint d) /\
    ((bx == boxLeft d /\ cx == boxRight d) \/ (bx == boxRight d /\ cx == boxLeft d)).

(** The outline that [drawShape] hands to the rasteriser. *)
Definition shapeOutline (d : DrawShape.t) : Outline :=
  let sx := Point.x (DrawShape.startPoint d) in
  let sy := Point.y (DrawShape.startPoint d) in
  let w := (Point.x (DrawShape.endPoint d) - sx)%Q in
  let h := (Point.y (DrawShape.endPoint d) - sy)%Q in
  match DrawShape.type d with
  | rect => rectOutline sx sy w h
  | circle => pathOutline [arc sx sy (w * w + h * h)%Q]
  | triangle =>
    pathOutline [moveTo (sx + w / 2)%Q sy; lineTo sx (sy + h)%Q;
                 lineTo (sx + w)%Q (sy + h)%Q; closePath]
  end.

Definition setFilled (b : bool) (d : DrawShape.t) : DrawShape.t :=
  DrawShape.mk (DrawShape.type d) (DrawShape.startPoint d) (DrawShape.endPoint d)
    (DrawShape.color d) (DrawShape.width d) b.

(** What [wr4] stores for a fill colour, as [rd4] reads it back. *)
Definition painted (fillc : Z * Z * Z * Z) : Pixel :=
  let '(r, g, b, a) := fillc in
  (Some (clamp8 r), Some (clamp8 g), Some (clamp8 b), Some (clamp8 a)).

(** The pixels that still have the colour [start], by pixel index. *)
Definition matching (w h : Z) (start : Pixel) (d : list Z) : list nat :=
  List.filter (fun k => samePixel (rd4 d (4 * Z.of_nat k)) start)
    (seq 0 (Z.to_nat (w * h))).

End Canvas.


(* ===================================================================== *)
(** ** Sample data                                                         *)
(* ===================================================================== *)

Module Sample.
Import Canvas.

Definition pt (x y : Z) : Point.t := Point.mk (inject_Z x) (inject_Z y).

Definition action (id : string) (p : Payload) (userId : string) : CanvasAction.t :=
  CanvasAction.mk id p userId 0.

(** The two shapes of the end-to-end scenario. *)
Definition rectangle : DrawShape.t :=
  DrawShape.mk rect (pt 10 10) (pt 50 40) "red" 2 false.
Definition circleShape : DrawShape.t :=
  DrawShape.mk circle (pt 100 100) (pt 120 100) "red" 2 false.

(** A triangle dragged downwards, and one dragged upwards. *)
Definition triangleDown : DrawShape.t :=
  DrawShape.mk triangle (pt 0 0) (pt 10 10) "red" 2 false.
Definition triangleUp : DrawShape.t :=
  DrawShape.mk triangle (pt 0 10) (pt 10 0) "red" 2 false.

Definition X : CanvasAction.t := action "x" (Shape (Some rectangle)) "A".
Definition Y : CanvasAction.t := action "y" (Shape (Some circleShape)) "B".
Definition clearAll : CanvasAction.t := action "c" Clear "A".
Definition fillRed : CanvasAction.t :=
  action "f" (Fill (Some (FillAction.mk (pt 0 0) "red"))) "A".
Definition scribble : CanvasAction.t :=
  action "s" (Stroke (Some (DrawStroke.mk [pt 0 0; pt 1 1] "red" 2 brush))) "A".
Definition triangleAction : CanvasAction.t :=
  action "t" (Shape (Some triangleDown)) "A".

(** A room with host A and member B, as [lobby] below holds it. *)
Definition lobbyRoom : Server.Room :=
  Server.mkRoom [User.mk "A" "alice" true "#f87171"; User.mk "B" "bob" false "#fb923c"]
    [] [].

(** The state after A has created the room and B has joined it. *)
Definition lobby : Server.State :=
  Server.run [("A", Server.connection); ("B", Server.connection);
              ("A", Server.create_room "ROOM01" "alice" "#f87171");
              ("B", Server.join_room "ROOM01" "bob" "#fb923c")]%string
    Server.init.

(** A browser small enough to compute with.  Every string is a colour;
    ["red"] computes to [rgb(255, 0, 0)], every other string to black.  Its
    rasteriser stores in the first byte of the bitmap a code of the line
    join it was asked to draw with: 1 for miter, 2 for round, 3 for bevel. *)
Definition joinCode (p : Pen) : Z :=
  match lineJoin p with
  | JoinMiter => 1
  | JoinRound => 2
  | JoinBevel => 3
  end.

Definition markFirstByte (p : Pen) (o : Outline) (w h : Z) (d : list Z) : list Z :=
  match d with
  | [] => []
  | _ :: rest => joinCode p :: rest
  end.

Definition browser : Browser :=
  {| parsesAsColor := fun _ => true;
     computedColor := fun s =>
       if String.eqb s "red" then Some (255, 0, 0)%Z else Some (0, 0, 0)%Z;
     paintStroke := markFirstByte |}.

(** A browser that strokes as a canvas does by default, anti-aliased and
    composited over what is there: its rasteriser covers the pixels by
    half, so that each byte moves halfway towards 255 with every stroke.
    Its colours are those of [browser]. *)
Definition halfCover (p : Pen) (o : Outline) (w h : Z) (d : list Z) : list Z :=
  (fun v => (v + 255) / 2)%Z <$> d.

Definition blending : Browser :=
  {| parsesAsColor := fun _ => true;
     computedColor := fun s =>
       if String.eqb s "red" then Some (255, 0, 0)%Z else Some (0, 0, 0)%Z;
     paintStroke := halfCover |}.

(** A circle of radius 5 in the middle of a canvas of 20 by 20. *)
Definition smallCircle : DrawShape.t :=
  DrawShape.mk circle (pt 10 10) (pt 15 10) "red" 2 false.
Definition ring : CanvasAction.t := action "r" (Shape (Some smallCircle)) "A".

(** A browser that serialises the computed colour of a colour outside
    [rgb], here ["lch(50 100 300)"], in the notation it was given in:
    [/\d+/g] finds 50, 100 and 300 in it. *)
Definition wideGamut : Browser :=
  {| parsesAsColor := fun _ => true;
     computedColor := fun s =>
       if String.eqb s "lch(50 100 300)" then Some (50, 100, 300)%Z
       else Some (0, 0, 0)%Z;
     paintStroke := markFirstByte |}.

Definition fillLch : CanvasAction.t :=
  action "l" (Fill (Some (FillAction.mk (pt 0 0) "lch(50 100 300)"))) "A".

(** Two pixels side by side, as a fill with that colour leaves them. *)
Definition lchFilled : Ctx :=
  withData [50; 100; 255; 255;  50; 100; 255; 255]%Z (newContext 2 1).

(** A bitmap of three by two pixels with a wall in the middle column. *)
Definition walled : Ctx :=
  withData [0; 0; 0; 0;  9; 9; 9; 9;  0; 0; 0; 0;
            0; 0; 0; 0;  9; 9; 9; 9;  0; 0; 0; 0]%Z (newContext 3 2).

End Sample.

(* ===================================================================== *)
(** ** Vocabulary of further statements about the server                   *)
(* ===================================================================== *)

Module Session.
Import Server.

(** The actions a room still knows, oldest first: the history, followed by
    the undone actions in the order a run of redos would bring them back. *)
Definition timeline (room : Room) : list CanvasAction.t :=
  history room ++ rev (redoStack room).

Definition isUndoRedo (req : Request) : bool :=
  match req with
  | undo _ | redo _ => true
  | _ => false
  end.

Definition isCreate (req : Request) : bool :=
  match req with
  | create_room _ _ _ => true
  | _ => false
  end.

(** The requests whose handlers write to a history or a redo stack. *)
Definition editsHistory (req : Request) : bool :=
  match req with
  | draw_stroke _ _ | draw_shape _ _ | draw_text _ _ | fill_canvas _ _
  | clear_canvas _ _ | undo _ | redo _ => true
  | _ => false
  end.

(** The requests whose handlers write to a member list. *)
Definition editsMembers (req : Request) : bool :=
  match req with
  | create_room _ _ _ | join_room _ _ _ | leave_room _ | kick_user _ _
  | disconnect => true
  | _ => false
  end.

(** The first member is the host, and nobody else is. *)
Definition hostFirst (room : Room) : Prop :=
  exists u rest, users room = u :: rest /\ User.isHost u = true /\
    Forall (fun v => User.isHost v = false) rest.

End Session.

(* ===================================================================== *)
(** ** [SocketService]: listeners, cursor throttle, the two histories      *)
(* ===================================================================== *)

Module Service.

(** *** The listener table ([eventListeners], [on], [off], [trigger])

    A callback is a JavaScript function, compared by identity; here it is a
    value of a type with decidable equality. *)
Section Listeners.
Context {Callback : Type} `{EqDecision Callback}.

Definition on (event : string) (callback : Callback)
  (eventListeners : gmap string (list Callback)) : gmap string (list Callback) :=
  <[event := default [] (eventListeners !! event) ++ [callback]]> eventListeners.

Definition off (event : string) (callback : Callback)
  (eventListeners : gmap string (list Callback)) : gmap string (list Callback) :=
  match eventListeners !! event with
  | Some listeners =>
    <[event := List.filter (fun cb => negb (bool_decide (cb = callback))) listeners]>
      eventListeners
  | None => eventListeners
  end.

(** [trigger]: the callbacks it calls, in the order of the calls. *)
Definition trigger (event : string) (eventListeners : gmap string (list Callback))
  : list Callback :=
  default [] (eventListeners !! event).

End Listeners.

(** *** [emitCursor]

    [now] is the reading of [Date.now()]; the result is the new
    [lastCursorEmit] and whether the position was sent. *)
Definition emitCursor (now lastCursorEmit : Z) : Z * bool :=
  if (now - lastCursorEmit <? 30)%Z then (lastCursorEmit, false) else (now, true).

(** The readings at which a run of calls sends a position. *)
Fixpoint sentAt (nows : list Z) (lastCursorEmit : Z) : list Z :=
  match nows with
  | [] => []
  | now :: rest =>
    let '(last, sent) := emitCursor now lastCursorEmit in
    if sent then now :: sentAt rest last else sentAt rest last
  end.

(** Each element is at least 30 after the one before it. *)
Fixpoint spaced (previous : Z) (l : list Z) : Prop :=
  match l with
  | [] => True
  | t :: rest => (30 <= t - previous)%Z /\ spaced t rest
  end.

(** *** The history calls of the two transports

    What the canvas asks of the service: a durable action ([emitStroke],
    [emitShape], [emitText], [emitFill], [emitClear]), [emitUndo] or
    [emitRedo].  In mock mode the service keeps the history itself; else
    the server does, in the room of the caller. *)
Inductive HistoryCall :=
| Durable (action : CanvasAction.t)
| Undo
| Redo.

Definition mockCall (call : HistoryCall) (s : Mock.State) : Mock.State :=
  match call with
  | Durable action => Mock.mockAddToHistory action s
  | Undo => fst (Mock.emitUndo s)
  | Redo => fst (Mock.emitRedo s)
  end.

Definition serverCall (roomId : string) (call : HistoryCall) (s : Server.State)
  : Server.State :=
  match call with
  | Durable action => fst (Server.on_durable roomId action s)
  | Undo => fst (Server.on_undo roomId s)
  | Redo => fst (Server.on_redo roomId s)
  end.

(** The full history that a call makes the transport hand to the
    [history_sync] listeners, if it does. *)
Definition mockSync (call : HistoryCall) (s : Mock.State) : option (list CanvasAction.t) :=
  match call with
  | Durable _ => None
  | Undo => snd (Mock.emitUndo s)
  | Redo => snd (Mock.emitRedo s)
  end.

Definition serverSync (roomId : string) (call : HistoryCall) (s : Server.State)
  : option (list CanvasAction.t) :=
  match call with
  | Durable _ => None
  | Undo =>
    match snd (Server.on_undo roomId s) with
    | [Server.Emit _ (Server.history_sync h)] => Some h
    | _ => None
    end
  | Redo =>
    match snd (Server.on_redo roomId s) with
    | [Server.Emit _ (Server.history_sync h)] => Some h
    | _ => None
    end
  end.

End Service.

(* ===================================================================== *)
(** ** [App]: the client's view of the room                                *)
(* ===================================================================== *)

Module App.

Inductive AppState := WELCOME | LOBBY | CANVAS.

(** The state of the component. *)
Record State := mk {
  appState : AppState;
  roomId : string;
  users : list User.t;
  currentUser : option User.t }.

Definition initial : State := mk WELCOME "" [] None.

(** [me] is [socketService.currentUserId]. *)
Definition handleRoomJoined (me : string) (room : string) (us : list User.t) (st : State)
  : State :=
  match Server.find (Server.hasId me) us with
  | Some u => mk LOBBY room us (Some u)
  | None => mk (appState st) room us (currentUser st)
  end.

Definition handleUserJoined (user : User.t) (st : State) : State :=
  match Server.find (Server.hasId (User.id user)) (users st) with
  | Some _ => st
  | None => mk (appState st) (roomId st) (users st ++ [user]) (currentUser st)
  end.

Definition handleUserLeft (userId : string) (st : State) : State :=
  mk (appState st) (roomId st)
    (List.filter (fun u => negb (String.eqb (User.id u) userId)) (users st))
    (currentUser st).

Definition handleGameStarted (st : State) : State :=
  mk CANVAS (roomId st) (users st) (currentUser st).

Definition handleRoomUpdated (me : string) (us : list User.t) (st : State) : State :=
  mk (appState st) (roomId st) us
    (match Server.find (Server.hasId me) us with
     | Some u => Some u
     | None => currentUser st
     end).

(** The listeners that the component registers when it mounts. *)
Inductive Callback :=
| cbRoomJoined | cbUserJoined | cbUserLeft | cbGameStarted | cbUserKicked | cbRoomUpdated.

#[export] Instance Callback_eq_dec : EqDecision Callback.
Proof. intros a b. unfold Decision. decide equality. Defined.

(** The client: the listener table of the service and the component. *)
Record Client := mkClient {
  eventListeners : gmap string (list Callback);
  app : State }.

Definition mount (c : Client) : Client :=
  mkClient
    (Service.on "room_updated" cbRoomUpdated
       (Service.on "user_kicked" cbUserKicked
          (Service.on "game_started" cbGameStarted
             (Service.on "user_left" cbUserLeft
                (Service.on "user_joined" cbUserJoined
                   (Service.on "room_joined" cbRoomJoined (eventListeners c)))))))
    (app c).

(** [handleExit]: [socketService.leaveRoom] clears the listener table, then
    the component resets its state. *)
Definition handleExit (c : Client) : Client := mkClient ∅ initial.

Definition eventName (ev : Server.Event) : string :=
  match ev with
  | Server.room_joined _ _ => "room_joined"
  | Server.user_joined _ => "user_joined"
  | Server.error _ => "error"
  | Server.room_updated _ => "room_updated"
  | Server.user_left _ => "user_left"
  | Server.user_kicked => "user_kicked"
  | Server.game_started _ => "game_started"
  | Server.draw_line _ => "draw_line"
  | Server.history_action _ => "history_action"
  | Server.history_sync _ => "history_sync"
  | Server.cursor_move _ => "cursor_move"
  | Server.chat_message _ => "chat_message"
  end.

(** One listener called with the data of an event.  A listener is only
    ever registered under the name of the event whose data it reads; the
    last case is there for totality. *)
Definition call (me : string) (cb : Callback) (ev : Server.Event) (c : Client) : Client :=
  match cb, ev with
  | cbRoomJoined, Server.room_joined room us =>
    mkClient (eventListeners c) (handleRoomJoined me room us (app c))
  | cbUserJoined, Server.user_joined u =>
    mkClient (eventListeners c) (handleUserJoined u (app c))
  | cbUserLeft, Server.user_left userId =>
    mkClient (eventListeners c) (handleUserLeft userId (app c))
  | cbGameStarted, Server.game_started _ =>
    mkClient (eventListeners c) (handleGameStarted (app c))
  | cbUserKicked, Server.user_kicked => handleExit c
  | cbRoomUpdated, Server.room_updated us =>
    mkClient (eventListeners c) (handleRoomUpdated me us (app c))
  | _, _ => c
  end.

(** The service receives an event: [trigger] calls the listeners that were
    registered under its name when the event arrived, in order. *)
Definition deliver (me : string) (ev : Server.Event) (c : Client) : Client :=
  fold_left (fun c' cb => call me cb ev c')
    (Service.trigger (eventName ev) (eventListeners c)) c.

Definition deliverAll (me : string) (evs : list Server.Event) (c : Client) : Client :=
  fold_left (fun c' ev => deliver me ev c') evs c.

(** The events among the effects of a handler that go to the whole group
    of a room. *)
Definition toRoom (room : string) (out : list Server.Effect) : list Server.Event :=
  omap (fun e =>
          match e with
          | Server.Emit (Server.ToRoom r) ev => if String.eqb r room then Some ev else None
          | _ => None
          end) out.

(** The events that go to the group of a room without the sender, and
    the events that go to one socket. *)
Definition toOthers (room sender : string) (out : list Server.Effect) : list Server.Event :=
  omap (fun e =>
          match e with
          | Server.Emit (Server.ToRoomExcept r s) ev =>
            if String.eqb r room && String.eqb s sender then Some ev else None
          | _ => None
          end) out.

Definition toSocket (socketId : string) (out : list Server.Effect) : list Server.Event :=
  omap (fun e =>
          match e with
          | Server.Emit (Server.ToSocket s) ev => if String.eqb s socketId then Some ev else None
          | _ => None
          end) out.

(** The test of the filter in [handleUserLeft]. *)
Definition otherThan (userId : string) (u : User.t) : bool :=
  negb (String.eqb (User.id u) userId).

(** What the component makes of an event when each of its listeners is
    registered once. *)
Definition react (me : string) (ev : Server.Event) (st : State) : State :=
  match ev with
  | Server.room_joined room us => handleRoomJoined me room us st
  | Server.user_joined u => handleUserJoined u st
  | Server.user_left userId => handleUserLeft userId st
  | Server.game_started _ => handleGameStarted st
  | Server.room_updated us => handleRoomUpdated me us st
  | _ => st
  end.

(** A client whose component has just mounted on an empty listener
    table. *)
Definition mounted (st : State) : Client := mount (mkClient ∅ st).

End App.

(* ===================================================================== *)
(** ** [PaintCanvas]: what the component does besides the replay           *)
(* ===================================================================== *)

Module Paint.
Import Canvas.

(** [DrawLine]: a segment of a stroke in progress. *)
Module DrawLine.
Record t := mk { prevPoint : option Point.t; currentPoint : Point.t; color : string; width : Q }.
End DrawLine.

(** [Tool]: the three stroke tools, the three shape tools, fill and
    picker. *)
Inductive Tool :=
| strokeTool (t : StrokeTool)
| shapeTool (t : ShapeType)
| fillTool
| pickerTool.

(** What the component asks of the service. *)
Inductive ServiceCall :=
| emitCursor (x y : Q)
| emitDrawLine (data : DrawLine.t)
| emitStroke (action : CanvasAction.t)
| emitShape (action : CanvasAction.t)
| emitFill (action : CanvasAction.t).

(** *** The picker's colour

    [n.toString(16)] for a non-negative integer: its hexadecimal digits,
    most significant first, in lower case. *)
Definition hexDigit (d : Z) : ascii :=
  nth (Z.to_nat d)
    ["0"; "1"; "2"; "3"; "4"; "5"; "6"; "7"; "8"; "9"; "a"; "b"; "c"; "d"; "e"; "f"]%char
    "0"%char.

Fixpoint toString16_from (fuel : nat) (n : Z) (acc : string) : string :=
  let acc' := String (hexDigit (n mod 16)) acc in
  match fuel with
  | O => acc'
  | S fuel' => if (n / 16 =? 0)%Z then acc' else toString16_from fuel' (n / 16) acc'
  end.

(** A number has no more hexadecimal digits than binary ones. *)
Definition toString16 (n : Z) : string := toString16_from (Z.to_nat (Z.log2 n)) n "".

(** [s.slice(1)]. *)
Definition slice1 (s : string) : string :=
  match s with
  | EmptyString => EmptyString
  | String _ rest => rest
  end.

(** ["#" + ((1 << 24) + (p[0] << 16) + (p[1] << 8) + p[2]).toString(16).slice(1)]. *)
Definition pickedColor (p0 p1 p2 : Z) : string :=
  String "#"
    (slice1 (toString16 (Z.shiftl 1 24 + Z.shiftl p0 16 + Z.shiftl p1 8 + p2)%Z)).

(** Two hexadecimal digits of a byte. *)
Definition hex2 (v : Z) : string :=
  String (hexDigit (v / 16)) (String (hexDigit (v mod 16)) EmptyString).

(** *** The line width buttons *)

Definition widthDown (lineWidth : Q) : Q := Qmax 1 (lineWidth - 2).
Definition widthUp (lineWidth : Q) : Q := Qmin 50 (lineWidth + 2).

Inductive WidthClick := Minus | Plus.

Definition clickWidth (lineWidth : Q) (b : WidthClick) : Q :=
  match b with
  | Minus => widthDown lineWidth
  | Plus => widthUp lineWidth
  end.

Section Component.
Context {B : Browser}.

(** *** [drawLineSegment] *)

Definition drawLineSegment (data : DrawLine.t) (c : Ctx) : Ctx :=
  let c := beginPath c in
  let c := set_lineCap CapRound c in
  let c := set_lineJoin JoinRound c in
  let c := set_strokeStyle (DrawLine.color data) c in
  let c := set_lineWidth (DrawLine.width data) c in
  match DrawLine.prevPoint data with
  | Some prevPoint =>
    let c := addPath (moveTo (Point.x prevPoint) (Point.y prevPoint)) c in
    let c := addPath (lineTo (Point.x (DrawLine.currentPoint data))
                        (Point.y (DrawLine.currentPoint data))) c in
    stroke_ c
  | None => c
  end.

(** *** [handleHistoryAction]

    The component's copy of the history and its canvas.  The updater
    appends the action and draws it: a shape, a fill and a clear always, a
    stroke only when it is somebody else's ([me] is
    [socketService.currentUserId]). *)
Definition handleHistoryAction (fuel : nat) (me : string) (action : CanvasAction.t)
  (st : list CanvasAction.t * Ctx) : option (list CanvasAction.t * Ctx) :=
  let '(prev, c) := st in
  let newHistory := prev ++ [action] in
  match CanvasAction.payload action with
  | Shape (Some d) => Some (newHistory, drawShape d c)
  | Fill (Some d) =>
    match floodFill fuel (Point.x (FillAction.point d)) (Point.y (FillAction.point d))
            (FillAction.color d) c with
    | Some c' => Some (newHistory, c')
    | None => None
    end
  | Clear => Some (newHistory, clearRect c)
  | Stroke (Some d) =>
    if String.eqb (CanvasAction.userId action) me then Some (newHistory, c)
    else Some (newHistory, drawStroke d c)
  | _ => Some (newHistory, c)
  end.

Fixpoint handleHistoryActions (fuel : nat) (me : string) (actions : list CanvasAction.t)
  (st : list CanvasAction.t * Ctx) : option (list CanvasAction.t * Ctx) :=
  match actions with
  | [] => Some st
  | a :: rest =>
    match handleHistoryAction fuel me a st with
    | Some st' => handleHistoryActions fuel me rest st'
    | None => None
    end
  end.

(** An action that the incremental path leaves undrawn: a stroke of the
    user's own, whose segments [moveDrawing] has drawn already. *)
Definition ownStroke (me : string) (action : CanvasAction.t) : bool :=
  match CanvasAction.payload action with
  | Stroke (Some _) => String.eqb (CanvasAction.userId action) me
  | _ => false
  end.

(** *** The pointer handlers

    The state the handlers read and write: the tool bar ([tool], [color],
    [lineWidth]), [isDrawing], the refs [startPoint], [lastPoint] and
    [currentStrokePoints], the drawing canvas and the preview canvas. *)
Record Painter := mkPainter {
  tool : Tool;
  color : string;
  lineWidth : Q;
  isDrawing : bool;
  startPoint : option Point.t;
  lastPoint : option Point.t;
  currentStrokePoints : list Point.t;
  canvas : Ctx;
  preview : Ctx }.

(** The integer that [getImageData] makes of a coordinate. *)
Definition toLong (x : Q) : Z := if Qle_bool 0 x then Qfloor x else Qceiling x.

(** [ctx.getImageData(x, y, 1, 1).data]: the pixel under the pointer,
    transparent black outside the canvas; a missing channel reads as 0. *)
Definition pixelAt (x y : Q) (c : Ctx) : Z * Z * Z :=
  let cx := toLong x in
  let cy := toLong y in
  if outside (width c) (height c) cx cy then (0, 0, 0)%Z
  else
    let pos := offset (width c) cx cy in
    (default 0%Z (rd (data c) pos), default 0%Z (rd (data c) (pos + 1)%Z),
     default 0%Z (rd (data c) (pos + 2)%Z)).

(** [id] and [timestamp] are the readings of [Math.random().toString(36)]
    and [Date.now()], [me] is [socketService.currentUserId]. *)
Definition startDrawing (fuel : nat) (id : string) (timestamp : Z) (me : string)
  (x y : Q) (p : Painter) : option (Painter * list ServiceCall) :=
  let pt := Point.mk x y in
  match tool p with
  | fillTool =>
    match floodFill fuel x y (color p) (canvas p) with
    | None => None
    | Some c =>
      let action :=
        CanvasAction.mk id (Fill (Some (FillAction.mk pt (color p)))) me timestamp in
      Some (mkPainter (tool p) (color p) (lineWidth p) false (Some pt) (Some pt) [pt]
              c (preview p),
            [emitFill action])
    end
  | pickerTool =>
    let '(p0, p1, p2) := pixelAt x y (canvas p) in
    Some (mkPainter (strokeTool brush) (pickedColor p0 p1 p2) (lineWidth p) false
            (Some pt) (Some pt) [pt] (canvas p) (preview p),
          [])
  | _ =>
    Some (mkPainter (tool p) (color p) (lineWidth p) true (Some pt) (Some pt) [pt]
            (canvas p) (preview p),
          [])
  end.

Definition effectiveColor (t : StrokeTool) (color : string) : string :=
  match t with
  | eraser => "#FFFFFF"
  | _ => color
  end.

Definition effectiveWidth (t : StrokeTool) (lineWidth : Q) : Q :=
  match t with
  | pencil => 1
  | _ => lineWidth
  end.

Definition moveDrawing (x y : Q) (p : Painter) : Painter * list ServiceCall :=
  let currentPoint := Point.mk x y in
  let cursor := emitCursor x y in
  match isDrawing p, startPoint p with
  | true, Some start =>
    match tool p with
    | shapeTool t =>
      let shown :=
        drawShape (DrawShape.mk t start currentPoint (color p) (lineWidth p) false)
          (clearRect (preview p)) in
      (mkPainter (tool p) (color p) (lineWidth p) (isDrawing p) (startPoint p)
         (lastPoint p) (currentStrokePoints p) (canvas p) shown,
       [cursor])
    | strokeTool t =>
      let data :=
        DrawLine.mk (Some (default currentPoint (lastPoint p))) currentPoint
          (effectiveColor t (color p)) (effectiveWidth t (lineWidth p)) in
      (mkPainter (tool p) (color p) (lineWidth p) (isDrawing p) (startPoint p)
         (Some currentPoint) (currentStrokePoints p ++ [currentPoint])
         (drawLineSegment data (canvas p)) (preview p),
       [cursor; emitDrawLine data])
    | _ => (p, [cursor])
    end
  | _, _ => (p, [cursor])
  end.

Definition endDrawing (id : string) (timestamp : Z) (me : string) (p : Painter)
  : Painter * list ServiceCall :=
  match isDrawing p, startPoint p with
  | true, Some start =>
    let endPoint := default start (lastPoint p) in
    let idle c pv :=
      mkPainter (tool p) (color p) (lineWidth p) false None None [] c pv in
    match tool p with
    | shapeTool t =>
      let shapeData := DrawShape.mk t start endPoint (color p) (lineWidth p) false in
      (idle (drawShape shapeData (canvas p)) (clearRect (preview p)),
       [emitShape (CanvasAction.mk id (Shape (Some shapeData)) me timestamp)])
    | strokeTool t =>
      let strokeData :=
        DrawStroke.mk (currentStrokePoints p) (effectiveColor t (color p))
          (effectiveWidth t (lineWidth p)) t in
      (idle (canvas p) (preview p),
       [emitStroke (CanvasAction.mk id (Stroke (Some strokeData)) me timestamp)])
    | _ => (idle (canvas p) (preview p), [])
    end
  | _, _ => (p, [])
  end.

(** A run of pointer moves. *)
Fixpoint moves (ps : list Point.t) (p : Painter) : Painter * list ServiceCall :=
  match ps with
  | [] => (p, [])
  | q :: rest =>
    let '(p1, out1) := moveDrawing (Point.x q) (Point.y q) p in
    let '(p2, out2) := moves rest p1 in
    (p2, out1 ++ out2)
  end.

(** The durable actions among the calls. *)
Definition durable (out : list ServiceCall) : list CanvasAction.t :=
  omap (fun c =>
          match c with
          | emitStroke a | emitShape a | emitFill a => Some a
          | _ => None
          end) out.

(** The number of segments among the calls. *)
Definition segments (out : list ServiceCall) : nat :=
  length (List.filter (fun c => match c with emitDrawLine _ => true | _ => false end) out).

End Component.

End Paint.

(* ===================================================================== *)
(** ** [PaintCanvas]: the cursors of the others                            *)
(* ===================================================================== *)

Module Cursors.

Module CursorPosition.
Record t := mk {
  userId : string;
  x : Q;
  y : Q;
  username : option string;
  color : string }.
End CursorPosition.

(** [activeCursorIds] and [cursorDataRef.current]. *)
Record State := mkState {
  activeCursorIds : list string;
  cursorData : gmap string CursorPosition.t }.

Definition initial : State := mkState [] ∅.

(** [handleRemoteCursor].  [me] is [socketService.currentUserId]; [el]
    tells whether [cursorElementsRef.current] holds an element for the
    user, which is then moved in place. *)
Definition handleRemoteCursor (me : string) (data : CursorPosition.t) (el : bool)
  (st : State) : State :=
  if String.eqb (CursorPosition.userId data) me then st
  else
    let cursorData' := <[CursorPosition.userId data := data]> (cursorData st) in
    if el then mkState (activeCursorIds st) cursorData'
    else
      mkState
        (if bool_decide (CursorPosition.userId data ∈ activeCursorIds st)
         then activeCursorIds st
         else activeCursorIds st ++ [CursorPosition.userId data])
        cursorData'.

(** [handleUserLeft] of the canvas. *)
Definition handleUserLeft (userId : string) (st : State) : State :=
  mkState (List.filter (fun id => negb (String.eqb id userId)) (activeCursorIds st))
    (delete userId (cursorData st)).

Inductive Event :=
| cursor_move (data : CursorPosition.t) (el : bool)
| user_left (userId : string).

Definition handle (me : string) (st : State) (ev : Event) : State :=
  match ev with
  | cursor_move data el => handleRemoteCursor me data el st
  | user_left userId => handleUserLeft userId st
  end.

(** The cursors that are shown are distinct, none is the user's own, and
    each has a position. *)
Definition consistent (me : string) (st : State) : Prop :=
  NoDup (activeCursorIds st) /\
  (me ∉ activeCursorIds st) /\
  forall id, id ∈ activeCursorIds st -> is_Some (cursorData st !! id).

End Cursors.
(* ===================================================================== *)
(** * Properties                                                           *)
(* ===================================================================== *)

(** ** Arrays *)

Lemma pop_app_last {A} (l : list A) (a : A) : Server.pop (l ++ [a]) = Some (l, a).
Proof.
  induction l as [|b l IH]; simpl; [reflexivity|].
  rewrite IH. reflexivity.
Qed.

Lemma pop_None {A} (l : list A) : Server.pop l = None <-> l = [].
Proof.
  split; [|intros ->; reflexivity].
  destruct l as [|a l]; [reflexivity|]. simpl.
  destruct (Server.pop l) as [[? ?]|]; discriminate.
Qed.

Lemma pop_Some {A} (l front : list A) (z : A) :
  Server.pop l = Some (front, z) <-> l = front ++ [z].
Proof.
  split.
  - revert front. induction l as [|a l IH]; intros front; simpl; [discriminate|].
    destruct (Server.pop l) as [[f y]|] eqn:E.
    + intros [= <- <-]. rewrite (IH f eq_refl). reflexivity.
    + apply pop_None in E. subst l. intros [= <- <-]. reflexivity.
  - intros ->. apply pop_app_last.
Qed.

Lemma tail_length {A} (l : list A) : length (tail l) = length l - 1.
Proof. destruct l; simpl; lia. Qed.

Lemma pushCapped_spec (a : CanvasAction.t) (h : list CanvasAction.t) :
  Server.pushCapped a h =
    if Nat.ltb Server.HISTORY_CAP (length (h ++ [a])) then tail (h ++ [a]) else h ++ [a].
Proof. reflexivity. Qed.

Lemma pushCapped_length (a : CanvasAction.t) (h : list CanvasAction.t) :
  length h <= Server.HISTORY_CAP -> length (Server.pushCapped a h) <= Server.HISTORY_CAP.
Proof.
  intros Hh. rewrite pushCapped_spec.
  destruct (Nat.ltb_spec Server.HISTORY_CAP (length (h ++ [a]))) as [Hlt|Hle]; [|exact Hle].
  rewrite tail_length, length_app. cbn [length]. lia.
Qed.

(** Within the cap, a capped push keeps the last [HISTORY_CAP] entries. *)
Lemma pushCapped_drop (a : CanvasAction.t) (h : list CanvasAction.t) :
  length h <= Server.HISTORY_CAP ->
  Server.pushCapped a h = drop (length (h ++ [a]) - Server.HISTORY_CAP) (h ++ [a]).
Proof.
  intros Hh. rewrite pushCapped_spec.
  assert (Hl : length (h ++ [a]) = S (length h)) by (rewrite length_app; simpl; lia).
  destruct (Nat.ltb_spec Server.HISTORY_CAP (length (h ++ [a]))) as [Hlt|Hle].
  - replace (length (h ++ [a]) - Server.HISTORY_CAP) with 1 by lia.
    destruct (h ++ [a]); reflexivity.
  - replace (length (h ++ [a]) - Server.HISTORY_CAP) with 0 by lia. reflexivity.
Qed.

(** Appending a whole list of actions, one capped push at a time. *)
Lemma fold_pushCapped (actions h : list CanvasAction.t) :
  length h <= Server.HISTORY_CAP ->
  let h' := fold_left (fun acc a => Server.pushCapped a acc) actions h in
  length h' <= Server.HISTORY_CAP /\
  h' = drop (length (h ++ actions) - Server.HISTORY_CAP) (h ++ actions).
Proof.
  revert h. induction actions as [|a actions IH]; intros h Hh; simpl.
  - split; [exact Hh|]. rewrite app_nil_r.
    replace (length h - Server.HISTORY_CAP) with 0 by lia. reflexivity.
  - destruct (IH (Server.pushCapped a h) (pushCapped_length a h Hh)) as [Hlen Heq].
    split; [exact Hlen|]. simpl in Heq. rewrite Heq.
    rewrite (pushCapped_drop a h Hh).
    replace (h ++ a :: actions) with ((h ++ [a]) ++ actions)
      by (rewrite <- app_assoc; reflexivity).
    set (l := h ++ [a]).
    assert (Hl : length l = S (length h)) by (unfold l; rewrite length_app; simpl; lia).
    rewrite !length_app, length_drop.
    destruct (Nat.le_gt_cases (length l) Server.HISTORY_CAP) as [Hle|Hgt].
    + replace (length l - Server.HISTORY_CAP) with 0 by lia. simpl.
      rewrite Nat.sub_0_r. reflexivity.
    + rewrite <- (drop_app_le l actions (length l - Server.HISTORY_CAP)) by lia.
      rewrite drop_drop. f_equal. lia.
Qed.

(** ** The relay server *)

Section ServerLemmas.
Import Server.

Lemma findIndex_Some {A} (p : A -> bool) (l : list A) (i : nat) :
  findIndex p l = Some i ->
  exists a, l !! i = Some a /\ p a = true /\ find p l = Some a.
Proof.
  revert i. induction l as [|b l IH]; intros i; simpl; [discriminate|].
  destruct (p b) eqn:Hb.
  - intros [= <-]. exists b. auto.
  - destruct (findIndex p l) as [j|]; [|discriminate].
    intros [= <-]. destruct (IH j eq_refl) as (a & Ha & Hp & Hf).
    exists a. auto.
Qed.

Lemma findIndex_None {A} (p : A -> bool) (l : list A) :
  findIndex p l = None <-> find p l = None.
Proof.
  induction l as [|b l IH]; simpl; [tauto|].
  destruct (p b); [split; discriminate|].
  destruct (findIndex p l); simpl; split; intros H; try discriminate.
  - destruct IH as [_ IH]. discriminate (IH H).
  - apply IH. reflexivity.
  - reflexivity.
Qed.

Lemma find_Some {A} (p : A -> bool) (l : list A) (a : A) :
  find p l = Some a -> a ∈ l /\ p a = true.
Proof.
  induction l as [|b l IH]; simpl; [discriminate|].
  destruct (p b) eqn:Hb.
  - intros [= <-]. split; [left|exact Hb].
  - intros H. destruct (IH H). split; [right|]; assumption.
Qed.

(** What [handleLeave] does to the room table. *)
Lemma handleLeave_rooms (roomId socketId : string) (rs : gmap string Room) :
  fst (handleLeave roomId socketId rs) =
    match rs !! roomId with
    | None => rs
    | Some room =>
      match findIndex (hasId socketId) (users room) with
      | None => rs
      | Some index =>
        match usersAfterLeave index (users room) with
        | [] => delete roomId rs
        | us => <[roomId := mkRoom us (history room) (redoStack room)]> rs
        end
      end
    end.
Proof.
  unfold handleLeave, usersAfterLeave.
  destruct (rs !! roomId) as [room|]; [|reflexivity].
  destruct (findIndex (hasId socketId) (users room)) as [index|]; [|reflexivity].
  match goal with |- context [if ?b then promoteFirst _ else _] => destruct b end;
    match goal with |- context [Nat.eqb (length ?l) 0] => destruct l end; reflexivity.
Qed.

(** *** Properties that every room keeps *)

Section RoomInvariant.
Variable P : Room -> Prop.
Hypothesis P_create : forall socketId username color,
  P (mkRoom [User.mk socketId username true color] [] []).
Hypothesis P_join : forall room u, P room -> User.isHost u = false ->
  P (mkRoom (users room ++ [u]) (history room) (redoStack room)).
Hypothesis P_leave : forall room index u, P room -> users room !! index = Some u ->
  usersAfterLeave index (users room) <> [] ->
  P (mkRoom (usersAfterLeave index (users room)) (history room) (redoStack room)).
Hypothesis P_append : forall room a, P room ->
  P (mkRoom (users room) (pushCapped a (history room)) []).
Hypothesis P_undo : forall room h a, P room -> history room = h ++ [a] ->
  P (mkRoom (users room) h (redoStack room ++ [a])).
Hypothesis P_redo : forall room r a, P room -> redoStack room = r ++ [a] ->
  P (mkRoom (users room) (history room ++ [a]) r).

Let every (rs : gmap string Room) : Prop := map_Forall (fun _ room => P room) rs.

Lemma handleLeave_every roomId socketId rs :
  every rs -> every (fst (handleLeave roomId socketId rs)).
Proof.
  intros Hrs. rewrite handleLeave_rooms.
  destruct (rs !! roomId) as [room|] eqn:Hroom; [|exact Hrs].
  destruct (findIndex (hasId socketId) (users room)) as [index|] eqn:Hi; [|exact Hrs].
  destruct (findIndex_Some _ _ _ Hi) as (u & Hu & _).
  destruct (usersAfterLeave index (users room)) as [|b us] eqn:Hus.
  - apply map_Forall_delete. exact Hrs.
  - apply map_Forall_insert_2; [|exact Hrs].
    rewrite <- Hus. eapply P_leave; eauto. rewrite Hus. discriminate.
Qed.

Lemma disconnect_every socketId (entries : list (string * Room)) acc :
  every (fst acc) ->
  every (fst (fold_left (leaveIfMember socketId) entries acc)).
Proof.
  revert acc. induction entries as [|e entries IH]; intros acc Hacc; [exact Hacc|].
  simpl. apply IH. unfold leaveIfMember.
  destruct (find (hasId socketId) (users (snd e))); [|exact Hacc].
  pose proof (handleLeave_every (fst e) socketId (fst acc) Hacc) as H.
  destruct (handleLeave (fst e) socketId (fst acc)). exact H.
Qed.

Lemma handle_every socketId req s :
  every (rooms s) -> every (rooms (fst (handle socketId req s))).
Proof.
  intros Hs.
  assert (Hdur : forall roomId action,
            every (rooms (fst (on_durable roomId action s)))).
  { intros roomId action. simpl. unfold addToHistory.
    destruct (rooms s !! roomId) as [room|] eqn:Hroom; [|exact Hs].
    apply map_Forall_insert_2; [|exact Hs]. apply P_append. eapply Hs; eauto. }
  destruct req; simpl; try exact Hs; try apply Hdur.
  - apply map_Forall_insert_2; [apply P_create|exact Hs].
  - unfold on_join_room.
    destruct (rooms s !! roomId) as [room|] eqn:Hroom; [|exact Hs].
    simpl. apply map_Forall_insert_2; [|exact Hs].
    apply P_join; [eapply Hs; eauto|reflexivity].
  - unfold on_leave_room.
    pose proof (handleLeave_every roomId socketId (rooms s) Hs) as H.
    destruct (handleLeave roomId socketId (rooms s)). exact H.
  - unfold on_kick_user.
    destruct (rooms s !! roomId) as [room|]; [|exact Hs].
    destruct (find (hasId socketId) (users room)) as [requester|]; [|exact Hs].
    destruct (negb (User.isHost requester)); [exact Hs|].
    pose proof (handleLeave_every roomId userId (rooms s) Hs) as H.
    destruct (handleLeave roomId userId (rooms s)). exact H.
  - unfold on_undo.
    destruct (rooms s !! roomId) as [room|] eqn:Hroom; [|exact Hs].
    destruct (pop (history room)) as [[h a]|] eqn:Hpop; [|exact Hs].
    simpl. apply map_Forall_insert_2; [|exact Hs].
    apply P_undo; [eapply Hs; eauto|]. apply pop_Some. exact Hpop.
  - unfold on_redo.
    destruct (rooms s !! roomId) as [room|] eqn:Hroom; [|exact Hs].
    destruct (pop (redoStack room)) as [[r a]|] eqn:Hpop; [|exact Hs].
    simpl. apply map_Forall_insert_2; [|exact Hs].
    apply P_redo; [eapply Hs; eauto|]. apply pop_Some. exact Hpop.
  - unfold on_disconnect.
    pose proof (disconnect_every socketId (map_to_list (rooms s)) (rooms s, []) Hs) as H.
    destruct (fold_left _ _ _). exact H.
Qed.

Lemma run_every reqs s : every (rooms s) -> every (rooms (run reqs s)).
Proof.
  revert s. induction reqs as [|r reqs IH]; intros s Hs; [exact Hs|].
  simpl. apply IH. apply handle_every. exact Hs.
Qed.

Lemma reachable_every reqs : every (rooms (run reqs init)).
Proof. apply run_every. apply map_Forall_empty. Qed.

End RoomInvariant.

End ServerLemmas.

(** *** History: capped appends, undo and redo *)

Section HistoryClaims.
Import Server.

Lemma appendAll_lookup roomId actions (rs : gmap string Room) room :
  rs !! roomId = Some room ->
  appendAll roomId actions rs !! roomId =
    Some (mkRoom (users room)
            (fold_left (fun acc a => pushCapped a acc) actions (history room))
            (match actions with [] => redoStack room | _ => [] end)).
Proof.
  revert rs room. induction actions as [|a actions IH]; intros rs room Hroom.
  - simpl. rewrite Hroom. destruct room; reflexivity.
  - change (appendAll roomId (a :: actions) rs)
      with (appendAll roomId actions (addToHistory roomId a rs)).
    unfold addToHistory. rewrite Hroom.
    erewrite IH by apply lookup_insert_eq. simpl.
    destruct actions; reflexivity.
Qed.

Lemma mock_appendAll_history actions (s : Mock.State) :
  Mock.mockHistory (Mock.appendAll actions s) =
    fold_left (fun acc a => pushCapped a acc) actions (Mock.mockHistory s).
Proof.
  revert s. induction actions as [|a actions IH]; intros s; [reflexivity|].
  change (Mock.appendAll (a :: actions) s)
    with (Mock.appendAll actions (Mock.mockAddToHistory a s)).
  rewrite IH. reflexivity.
Qed.

(** Every room of a state the server can reach holds at most 500 actions,
    history and redo stack together. *)
Lemma reachable_bounded reqs :
  map_Forall (fun _ room => length (history room) + length (redoStack room) <= HISTORY_CAP)
    (rooms (run reqs init)).
Proof.
  apply reachable_every with
    (P := fun room => length (history room) + length (redoStack room) <= HISTORY_CAP).
  - intros. simpl. unfold HISTORY_CAP. lia.
  - intros room u H _. exact H.
  - intros room index u H _ _. exact H.
  - intros room a H. simpl. rewrite Nat.add_0_r.
    rewrite pushCapped_spec.
    destruct (Nat.ltb_spec HISTORY_CAP (length (history room ++ [a]))) as [Hlt|Hle];
      [|exact Hle].
    rewrite tail_length, length_app. cbn [length]. lia.
  - intros room h a H Hh. simpl. rewrite Hh in H.
    rewrite !length_app in *. cbn [length] in *. lia.
  - intros room r a H Hr. simpl. rewrite Hr in H.
    rewrite !length_app in *. cbn [length] in *. lia.
Qed.

(** C2.  The history of a room never holds more than 500 actions.  An
    append to a history of 500 drops exactly the oldest entry.  A run of
    appends on a history within the cap leaves the last 500 entries of what
    was appended, in order; in particular 501 appends to an empty history
    leave all but the first.  The same holds for the mock history of the
    fallback bus, and the bound holds in every state the server reaches,
    whatever the clients send. *)
Theorem history_capped_at_500 :
  (forall roomId (rs : gmap string Room) room a,
     rs !! roomId = Some room -> length (history room) = 500 ->
     addToHistory roomId a rs !! roomId
       = Some (mkRoom (users room) (tail (history room) ++ [a]) [])) /\
  (forall roomId (rs : gmap string Room) room actions,
     rs !! roomId = Some room -> length (history room) <= 500 ->
     exists room',
       appendAll roomId actions rs !! roomId = Some room' /\
       users room' = users room /\
       length (history room') <= 500 /\
       history room' =
         drop (length (history room ++ actions) - 500) (history room ++ actions) /\
       (history room = [] -> length actions = 501 -> history room' = tail actions)) /\
  (forall (s : Mock.State) actions,
     length (Mock.mockHistory s) <= 500 ->
     length (Mock.mockHistory (Mock.appendAll actions s)) <= 500 /\
     Mock.mockHistory (Mock.appendAll actions s) =
       drop (length (Mock.mockHistory s ++ actions) - 500) (Mock.mockHistory s ++ actions)) /\
  (forall reqs roomId room,
     rooms (run reqs init) !! roomId = Some room -> length (history room) <= 500).
Proof.
  change 500 with HISTORY_CAP. change 501 with (S HISTORY_CAP).
  split; [|split; [|split]].
  - intros roomId rs room a Hroom Hlen. unfold addToHistory. rewrite Hroom.
    rewrite lookup_insert_eq. do 2 f_equal. rewrite pushCapped_spec.
    assert (Hl : length (history room ++ [a]) = S HISTORY_CAP)
      by (rewrite length_app, Hlen; cbn [length]; lia).
    rewrite Hl. replace (Nat.ltb HISTORY_CAP (S HISTORY_CAP)) with true
      by (symmetry; apply Nat.ltb_lt; lia).
    destruct (history room) as [|b h]; [unfold HISTORY_CAP in Hlen; discriminate|].
    reflexivity.
  - intros roomId rs room actions Hroom Hlen.
    eexists. split; [apply appendAll_lookup; exact Hroom|]. simpl.
    destruct (fold_pushCapped actions (history room) Hlen) as [H1 H2].
    repeat split; try assumption.
    intros Hnil Hn. rewrite H2, Hnil. simpl. rewrite Hn.
    replace (S HISTORY_CAP - HISTORY_CAP) with 1 by lia.
    destruct actions; reflexivity.
  - intros s actions Hlen. rewrite mock_appendAll_history.
    apply fold_pushCapped. exact Hlen.
  - intros reqs roomId room Hroom.
    pose proof (reachable_bounded reqs roomId room Hroom) as H. simpl in H. lia.
Qed.

(** Every append leaves the redo stack of its room empty. *)
Lemma addToHistory_clears_redo roomId a (rs : gmap string Room) room :
  rs !! roomId = Some room ->
  exists room', addToHistory roomId a rs !! roomId = Some room' /\ redoStack room' = [].
Proof.
  intros Hroom. unfold addToHistory. rewrite Hroom.
  eexists. split; [apply lookup_insert_eq|reflexivity].
Qed.

(** C3, as the code has it.  Every append clears the redo stack; after
    [append(X); undo; append(Y); redo] on a room with an empty history the
    history is [[Y]], the redo stack is empty and the redo has sent
    nothing: [X] cannot be brought back. *)
Theorem append_after_undo_drops_redo roomId (s : State) room (X Y : CanvasAction.t) :
  rooms s !! roomId = Some room ->
  history room = [] -> redoStack room = [] ->
  (forall a (rs : gmap string Room) r, rs !! roomId = Some r ->
     exists r', addToHistory roomId a rs !! roomId = Some r' /\ redoStack r' = []) /\
  let s1 := fst (on_durable roomId X s) in
  let s2 := fst (on_undo roomId s1) in
  let s3 := fst (on_durable roomId Y s2) in
  rooms s2 !! roomId = Some (mkRoom (users room) [] [X]) /\
  rooms s3 !! roomId = Some (mkRoom (users room) [Y] []) /\
  on_redo roomId s3 = (s3, []).
Proof.
  intros Hroom Hh Hr.
  split; [intros a rs r; apply addToHistory_clears_redo|].
  assert (H1 : rooms (fst (on_durable roomId X s)) !! roomId
               = Some (mkRoom (users room) [X] [])).
  { simpl. unfold addToHistory. rewrite Hroom, Hh. apply lookup_insert_eq. }
  assert (H2 : rooms (fst (on_undo roomId (fst (on_durable roomId X s)))) !! roomId
               = Some (mkRoom (users room) [] [X])).
  { unfold on_undo at 1. rewrite H1. simpl. apply lookup_insert_eq. }
  assert (H3 : rooms (fst (on_durable roomId Y
                  (fst (on_undo roomId (fst (on_durable roomId X s)))))) !! roomId
               = Some (mkRoom (users room) [Y] [])).
  { unfold on_durable at 1. unfold fst at 1. unfold setRooms, rooms at 1.
    unfold addToHistory. rewrite H2. apply lookup_insert_eq. }
  cbv zeta. split; [exact H2|]. split; [exact H3|].
  unfold on_redo at 1. rewrite H3. reflexivity.
Qed.

(** C4.  Undo does nothing and sends nothing when the room is unknown or
    its history is empty; otherwise it moves the last action of the
    history onto the redo stack and sends the whole remaining history to
    the room.  Redo is the mirror image on the redo stack. *)
Theorem undo_redo_full_resync roomId (s : State) :
  (rooms s !! roomId = None -> on_undo roomId s = (s, []) /\ on_redo roomId s = (s, [])) /\
  (forall room, rooms s !! roomId = Some room -> history room = [] ->
     on_undo roomId s = (s, [])) /\
  (forall room h a, rooms s !! roomId = Some room -> history room = h ++ [a] ->
     on_undo roomId s =
       (setRooms (<[roomId := mkRoom (users room) h (redoStack room ++ [a])]> (rooms s)) s,
        [Emit (ToRoom roomId) (history_sync h)])) /\
  (forall room, rooms s !! roomId = Some room -> redoStack room = [] ->
     on_redo roomId s = (s, [])) /\
  (forall room r a, rooms s !! roomId = Some room -> redoStack room = r ++ [a] ->
     on_redo roomId s =
       (setRooms (<[roomId := mkRoom (users room) (history room ++ [a]) r]> (rooms s)) s,
        [Emit (ToRoom roomId) (history_sync (history room ++ [a]))])).
Proof.
  unfold on_undo, on_redo. repeat split.
  - rewrite H. reflexivity.
  - rewrite H. reflexivity.
  - intros room Hroom Hh. rewrite Hroom, Hh. reflexivity.
  - intros room h a Hroom Hh. rewrite Hroom, Hh, pop_app_last. reflexivity.
  - intros room Hroom Hr. rewrite Hroom, Hr. reflexivity.
  - intros room r a Hroom Hr. rewrite Hroom, Hr, pop_app_last. reflexivity.
Qed.

End HistoryClaims.

(** *** Host authority *)

Section HostClaims.
Import Server.

Lemma hostCount_app us vs : hostCount (us ++ vs) = hostCount us + hostCount vs.
Proof. unfold hostCount. rewrite List.filter_app, length_app. reflexivity. Qed.

Lemma hostCount_cons u us :
  hostCount (u :: us) = (if User.isHost u then 1 else 0) + hostCount us.
Proof. unfold hostCount. simpl. destruct (User.isHost u); reflexivity. Qed.

Lemma hostCount_delete us index u :
  us !! index = Some u ->
  hostCount us = (if User.isHost u then 1 else 0) + hostCount (delete index us).
Proof.
  revert index. induction us as [|v us IH]; intros [|index] Hu; try discriminate.
  - injection Hu as ->. simpl. apply hostCount_cons.
  - simpl in Hu. change (delete (S index) (v :: us)) with (v :: delete index us).
    rewrite !hostCount_cons, (IH index Hu). lia.
Qed.

Lemma hostCount_promoteFirst us :
  us <> [] -> hostCount us = 0 -> hostCount (promoteFirst us) = 1.
Proof.
  destruct us as [|u us]; [congruence|]. intros _.
  simpl. rewrite !hostCount_cons. simpl. destruct (User.isHost u); lia.
Qed.

(** The member list after a leave, case by case. *)
Lemma usersAfterLeave_cases index us u :
  us !! index = Some u ->
  usersAfterLeave index us =
    match delete index us with
    | [] => []
    | b :: rest => if User.isHost u then User.setHost true b :: rest else b :: rest
    end.
Proof.
  intros Hu. unfold usersAfterLeave. rewrite Hu.
  destruct (delete index us) as [|b rest]; destruct (User.isHost u); reflexivity.
Qed.

Lemma usersAfterLeave_one_host index us u :
  hostCount us = 1 -> us !! index = Some u ->
  usersAfterLeave index us <> [] ->
  hostCount (usersAfterLeave index us) = 1.
Proof.
  intros H1 Hu Hne. pose proof (hostCount_delete us index u Hu) as Hd.
  rewrite (usersAfterLeave_cases index us u Hu) in *.
  destruct (delete index us) as [|b rest] eqn:Hdel; [congruence|].
  destruct (User.isHost u).
  - apply (hostCount_promoteFirst (b :: rest)); [discriminate|lia].
  - lia.
Qed.

(** In every state the server reaches, each room has exactly one host. *)
Lemma reachable_one_host reqs :
  map_Forall (fun _ room => hostCount (users room) = 1) (rooms (run reqs init)).
Proof.
  apply reachable_every with (P := fun room => hostCount (users room) = 1).
  - reflexivity.
  - intros room u H Hu. simpl. rewrite hostCount_app, hostCount_cons, Hu, H. reflexivity.
  - intros room index u H Hu Hne. simpl. eapply usersAfterLeave_one_host; eauto.
  - intros room a H. exact H.
  - intros room h a H _. exact H.
  - intros room r a H _. exact H.
Qed.

(** One step from any state in which each room has exactly one host. *)
Lemma handle_one_host socketId req s :
  map_Forall (fun _ room => hostCount (users room) = 1) (rooms s) ->
  map_Forall (fun _ room => hostCount (users room) = 1)
    (rooms (fst (handle socketId req s))).
Proof.
  apply handle_every with (P := fun room => hostCount (users room) = 1).
  - reflexivity.
  - intros room u H Hu. simpl. rewrite hostCount_app, hostCount_cons, Hu, H. reflexivity.
  - intros room index u H Hu Hne. simpl. eapply usersAfterLeave_one_host; eauto.
  - intros room a H. exact H.
  - intros room h a H _. exact H.
  - intros room r a H _. exact H.
Qed.

(** C5.  In every state the server reaches, whatever requests arrived
    (create, join, leave, kick, disconnect among them), every room of the
    table has a non-empty member list with exactly one host; and every
    request keeps it so, from any state in which it holds.  When
    [handleLeave] removes a member of a room with one host, a room left
    without members is deleted from the table, history and redo stack with
    it; otherwise the room stays with the same history and redo stack, its
    members are the remaining ones in join order, and if the member that
    left was the host, the first of them is the host now and nobody else. *)
Theorem one_host_per_room :
  (forall reqs roomId room, rooms (run reqs init) !! roomId = Some room ->
     users room <> [] /\ hostCount (users room) = 1) /\
  (forall s socketId req,
     (forall roomId room, rooms s !! roomId = Some room -> hostCount (users room) = 1) ->
     forall roomId room, rooms (fst (handle socketId req s)) !! roomId = Some room ->
       users room <> [] /\ hostCount (users room) = 1) /\
  (forall (rs : gmap string Room) roomId socketId room index u,
     rs !! roomId = Some room -> hostCount (users room) = 1 ->
     findIndex (hasId socketId) (users room) = Some index ->
     users room !! index = Some u ->
     let rs' := fst (handleLeave roomId socketId rs) in
     match delete index (users room) with
     | [] => rs' !! roomId = None
     | b :: rest =>
       hostCount (b :: rest) = (if User.isHost u then 0 else 1) /\
       rs' !! roomId =
         Some (mkRoom ((if User.isHost u then User.setHost true b else b) :: rest)
                 (history room) (redoStack room))
     end).
Proof.
  assert (Hne : forall us, hostCount us = 1 -> us <> []).
  { intros [|? ?] H; discriminate. }
  split; [|split].
  - intros reqs roomId room Hroom.
    pose proof (reachable_one_host reqs roomId room Hroom) as H. simpl in H. auto.
  - intros s socketId req Hinv roomId room Hroom.
    pose proof (handle_one_host socketId req s Hinv roomId room Hroom) as H.
    simpl in H. auto.
  - intros rs roomId socketId room index u Hroom Hinv Hi Hu rs'.
    pose proof (hostCount_delete _ _ _ Hu) as Hd.
    subst rs'. rewrite handleLeave_rooms, Hroom, Hi.
    rewrite (usersAfterLeave_cases _ _ _ Hu).
    destruct (delete index (users room)) as [|b rest] eqn:Hdel.
    + apply lookup_delete_eq.
    + destruct (User.isHost u); (split; [lia|apply lookup_insert_eq]).
Qed.

(** C6.  A kick by a requester that has no host entry in the room (no
    member entry at all, or only entries without host authority) changes
    nothing in the server's state and has no effect on the transport: no
    message to anyone, no socket moved. *)
Theorem kick_by_non_host_is_ignored socketId roomId userId (s : State) :
  (forall room u, rooms s !! roomId = Some room -> u ∈ users room ->
     User.id u = socketId -> User.isHost u = false) ->
  on_kick_user socketId roomId userId s = (s, []).
Proof.
  intros Hno. unfold on_kick_user.
  destruct (rooms s !! roomId) as [room|] eqn:Hroom; [|reflexivity].
  destruct (find (hasId socketId) (users room)) as [requester|] eqn:Hf; [|reflexivity].
  destruct (find_Some _ _ _ Hf) as [Hin Hid].
  unfold hasId in Hid. apply String.eqb_eq in Hid.
  rewrite (Hno room requester eq_refl Hin Hid). reflexivity.
Qed.

End HostClaims.

(** ** The replay engine *)

(** *** Reading and writing the byte array *)

Section Bytes.
Import Canvas.
Local Open Scope Z_scope.

Lemma wr_length d i v : length (wr d i v) = length d.
Proof. unfold wr. destruct (i <? 0); [reflexivity|apply length_insert]. Qed.

Lemma rd_wr_other d i j v : i <> j -> rd (wr d i v) j = rd d j.
Proof.
  intros Hij. unfold rd, wr.
  destruct (Z.ltb_spec j 0); [reflexivity|].
  destruct (Z.ltb_spec i 0); [reflexivity|].
  apply list_lookup_insert_ne. lia.
Qed.

Lemma rd_wr_same d i v :
  0 <= i -> (Z.to_nat i < length d)%nat -> rd (wr d i v) i = Some (clamp8 v).
Proof.
  intros Hi Hlen. unfold rd, wr.
  destruct (Z.ltb_spec i 0); [lia|].
  apply list_lookup_insert_eq. exact Hlen.
Qed.

Lemma wr4_length d pos v : length (wr4 d pos v) = length d.
Proof. destruct v as [[[r g] b] a]. simpl. rewrite !wr_length. reflexivity. Qed.

Lemma rd_wr4_other d pos v j :
  ~ (pos <= j <= pos + 3) -> rd (wr4 d pos v) j = rd d j.
Proof.
  intros Hj. destruct v as [[[r g] b] a]. simpl.
  rewrite !rd_wr_other by lia. reflexivity.
Qed.

Lemma rd4_wr4_other d pos v pos' :
  pos' + 3 < pos \/ pos + 3 < pos' -> rd4 (wr4 d pos v) pos' = rd4 d pos'.
Proof.
  intros H. unfold rd4. rewrite !rd_wr4_other by lia. reflexivity.
Qed.

Lemma rd4_wr4_same d pos r g b a :
  0 <= pos -> (Z.to_nat (pos + 3) < length d)%nat ->
  rd4 (wr4 d pos (r, g, b, a)) pos =
    (Some (clamp8 r), Some (clamp8 g), Some (clamp8 b), Some (clamp8 a)).
Proof.
  intros Hpos Hlen. unfold rd4, wr4.
  rewrite (rd_wr_same _ (pos + 3)) by (rewrite ?wr_length; lia).
  rewrite (rd_wr_other _ (pos + 3) (pos + 2)) by lia.
  rewrite (rd_wr_same _ (pos + 2)) by (rewrite ?wr_length; lia).
  rewrite (rd_wr_other _ (pos + 3) (pos + 1)) by lia.
  rewrite (rd_wr_other _ (pos + 2) (pos + 1)) by lia.
  rewrite (rd_wr_same _ (pos + 1)) by (rewrite ?wr_length; lia).
  rewrite (rd_wr_other _ (pos + 3) pos) by lia.
  rewrite (rd_wr_other _ (pos + 2) pos) by lia.
  rewrite (rd_wr_other _ (pos + 1) pos) by lia.
  rewrite (rd_wr_same _ pos) by lia.
  reflexivity.
Qed.

Lemma clamp8_byte v : 0 <= v <= 255 -> clamp8 v = v.
Proof. unfold clamp8. lia. Qed.

Lemma samePixel_true p q : samePixel p q = true <-> p = q.
Proof.
  destruct p as [[[r1 g1] b1] a1], q as [[[r2 g2] b2] a2]. unfold samePixel.
  rewrite !andb_true_iff, !bool_decide_eq_true. split.
  - intros [[[-> ->] ->] ->]. reflexivity.
  - intros [= -> -> -> ->]. auto.
Qed.

Lemma samePixel_false p q : samePixel p q = false <-> p <> q.
Proof.
  rewrite <- samePixel_true. destruct (samePixel p q); split; congruence.
Qed.

(** Inside the canvas, the byte offset determines the pixel. *)
Lemma inside_outside w h cx cy : outside w h cx cy = false <-> inside w h (cx, cy).
Proof.
  unfold outside, inside. simpl.
  rewrite !orb_false_iff, !Z.ltb_ge, Z.geb_leb, Z.geb_leb, !Z.leb_gt. lia.
Qed.

Lemma offset_inj w h p q :
  inside w h p -> inside w h q ->
  (exists j, channelOf w p j /\ channelOf w q j) -> p = q.
Proof.
  destruct p as [px py], q as [qx qy]. unfold inside, channelOf, offset. simpl.
  intros Hp Hq (j & Hj1 & Hj2).
  assert (py * w + px = qy * w + qx) as E by lia.
  assert (py = qy) by nia. subst. f_equal. lia.
Qed.

Lemma offset_range w h p :
  inside w h p ->
  0 <= offset w (fst p) (snd p) /\ offset w (fst p) (snd p) + 3 < 4 * (w * h).
Proof.
  destruct p as [px py]. unfold inside, offset. simpl. intros Hp. nia.
Qed.

(** Storing what is there already leaves the array as it is. *)
Lemma wr_id d i v : rd d i = Some (clamp8 v) -> wr d i v = d.
Proof.
  unfold rd, wr. destruct (i <? 0); [discriminate|]. apply list_insert_id.
Qed.

Lemma wr4_id d pos fillc : rd4 d pos = painted fillc -> wr4 d pos fillc = d.
Proof.
  destruct fillc as [[[r g] b] a]. unfold rd4, painted, wr4. intros [= Hr Hg Hb Ha].
  rewrite (wr_id d pos r Hr), (wr_id d (pos + 1) g Hg), (wr_id d (pos + 2) b Hb).
  apply wr_id. exact Ha.
Qed.

End Bytes.

(** *** The flood-fill loop *)

Section FillLoop.
Import Canvas.
Local Open Scope Z_scope.

Variables (w h : Z) (start : Pixel) (fillc : Z * Z * Z * Z).

(** One iteration. *)
Lemma fillLoop_step (fuel : nat) cx cy stack d :
  fillLoop (S fuel) w h start fillc ((cx, cy) :: stack) d =
    if outside w h cx cy then fillLoop fuel w h start fillc stack d
    else if samePixel (rd4 d (offset w cx cy)) start
    then fillLoop fuel w h start fillc
           ((cx, cy - 1) :: (cx, cy + 1) :: (cx - 1, cy) :: (cx + 1, cy) :: stack)
           (wr4 d (offset w cx cy) fillc)
    else fillLoop fuel w h start fillc stack d.
Proof. reflexivity. Qed.

Lemma fillLoop_more_fuel (fuel fuel' : nat) stack d d' :
  fillLoop fuel w h start fillc stack d = Some d' -> (fuel <= fuel')%nat ->
  fillLoop fuel' w h start fillc stack d = Some d'.
Proof.
  revert fuel' stack d. induction fuel as [|fuel IH]; intros fuel' stack d Hrun Hle.
  - destruct stack as [|[cx cy] stack]; [|discriminate].
    destruct fuel'; exact Hrun.
  - destruct stack as [|[cx cy] stack]; [destruct fuel'; exact Hrun|].
    destruct fuel' as [|fuel']; [lia|]. rewrite fillLoop_step in *.
    destruct (outside w h cx cy); [apply IH; [exact Hrun|lia]|].
    destruct (samePixel _ _); (apply IH; [exact Hrun|lia]).
Qed.

Lemma fillLoop_length (fuel : nat) stack d d' :
  fillLoop fuel w h start fillc stack d = Some d' -> length d' = length d.
Proof.
  revert stack d. induction fuel as [|fuel IH]; intros stack d Hrun.
  - destruct stack as [|[cx cy] stack]; [|discriminate]. injection Hrun as <-. reflexivity.
  - destruct stack as [|[cx cy] stack]; [injection Hrun as <-; reflexivity|].
    rewrite fillLoop_step in Hrun.
    destruct (outside w h cx cy); [eapply IH; eauto|].
    destruct (samePixel _ _); [|eapply IH; eauto].
    rewrite (IH _ _ Hrun). apply wr4_length.
Qed.

(** **** Only pixels linked to the seed are repainted *)

Section Touched.
Variables (d0 : list Z) (seed : Z * Z).
Hypothesis start_is_seed : start = rd4 d0 (offset w (fst seed) (snd seed)).

(** Every byte is as in [d0], or belongs to a pixel linked to the seed. *)
Let touchedOnly (d : list Z) : Prop :=
  forall j, rd d j = rd d0 j \/ exists q, connected w h d0 seed q /\ channelOf w q j.

(** Every pixel on the work stack is the seed or a neighbour of a pixel
    linked to the seed. *)
Let frontier (stack : list (Z * Z)) : Prop :=
  forall q, q ∈ stack -> q = seed \/ exists p, connected w h d0 seed p /\ neighbour p q.

Lemma popped_connected d stack cx cy :
  touchedOnly d -> frontier ((cx, cy) :: stack) ->
  inside w h (cx, cy) -> rd4 d (offset w cx cy) = start ->
  connected w h d0 seed (cx, cy).
Proof.
  intros Ht Hf Hin Hsame.
  set (pos := offset w cx cy) in *.
  assert (Hch : forall j, pos <= j <= pos + 3 -> channelOf w (cx, cy) j).
  { intros j Hj. unfold channelOf. simpl. fold pos. lia. }
  assert (Hhit : forall j, pos <= j <= pos + 3 ->
            (exists q, connected w h d0 seed q /\ channelOf w q j) ->
            connected w h d0 seed (cx, cy)).
  { intros j Hj (q & Hq & Hqj).
    assert (Hqin : inside w h q) by (destruct Hq; assumption).
    rewrite (offset_inj w h (cx, cy) q Hin Hqin); [exact Hq|].
    exists j. split; [apply Hch; exact Hj|exact Hqj]. }
  destruct (Ht pos) as [E0|H0]; [|apply (Hhit pos); [lia|exact H0]].
  destruct (Ht (pos + 1)) as [E1|H1]; [|apply (Hhit (pos + 1)); [lia|exact H1]].
  destruct (Ht (pos + 2)) as [E2|H2]; [|apply (Hhit (pos + 2)); [lia|exact H2]].
  destruct (Ht (pos + 3)) as [E3|H3]; [|apply (Hhit (pos + 3)); [lia|exact H3]].
  assert (Horig : rd4 d0 pos = rd4 d0 (offset w (fst seed) (snd seed))).
  { rewrite <- start_is_seed, <- Hsame. unfold rd4. rewrite E0, E1, E2, E3. reflexivity. }
  assert (Htop : (cx, cy) ∈ (cx, cy) :: stack) by (apply elem_of_cons; left; reflexivity).
  destruct (Hf (cx, cy) Htop) as [Hseed|(p & Hp & Hnb)].
  - rewrite Hseed. apply connected_seed. rewrite <- Hseed. exact Hin.
  - eapply connected_step; eauto.
Qed.

Lemma fillLoop_touchedOnly (fuel : nat) stack d d' :
  fillLoop fuel w h start fillc stack d = Some d' ->
  touchedOnly d -> frontier stack -> touchedOnly d'.
Proof.
  revert stack d. induction fuel as [|fuel IH]; intros stack d Hrun Ht Hf.
  - destruct stack as [|[cx cy] stack]; [|discriminate]. injection Hrun as <-. exact Ht.
  - destruct stack as [|[cx cy] stack]; [injection Hrun as <-; exact Ht|].
    assert (Hrest : frontier stack).
    { intros q Hq. apply Hf, elem_of_cons. right. exact Hq. }
    rewrite fillLoop_step in Hrun.
    destruct (outside w h cx cy) eqn:Hout; [eapply IH; eauto|].
    apply inside_outside in Hout.
    destruct (samePixel _ _) eqn:Hsame; [|eapply IH; eauto].
    apply samePixel_true in Hsame.
    pose proof (popped_connected d stack cx cy Ht Hf Hout Hsame) as Hconn.
    eapply IH; [exact Hrun| |].
    + intros j.
      destruct (decide (offset w cx cy <= j <= offset w cx cy + 3)) as [Hj|Hj].
      * right. exists (cx, cy). split; [exact Hconn|exact Hj].
      * rewrite rd_wr4_other by exact Hj. apply Ht.
    + intros q Hq.
      repeat (apply elem_of_cons in Hq as [->|Hq]);
        [right; exists (cx, cy); split; [exact Hconn|unfold neighbour; simpl; auto] ..|].
      apply Hrest. exact Hq.
Qed.

End Touched.

(** **** The loop ends *)

Lemma filter_length_le {A} (f g : A -> bool) (l : list A) :
  (forall k, In k l -> g k = true -> f k = true) ->
  (length (List.filter g l) <= length (List.filter f l))%nat.
Proof.
  induction l as [|a l IH]; intros Hgf; [reflexivity|]. simpl.
  assert (IH' := IH (fun k Hk => Hgf k (or_intror Hk))).
  destruct (g a) eqn:Hg.
  - rewrite (Hgf a (or_introl eq_refl) Hg). simpl. lia.
  - destruct (f a); simpl; lia.
Qed.

Lemma filter_length_lt {A} (f g : A -> bool) (l : list A) (k0 : A) :
  In k0 l -> f k0 = true -> g k0 = false ->
  (forall k, In k l -> g k = true -> f k = true) ->
  (length (List.filter g l) < length (List.filter f l))%nat.
Proof.
  induction l as [|a l IH]; intros Hin Hf Hg Hgf; [destruct Hin|]. simpl.
  assert (Hle := filter_length_le f g l (fun k Hk => Hgf k (or_intror Hk))).
  destruct Hin as [->|Hin].
  - rewrite Hf, Hg. simpl. lia.
  - assert (IH' := IH Hin Hf Hg (fun k Hk => Hgf k (or_intror Hk))).
    destruct (g a) eqn:Hga.
    + rewrite (Hgf a (or_introl eq_refl) Hga). simpl. lia.
    + destruct (f a); simpl; lia.
Qed.

Lemma matching_bound d : (length (matching w h start d) <= Z.to_nat (w * h))%nat.
Proof.
  unfold matching. etransitivity; [apply List.filter_length_le|].
  rewrite length_seq. reflexivity.
Qed.

Lemma rd4_painted d cx cy :
  length d = Z.to_nat (4 * (w * h)) -> inside w h (cx, cy) ->
  rd4 (wr4 d (offset w cx cy) fillc) (offset w cx cy) = painted fillc.
Proof.
  intros Hlen Hin. pose proof (offset_range w h (cx, cy) Hin) as Hr. simpl in Hr.
  unfold painted. destruct fillc as [[[r g] b] a].
  apply rd4_wr4_same; lia.
Qed.

Lemma matching_paint d cx cy :
  length d = Z.to_nat (4 * (w * h)) -> inside w h (cx, cy) ->
  rd4 d (offset w cx cy) = start -> painted fillc <> start ->
  (length (matching w h start (wr4 d (offset w cx cy) fillc))
   < length (matching w h start d))%nat.
Proof.
  intros Hlen Hin Hsame Hne.
  pose proof (offset_range w h (cx, cy) Hin) as Hr. simpl in Hr.
  assert (Hpos : offset w cx cy = 4 * Z.of_nat (Z.to_nat (cy * w + cx))).
  { unfold offset in *. lia. }
  unfold matching. apply filter_length_lt with (k0 := Z.to_nat (cy * w + cx)).
  - apply in_seq. unfold offset in Hr. lia.
  - rewrite <- Hpos. apply samePixel_true. exact Hsame.
  - rewrite <- Hpos. apply samePixel_false. rewrite rd4_painted by assumption. exact Hne.
  - intros k _ Hk.
    destruct (decide (k = Z.to_nat (cy * w + cx))) as [->|Hkne].
    + rewrite <- Hpos in Hk. apply samePixel_true in Hk.
      rewrite rd4_painted in Hk by assumption. contradiction.
    + rewrite rd4_wr4_other in Hk; [exact Hk|]. unfold offset in *. lia.
Qed.

Lemma fillLoop_terminates (fuel : nat) stack d :
  length d = Z.to_nat (4 * (w * h)) -> painted fillc <> start ->
  (4 * length (matching w h start d) + length stack <= fuel)%nat ->
  exists d', fillLoop fuel w h start fillc stack d = Some d'.
Proof.
  intros Hlen Hne. revert stack d Hlen.
  induction fuel as [|fuel IH]; intros stack d Hlen Hfuel.
  - destruct stack; [eexists; reflexivity|simpl in Hfuel; lia].
  - destruct stack as [|[cx cy] stack]; [eexists; reflexivity|].
    simpl in Hfuel. rewrite fillLoop_step.
    destruct (outside w h cx cy) eqn:Hout; [apply IH; [exact Hlen|lia]|].
    apply inside_outside in Hout.
    destruct (samePixel _ _) eqn:Hsame; [|apply IH; [exact Hlen|lia]].
    apply samePixel_true in Hsame.
    pose proof (matching_paint d cx cy Hlen Hout Hsame Hne) as Hlt.
    apply IH; [rewrite wr4_length; exact Hlen|]. simpl. lia.
Qed.

(** **** A painted pixel stays painted *)


(** **** A fill colour that is stored as the colour of the seed

    When the colour that [wr4] stores is the colour [start] again, painting
    a pixel changes nothing; a set of pixels of that colour inside the
    canvas, each with a neighbour in the set, is then never used up: one of
    them is on the stack at every iteration, and the loop does not end. *)
Section Spinning.
Variables (d : list Z) (live : Z * Z -> Prop).
Hypothesis stored_is_start : painted fillc = start.
Hypothesis live_inside : forall p, live p -> inside w h p.
Hypothesis live_start : forall p, live p -> rd4 d (offset w (fst p) (snd p)) = start.
Hypothesis live_neighbour : forall p, live p -> exists p', neighbour p p' /\ live p'.

Lemma fillLoop_spins (fuel : nat) stack :
  (exists p, p ∈ stack /\ live p) -> fillLoop fuel w h start fillc stack d = None.
Proof.
  revert stack. induction fuel as [|fuel IH]; intros stack (p & Hin & Hlive).
  - destruct stack as [|[cx cy] stack]; [|reflexivity].
    apply elem_of_nil in Hin. destruct Hin.
  - destruct stack as [|[cx cy] stack]; [apply elem_of_nil in Hin; destruct Hin|].
    rewrite fillLoop_step.
    destruct (outside w h cx cy) eqn:Hout.
    + apply IH. exists p. split; [|exact Hlive].
      apply elem_of_cons in Hin as [->|Hin]; [|exact Hin].
      apply live_inside, inside_outside in Hlive. congruence.
    + destruct (samePixel (rd4 d (offset w cx cy)) start) eqn:Hsame.
      * apply samePixel_true in Hsame.
        rewrite wr4_id by (rewrite stored_is_start; exact Hsame).
        apply IH. apply elem_of_cons in Hin as [->|Hin].
        -- destruct (live_neighbour _ Hlive) as (p' & Hn & Hlive').
           exists p'. split; [|exact Hlive'].
           unfold neighbour in Hn. simpl in Hn.
           destruct Hn as [->|[->|[->| ->]]]; rewrite !elem_of_cons; auto 10.
        -- exists p. split; [|exact Hlive]. rewrite !elem_of_cons. auto 10.
      * apply IH. exists p. split; [|exact Hlive].
        apply elem_of_cons in Hin as [->|Hin]; [|exact Hin].
        apply samePixel_false in Hsame. destruct Hsame. apply (live_start _ Hlive).
Qed.

End Spinning.

End FillLoop.

(** *** [floodFill] *)

Section FloodFill.
Import Canvas.
Context {B : Browser}.
Local Open Scope Z_scope.

Lemma connected_inside w h d seed q : connected w h d seed q -> inside w h q.
Proof. intros H. destruct H; assumption. Qed.

Lemma connected_color w h d seed q :
  connected w h d seed q ->
  rd4 d (offset w (fst q) (snd q)) = rd4 d (offset w (fst seed) (snd seed)).
Proof. intros H. destruct H; [reflexivity|assumption]. Qed.

(** With byte channels, what is stored is the fill colour itself. *)
Lemma painted_numbers r g b :
  0 <= r <= 255 /\ 0 <= g <= 255 /\ 0 <= b <= 255 ->
  painted (r, g, b, 255) = numbers (r, g, b, 255).
Proof.
  intros (Hr & Hg & Hb). unfold painted, numbers.
  rewrite !clamp8_byte by lia. reflexivity.
Qed.

Lemma floodFill_frame (fuel : nat) x y fillColor c c' :
  floodFill fuel x y fillColor c = Some c' ->
  width c' = width c /\ height c' = height c /\ pen c' = pen c /\ path c' = path c /\
  length (data c') = length (data c).
Proof.
  unfold floodFill. destruct (computedColor fillColor) as [[[r g] b]|].
  - destruct (samePixel _ _); [intros [= <-]; auto|].
    destruct (fillLoop _ _ _ _ _ _ _) as [d|] eqn:Hrun; [|discriminate].
    intros [= <-]. simpl. repeat split. eapply fillLoop_length; eauto.
  - intros [= <-]. auto.
Qed.

(** With enough fuel [floodFill] returns, and what it returns does not
    depend on the fuel. *)
Lemma floodFill_returns (c : Ctx) (x y : Q) (fillColor : string) :
  byteChannels B -> wellSized c ->
  exists c', forall fuel : nat, (enough c <= fuel)%nat ->
    floodFill fuel x y fillColor c = Some c'.
Proof.
  intros Hbytes Hsize. unfold floodFill.
  destruct (computedColor fillColor) as [[[r g] b]|] eqn:Hcol;
    [|exists c; reflexivity].
  destruct (samePixel _ _) eqn:Hsame; [exists c; reflexivity|].
  set (seed := (Qfloor x, Qfloor y)) in *.
  set (start := rd4 (data c) (offset (width c) (fst seed) (snd seed))) in *.
  assert (Hne : painted (r, g, b, 255) <> start).
  { rewrite painted_numbers by (eapply Hbytes; eauto).
    apply samePixel_false. exact Hsame. }
  destruct (fillLoop_terminates (width c) (height c) start (r, g, b, 255)
              (enough c) [seed] (data c) Hsize Hne) as [d' Hd'].
  { pose proof (matching_bound (width c) (height c) start (data c)).
    unfold enough. simpl. lia. }
  exists (withData d' c). intros fuel Hfuel.
  rewrite (fillLoop_more_fuel _ _ _ _ _ _ _ _ _ Hd' Hfuel). reflexivity.
Qed.

(** Termination for fill colours whose channels are bytes.  On a bitmap
    with four bytes for each pixel the work-stack loop of [floodFill] then
    ends: every iteration either paints a pixel that had the colour of the
    seed, which then no longer has it, or takes a pixel off the stack for
    good, so that four times the number of pixels of the seed's colour plus
    the height of the stack goes down with every iteration.  The stack is
    empty after at most [4 * width * height + 1] iterations: [floodFill]
    returns with any fuel from [enough c] on, and returns the same context
    whatever the fuel. *)
Theorem floodFill_terminates (c : Ctx) (x y : Q) (fillColor : string) :
  byteChannels B -> wellSized c ->
  enough c = S (Z.to_nat (4 * (width c * height c))) /\
  exists c', forall fuel : nat, (enough c <= fuel)%nat ->
    floodFill fuel x y fillColor c = Some c'.
Proof.
  intros Hbytes Hsize. split; [reflexivity|].
  apply floodFill_returns; assumption.
Qed.

Lemma neighbour_sym (p q : Z * Z) : neighbour p q -> neighbour q p.
Proof.
  destruct p as [px py], q as [qx qy]. unfold neighbour. simpl.
  intros [E|[E|[E|E]]]; injection E as -> ->.
  - right. left. f_equal; lia.
  - left. f_equal; lia.
  - right. right. right. f_equal; lia.
  - right. right. left. f_equal; lia.
Qed.

(** C10.  The loop of [floodFill] does not end for every fill colour.  The
    same-colour check compares the channels computed for the fill colour
    with the bytes of the seed pixel, while the bitmap stores a channel
    clamped to a byte.  So when a channel of the fill colour is above 255
    and the seed pixel shows the colour as the bitmap stores it, the check
    does not return, painting a pixel leaves it with the colour of the
    seed, and with one neighbour of the seed of that colour inside the
    canvas the two pixels push each other on the stack for ever:
    [floodFill] returns with no amount of fuel. *)
Theorem floodFill_loops_on_clamped_colour
  (c : Ctx) (x y : Q) (fillColor : string) (r g b : Z) (q : Z * Z) :
  computedColor fillColor = Some (r, g, b) ->
  let seed := (Qfloor x, Qfloor y) in
  let start := rd4 (data c) (offset (width c) (fst seed) (snd seed)) in
  inside (width c) (height c) seed ->
  start = painted (r, g, b, 255) ->
  start <> numbers (r, g, b, 255) ->
  neighbour seed q -> inside (width c) (height c) q ->
  rd4 (data c) (offset (width c) (fst q) (snd q)) = start ->
  forall fuel : nat, floodFill fuel x y fillColor c = None.
Proof.
  intros Hcol seed start Hseed Hstored Hcheck Hn Hq Hqcol fuel.
  unfold floodFill. rewrite Hcol. fold seed. fold start.
  replace (samePixel (numbers (r, g, b, 255)) start) with false
    by (symmetry; apply samePixel_false; congruence).
  rewrite (fillLoop_spins (width c) (height c) start (r, g, b, 255) (data c)
             (fun p => p = seed \/ p = q)); [reflexivity| | | | |].
  - symmetry. exact Hstored.
  - intros p [-> | ->]; assumption.
  - intros p [-> | ->]; [reflexivity|exact Hqcol].
  - intros p [-> | ->].
    + exists q. split; [exact Hn|right; reflexivity].
    + exists seed. split; [apply neighbour_sym; exact Hn|left; reflexivity].
  - exists seed. split; [apply list_elem_of_singleton; reflexivity|left; reflexivity].
Qed.

(** C7.  [floodFill] changes only bytes of pixels that a chain of
    4-neighbours links to the seed, each pixel of the chain inside the
    canvas and of exactly the colour the seed pixel had, all four channels;
    and when the seed pixel already has the fill colour (with full alpha),
    it returns the context as it was, without running the loop. *)
Theorem floodFill_repaints_seed_region (x y : Q) (fillColor : string) (c : Ctx) :
  let seed := (Qfloor x, Qfloor y) in
  let W := width c in
  (forall (fuel : nat) c', floodFill fuel x y fillColor c = Some c' ->
     length (data c') = length (data c) /\
     forall j, rd (data c') j <> rd (data c) j ->
       exists q, channelOf W q j /\ inside W (height c) q /\
         rd4 (data c) (offset W (fst q) (snd q))
           = rd4 (data c) (offset W (fst seed) (snd seed)) /\
         connected W (height c) (data c) seed q) /\
  (forall r g b, computedColor fillColor = Some (r, g, b) ->
     rd4 (data c) (offset W (fst seed) (snd seed)) = (Some r, Some g, Some b, Some 255) ->
     forall fuel : nat, floodFill fuel x y fillColor c = Some c).
Proof.
  intros seed W. split.
  - intros fuel c' Hrun.
    split; [apply (floodFill_frame _ _ _ _ _ _ Hrun)|].
    unfold floodFill in Hrun.
    destruct (computedColor fillColor) as [[[r g] b]|];
      [|injection Hrun as <-; congruence].
    destruct (samePixel _ _); [injection Hrun as <-; congruence|].
    destruct (fillLoop _ _ _ _ _ _ _) as [d|] eqn:Hloop; [|discriminate].
    injection Hrun as <-. simpl. intros j Hj.
    destruct (fillLoop_touchedOnly (width c) (height c) _ _ (data c) seed eq_refl
                _ _ _ _ Hloop) with (j := j) as [E|(q & Hq & Hqj)].
    + intros i. left. reflexivity.
    + intros q Hq. apply list_elem_of_singleton in Hq. left. exact Hq.
    + contradiction.
    + exists q. split; [exact Hqj|].
      split; [apply (connected_inside _ _ _ _ _ Hq)|].
      split; [apply (connected_color _ _ _ _ _ Hq)|exact Hq].
  - intros r g b Hcol Hseed fuel. unfold floodFill. rewrite Hcol.
    fold seed. fold W. rewrite Hseed.
    replace (samePixel _ _) with true; [reflexivity|].
    symmetry. apply samePixel_true. reflexivity.
Qed.


End FloodFill.

(** *** Strokes, shapes and the replay *)

Section Replay.
Import Canvas.
Context {B : Browser}.

Lemma lineToAll_frame ps c :
  width (lineToAll ps c) = width c /\ height (lineToAll ps c) = height c /\
  data (lineToAll ps c) = data c /\ pen (lineToAll ps c) = pen c.
Proof.
  revert c. induction ps as [|p ps IH]; intros c; [auto|].
  unfold lineToAll in *. simpl. destruct (IH (addPath (lineTo (Point.x p) (Point.y p)) c))
    as (-> & -> & -> & ->). auto.
Qed.

Lemma drawStroke_frame d c :
  width (drawStroke d c) = width c /\ height (drawStroke d c) = height c.
Proof.
  unfold drawStroke. destruct (DrawStroke.points d) as [|p0 [|p1 rest]]; auto.
  unfold stroke_. simpl.
  match goal with |- context [lineToAll ?ps ?c0] =>
    destruct (lineToAll_frame ps c0) as (-> & -> & _) end.
  unfold set_lineWidth, set_strokeStyle.
  destruct (parsesAsColor _); destruct (Qle_bool _ 0); auto.
Qed.

Lemma drawStroke_length d c :
  keepsSize B -> length (data (drawStroke d c)) = length (data c).
Proof.
  intros Hk. unfold drawStroke. destruct (DrawStroke.points d) as [|p0 [|p1 rest]]; auto.
  unfold stroke_. simpl. rewrite Hk.
  match goal with |- context [lineToAll ?ps ?c0] =>
    destruct (lineToAll_frame ps c0) as (_ & _ & -> & _) end.
  unfold set_lineWidth, set_strokeStyle.
  destruct (parsesAsColor _); destruct (Qle_bool _ 0); auto.
Qed.

Lemma drawShape_frame d c :
  width (drawShape d c) = width c /\ height (drawShape d c) = height c.
Proof.
  unfold drawShape, set_lineWidth, set_strokeStyle.
  destruct (parsesAsColor _); destruct (Qle_bool _ 0); destruct (DrawShape.type d); auto.
Qed.

Lemma drawShape_length d c :
  keepsSize B -> length (data (drawShape d c)) = length (data c).
Proof.
  intros Hk. unfold drawShape, set_lineWidth, set_strokeStyle.
  destruct (parsesAsColor _); destruct (Qle_bool _ 0); destruct (DrawShape.type d);
    simpl; apply Hk.
Qed.



Lemma replay_frame (fuel : nat) a c c' :
  replay fuel a c = Some c' -> width c' = width c /\ height c' = height c.
Proof.
  unfold replay. destruct (CanvasAction.payload a) as [[d|]|[d|]|[d|]|].
  all: try (intros [= <-]; auto).
  - apply drawStroke_frame.
  - apply drawShape_frame.
  - intros H. destruct (floodFill_frame _ _ _ _ _ _ H) as (? & ? & _). auto.
Qed.

Lemma replay_wellSized (fuel : nat) a c c' :
  keepsSize B -> wellSized c -> replay fuel a c = Some c' -> wellSized c'.
Proof.
  intros Hk Hs Hrun. unfold wellSized in *.
  destruct (replay_frame _ _ _ _ Hrun) as [-> ->]. rewrite <- Hs.
  unfold replay in Hrun. destruct (CanvasAction.payload a) as [[d|]|[d|]|[d|]|].
  all: try (injection Hrun as <-; auto).
  - apply drawStroke_length. exact Hk.
  - apply drawShape_length. exact Hk.
  - apply (floodFill_frame _ _ _ _ _ _ Hrun).
  - simpl. unfold blank. rewrite length_replicate. symmetry. exact Hs.
Qed.

Lemma replay_total (fuel : nat) a c :
  byteChannels B -> wellSized c -> (enough c <= fuel)%nat ->
  exists c', replay fuel a c = Some c'.
Proof.
  intros Hb Hs Hfuel. unfold replay.
  destruct (CanvasAction.payload a) as [[d|]|[d|]|[d|]|]; try (eexists; reflexivity).
  destruct (floodFill_returns c (Point.x (FillAction.point d))
              (Point.y (FillAction.point d)) (FillAction.color d) Hb Hs) as (c' & Hc').
  exists c'. apply Hc'. exact Hfuel.
Qed.

Lemma replayAll_app (fuel : nat) l1 l2 c :
  replayAll fuel (l1 ++ l2) c =
    match replayAll fuel l1 c with
    | Some c1 => replayAll fuel l2 c1
    | None => None
    end.
Proof.
  revert c. induction l1 as [|a l1 IH]; intros c; [reflexivity|].
  simpl. destruct (replay fuel a c); [apply IH|reflexivity].
Qed.

Lemma replayAll_total (fuel : nat) l c :
  byteChannels B -> keepsSize B -> wellSized c -> (enough c <= fuel)%nat ->
  exists c', replayAll fuel l c = Some c' /\ wellSized c' /\
    width c' = width c /\ height c' = height c.
Proof.
  intros Hb Hk. revert c. induction l as [|a l IH]; intros c Hs Hfuel.
  - exists c. auto.
  - destruct (replay_total fuel a c Hb Hs Hfuel) as [c1 Hc1].
    destruct (replay_frame _ _ _ _ Hc1) as [Hw Hh].
    destruct (IH c1) as (c' & Hc' & Hs' & Hw' & Hh').
    + eapply replay_wellSized; eauto.
    + unfold enough in *. rewrite Hw, Hh. exact Hfuel.
    + exists c'. simpl. rewrite Hc1. repeat split; try assumption; congruence.
Qed.

Lemma clearRect_wellSized c : wellSized (clearRect c).
Proof. unfold wellSized, clearRect, blank. simpl. apply length_replicate. Qed.


(** The replay is total: with a browser whose colours have byte channels
    and whose strokes keep the size of the bitmap, [reconstruct] returns a
    bitmap for every history and every context. *)
Lemma reconstruct_total actions c :
  byteChannels B -> keepsSize B -> exists d, reconstruct actions c = Some d.
Proof.
  intros Hb Hk. unfold reconstruct, redrawCanvas.
  destruct (replayAll_total (enough c) actions (clearRect c) Hb Hk
              (clearRect_wellSized c) (Nat.le_refl _)) as (c' & -> & _).
  eexists. reflexivity.
Qed.


(** **** Clear *)

(** A clear in the middle of a history: what follows it is replayed on a
    blank bitmap, in the context that the actions before it left. *)
Lemma redraw_after_clear (fuel : nat) h1 h2 (clearA : CanvasAction.t) c :
  CanvasAction.payload clearA = Clear ->
  redrawCanvas fuel (h1 ++ [clearA] ++ h2) c =
    match replayAll fuel h1 (clearRect c) with
    | Some c1 => redrawCanvas fuel h2 c1
    | None => None
    end.
Proof.
  intros Hclear. unfold redrawCanvas. rewrite replayAll_app.
  destruct (replayAll fuel h1 (clearRect c)) as [c1|]; [|reflexivity].
  simpl. unfold replay at 1. rewrite Hclear. reflexivity.
Qed.

End Replay.

(** *** Shapes *)

Section Shapes.
Import Canvas.
Context {B : Browser}.
Local Open Scope Q_scope.

(** [drawShape] strokes [shapeOutline] with the pen it has just set. *)
Lemma drawShape_data d c :
  data (drawShape d c) =
    paintStroke (pen (drawShape d c)) (shapeOutline d) (width c) (height c) (data c).
Proof.
  unfold drawShape, shapeOutline, set_lineWidth, set_strokeStyle.
  destruct (parsesAsColor _); destruct (Qle_bool _ 0); destruct (DrawShape.type d);
    reflexivity.
Qed.

(** The pen of [drawShape]: colour and width of the shape when the setters
    accept them, cap and join as they were. *)
Lemma drawShape_pen d c :
  parsesAsColor (DrawShape.color d) = true -> 0 < DrawShape.width d ->
  pen (drawShape d c) =
    mkPen (DrawShape.color d) (DrawShape.width d) (lineCap (pen c)) (lineJoin (pen c)).
Proof.
  intros Hc Hw.
  assert (Hw' : Qle_bool (DrawShape.width d) 0 = false).
  { destruct (Qle_bool (DrawShape.width d) 0) eqn:E; [|reflexivity].
    apply Qle_bool_iff in E. exfalso. apply (Qlt_not_le _ _ Hw E). }
  unfold drawShape, set_lineWidth, set_strokeStyle. rewrite Hc. simpl. rewrite Hw'.
  destruct (DrawShape.type d); reflexivity.
Qed.

(** After a stroke of two points or more the pen has round caps and round
    joins. *)
Lemma drawStroke_pen s c :
  (2 <= length (DrawStroke.points s))%nat ->
  lineCap (pen (drawStroke s c)) = CapRound /\ lineJoin (pen (drawStroke s c)) = JoinRound.
Proof.
  intros Hlen. unfold drawStroke.
  destruct (DrawStroke.points s) as [|p0 [|p1 rest]]; simpl in Hlen; try lia.
  match goal with |- context [stroke_ ?c0] =>
    change (pen (stroke_ c0)) with (pen c0) end.
  match goal with |- context [lineToAll ?ps ?c0] =>
    destruct (lineToAll_frame ps c0) as (_ & _ & _ & Hpen) end.
  rewrite Hpen.
  unfold set_lineWidth, set_strokeStyle.
  destruct (parsesAsColor _); destruct (Qle_bool _ 0); auto.
Qed.

(** The current path that [drawShape] leaves. *)
Lemma drawShape_path d c :
  path (drawShape d c) =
    let sx := Point.x (DrawShape.startPoint d) in
    let sy := Point.y (DrawShape.startPoint d) in
    let w := Point.x (DrawShape.endPoint d) - sx in
    let h := Point.y (DrawShape.endPoint d) - sy in
    match DrawShape.type d with
    | rect => []
    | circle => [arc sx sy (w * w + h * h)]
    | triangle =>
      [moveTo (sx + w / 2) sy; lineTo sx (sy + h); lineTo (sx + w) (sy + h); closePath]
    end.
Proof.
  unfold drawShape, set_lineWidth, set_strokeStyle.
  destruct (parsesAsColor _); destruct (Qle_bool _ 0); destruct (DrawShape.type d);
    reflexivity.
Qed.

Lemma half_way (a b : Q) : a + (b - a) / 2 == (Qmin a b + Qmax a b) / 2.
Proof.
  destruct (Qlt_le_dec b a) as [Hlt|Hle].
  - rewrite (Q.min_r a b), (Q.max_l a b) by (apply Qlt_le_weak; exact Hlt). field.
  - rewrite (Q.min_l a b), (Q.max_r a b) by exact Hle. field.
Qed.

Lemma box_sides (a b : Q) :
  (a == Qmin a b /\ a + (b - a) == Qmax a b) \/ (a == Qmax a b /\ a + (b - a) == Qmin a b).
Proof.
  destruct (Qlt_le_dec b a) as [Hlt|Hle].
  - right. rewrite (Q.min_r a b), (Q.max_l a b) by (apply Qlt_le_weak; exact Hlt).
    split; [reflexivity|ring].
  - left. rewrite (Q.min_l a b), (Q.max_r a b) by exact Hle.
    split; [reflexivity|ring].
Qed.

(** C9, as the code has it.  [drawShape] strokes one outline with the pen
    it has set.  For a rectangle the outline is the box between the start
    and the end corner; for a circle it is the full arc around the start
    point whose radius is the distance from start to end; for a triangle
    the apex is at the horizontal midpoint of the box on the edge through
    the start point and the base spans the edge through the end point, so
    that the apex is on the top edge and the base on the bottom edge when
    the end point is not above the start point, to the left or to the
    right of it.  The fill flag is never read. *)
Theorem drawShape_outlines (d : DrawShape.t) (c : Ctx) :
  data (drawShape d c) =
    paintStroke (pen (drawShape d c)) (shapeOutline d) (width c) (height c) (data c) /\
  match DrawShape.type d with
  | rect => specRect d (shapeOutline d)
  | circle =>
    shapeOutline d = pathOutline (path (drawShape d c)) /\
    specCircle d (path (drawShape d c))
  | triangle =>
    shapeOutline d = pathOutline (path (drawShape d c)) /\
    drawnTriangle d (path (drawShape d c)) /\
    (Point.y (DrawShape.startPoint d) <= Point.y (DrawShape.endPoint d) ->
     specTriangle d (path (drawShape d c)))
  end /\
  forall b, drawShape (setFilled b d) c = drawShape d c.
Proof.
  split; [apply drawShape_data|]. split; [|reflexivity].
  rewrite drawShape_path. unfold shapeOutline.
  destruct (DrawShape.type d).
  - eexists _, _, _, _. split; [reflexivity|].
    repeat split; try reflexivity; ring.
  - split; [reflexivity|].
    eexists _, _, _. split; [reflexivity|].
    repeat split; reflexivity.
  - split; [reflexivity|].
    unfold drawnTriangle, specTriangle, boxLeft, boxRight, boxTop, boxBottom.
    split.
    + eexists _, _, _, _, _, _. split; [reflexivity|].
      split; [apply half_way|]. split; [reflexivity|].
      split; [ring|]. split; [ring|]. apply box_sides.
    + intros Hdown.
      eexists _, _, _, _, _, _. split; [reflexivity|].
      split; [apply half_way|].
      rewrite (Q.min_l _ _ Hdown), (Q.max_r _ _ Hdown).
      split; [reflexivity|]. split; [ring|]. split; [ring|]. apply box_sides.
Qed.

End Shapes.

(** *** Clear and what comes after it *)

Section ClearAndAfter.
Import Canvas.
Context {B : Browser}.
Local Open Scope Q_scope.

(** C8, at the input where the code departs from it.  [drawStroke] sets
    round caps and round joins on the context, [clearRect] resets the
    bitmap only, and [drawShape] sets colour and width but neither cap nor
    join.  So a shape replayed after a stroke of two or more points and a
    clear is stroked on the blank bitmap with round joins, while the same
    shape replayed alone is stroked on the blank bitmap with the joins the
    context had: the two reconstructions differ wherever the rasteriser
    draws the two join styles differently. *)
Theorem clear_keeps_line_style
  (s : DrawStroke.t) (d : DrawShape.t) (strokeA clearA shapeA : CanvasAction.t) (c : Ctx) :
  CanvasAction.payload strokeA = Stroke (Some s) ->
  CanvasAction.payload clearA = Clear ->
  CanvasAction.payload shapeA = Shape (Some d) ->
  (2 <= length (DrawStroke.points s))%nat ->
  parsesAsColor (DrawShape.color d) = true -> 0 < DrawShape.width d ->
  let W := width c in
  let H := height c in
  let alone := mkPen (DrawShape.color d) (DrawShape.width d) (lineCap (pen c)) (lineJoin (pen c)) in
  let after := mkPen (DrawShape.color d) (DrawShape.width d) CapRound JoinRound in
  reconstruct [shapeA] c = Some (paintStroke alone (shapeOutline d) W H (blank W H)) /\
  reconstruct ([strokeA] ++ [clearA] ++ [shapeA]) c
    = Some (paintStroke after (shapeOutline d) W H (blank W H)) /\
  (paintStroke after (shapeOutline d) W H (blank W H)
     <> paintStroke alone (shapeOutline d) W H (blank W H) ->
   reconstruct ([strokeA] ++ [clearA] ++ [shapeA]) c <> reconstruct [shapeA] c).
Proof.
  intros Hs Hc Hd Hlen Hcol Hwd W H alone after.
  assert (Halone : reconstruct [shapeA] c
                   = Some (paintStroke alone (shapeOutline d) W H (blank W H))).
  { unfold reconstruct, redrawCanvas. simpl. unfold replay. rewrite Hd. simpl.
    rewrite drawShape_data, (drawShape_pen d _ Hcol Hwd). reflexivity. }
  assert (Hafter : reconstruct ([strokeA] ++ [clearA] ++ [shapeA]) c
                   = Some (paintStroke after (shapeOutline d) W H (blank W H))).
  { unfold reconstruct, redrawCanvas. simpl. unfold replay. rewrite Hs, Hc, Hd. simpl.
    rewrite drawShape_data, (drawShape_pen d _ Hcol Hwd).
    destruct (drawStroke_pen s (clearRect c) Hlen) as [Hcap Hjoin].
    destruct (drawStroke_frame s (clearRect c)) as [Hw Hh].
    change (pen (clearRect ?x)) with (pen x).
    change (width (clearRect ?x)) with (width x).
    change (height (clearRect ?x)) with (height x).
    change (data (clearRect ?x)) with (blank (width x) (height x)).
    rewrite Hcap, Hjoin, Hw, Hh. reflexivity. }
  split; [exact Halone|]. split; [exact Hafter|].
  intros Hdiff. rewrite Halone, Hafter. intros [= E]. exact (Hdiff E).
Qed.

End ClearAndAfter.

(** ** The statements at sample data *)

Section Samples.
Import Canvas.
Local Open Scope string_scope.

Lemma sample_byteChannels : byteChannels Sample.browser.
Proof.
  intros s r g b. simpl. destruct (String.eqb s "red"); intros [= <- <- <-]; lia.
Qed.

Lemma sample_keepsSize : keepsSize Sample.browser.
Proof. intros p o w h [|z d]; reflexivity. Qed.


Lemma lobby_room : Server.rooms Sample.lobby !! "ROOM01" = Some Sample.lobbyRoom.
Proof. vm_compute. reflexivity. Qed.

(** *** The relay server *)

(** The end-to-end scenario: A draws a rectangle, B a circle, A undoes; the
    room holds the rectangle, the circle is on the redo stack, the room is
    sent the remaining history, and so is C when it joins. *)
Example scenario_undo_then_join :
  let s2 := Server.run [("A", Server.draw_shape "ROOM01" Sample.X);
                        ("B", Server.draw_shape "ROOM01" Sample.Y)] Sample.lobby in
  let '(s3, out3) := Server.handle "A" (Server.undo "ROOM01") s2 in
  let '(s4, out4) := Server.handle "C" (Server.join_room "ROOM01" "carol" "#fbbf24") s3 in
  Server.history <$> Server.rooms s3 !! "ROOM01" = Some [Sample.X] /\
  Server.redoStack <$> Server.rooms s3 !! "ROOM01" = Some [Sample.Y] /\
  out3 = [Server.Emit (Server.ToRoom "ROOM01") (Server.history_sync [Sample.X])] /\
  In (Server.Emit (Server.ToSocket "C") (Server.history_sync [Sample.X])) out4.
Proof. vm_compute. repeat split; auto. Qed.

(** Host migration: of the members [H, B, C], H leaves; B is the host. *)
Example scenario_host_leaves :
  let s := Server.run [("H", Server.create_room "R" "h" "c1");
                       ("B", Server.join_room "R" "b" "c2");
                       ("C", Server.join_room "R" "c" "c3");
                       ("H", Server.leave_room "R")] Server.init in
  Server.users <$> Server.rooms s !! "R"
    = Some [User.mk "B" "b" true "c2"; User.mk "C" "c" false "c3"].
Proof. vm_compute. reflexivity. Qed.

(** The last member leaves: the room is gone. *)
Example scenario_last_member_leaves :
  Server.rooms (Server.run [("A", Server.leave_room "ROOM01"); ("B", Server.disconnect)]
                  Sample.lobby) !! "ROOM01" = None.
Proof. vm_compute. reflexivity. Qed.

(** C3, as the claim states it, at sample data: after
    [append(X); undo; append(Y); redo] the history is [[Y]], not [[X; Y]]. *)
Lemma undo_append_redo_counterexample :
  Server.history <$>
    Server.rooms
      (Server.run [("A", Server.draw_shape "ROOM01" Sample.X);
                   ("A", Server.undo "ROOM01");
                   ("B", Server.draw_shape "ROOM01" Sample.Y);
                   ("A", Server.redo "ROOM01")] Sample.lobby) !! "ROOM01"
    = Some [Sample.Y] /\
  [Sample.Y] <> [Sample.X; Sample.Y].
Proof. split; [vm_compute; reflexivity|discriminate]. Qed.

Lemma append_after_undo_witness :
  let s1 := fst (Server.on_durable "ROOM01" Sample.X Sample.lobby) in
  let s2 := fst (Server.on_undo "ROOM01" s1) in
  let s3 := fst (Server.on_durable "ROOM01" Sample.Y s2) in
  Server.rooms s3 !! "ROOM01"
    = Some (Server.mkRoom (Server.users Sample.lobbyRoom) [Sample.Y] []) /\
  Server.on_redo "ROOM01" s3 = (s3, []).
Proof.
  pose proof (append_after_undo_drops_redo "ROOM01" Sample.lobby Sample.lobbyRoom
                Sample.X Sample.Y lobby_room eq_refl eq_refl) as (_ & _ & H3 & H4).
  split; [exact H3|exact H4].
Defined.

Lemma kick_by_member_witness :
  Server.on_kick_user "B" "ROOM01" "A" Sample.lobby = (Sample.lobby, []).
Proof.
  apply kick_by_non_host_is_ignored.
  intros room u Hroom Hu Hid. rewrite lobby_room in Hroom. injection Hroom as <-.
  simpl in Hu. apply elem_of_cons in Hu as [->|Hu]; [discriminate Hid|].
  apply list_elem_of_singleton in Hu as ->. reflexivity.
Defined.

(** *** The replay engine *)

(** Filling the left column of the walled bitmap stops at the wall. *)
Example fill_stops_at_wall :
  data <$> floodFill (B := Sample.browser) 25 0 0 "red" Sample.walled
    = Some [255; 0; 0; 255;  9; 9; 9; 9;  0; 0; 0; 0;
            255; 0; 0; 255;  9; 9; 9; 9;  0; 0; 0; 0]%Z.
Proof. vm_compute. reflexivity. Qed.

(** A seed off the canvas to the left reads the colour of the last pixel of
    the row above, and paints nothing. *)
Example fill_off_canvas :
  floodFill (B := Sample.browser) 25 (-1) 1 "red" Sample.walled = Some Sample.walled.
Proof. vm_compute. reflexivity. Qed.

Lemma floodFill_terminates_witness :
  enough Sample.walled = 25 /\
  exists c', forall fuel : nat, enough Sample.walled <= fuel ->
    floodFill (B := Sample.browser) fuel 0 0 "red" Sample.walled = Some c'.
Proof.
  apply (floodFill_terminates (B := Sample.browser) Sample.walled 0 0 "red"
           sample_byteChannels).
  reflexivity.
Defined.


(** The same with a fill for the action, where the opacity of the strokes
    is not asked for. *)
Example replaying_fill_twice :
  exists d,
    reconstruct (B := Sample.blending) ([Sample.ring] ++ [Sample.fillRed] ++ [Sample.fillRed])
      (newContext 2 2) = Some d /\
    reconstruct (B := Sample.blending) ([Sample.ring] ++ [Sample.fillRed]) (newContext 2 2)
      = Some d.
Proof. eexists. split; vm_compute; reflexivity. Qed.


(** The bitmap of that witness: the fill paints all four pixels, and the
    rectangle leaves its mark in the first byte. *)
Example replaying_twice_bitmap :
  reconstruct (B := Sample.browser) ([Sample.fillRed] ++ [Sample.X] ++ [Sample.X])
    (newContext 2 2)
  = Some [1; 0; 0; 255;  255; 0; 0; 255;  255; 0; 0; 255;  255; 0; 0; 255]%Z.
Proof. vm_compute. reflexivity. Qed.

(** C10 at the same fill replayed twice: on two blank pixels the first
    fill with ["lch(50 100 300)"] returns; the second one, on what the
    first one left, never does. *)
Lemma floodFill_loops_witness :
  floodFill (B := Sample.wideGamut) 9 0 0 "lch(50 100 300)" (newContext 2 1)
    = Some Sample.lchFilled /\
  forall fuel : nat,
    floodFill (B := Sample.wideGamut) fuel 0 0 "lch(50 100 300)" Sample.lchFilled = None.
Proof.
  split; [vm_compute; reflexivity|].
  apply (floodFill_loops_on_clamped_colour (B := Sample.wideGamut) Sample.lchFilled 0 0
           "lch(50 100 300)" 50 100 300 (1, 0)%Z).
  - reflexivity.
  - unfold inside. change (Qfloor 0) with 0%Z. simpl. lia.
  - reflexivity.
  - discriminate.
  - left. reflexivity.
  - unfold inside. simpl. lia.
  - reflexivity.
Defined.

(** A history with that fill twice cannot be replayed. *)
Example replaying_lch_twice :
  (exists d, reconstruct (B := Sample.wideGamut) [Sample.fillLch] (newContext 2 1) = Some d) /\
  reconstruct (B := Sample.wideGamut) [Sample.fillLch; Sample.fillLch] (newContext 2 1)
    = None.
Proof. split; [eexists|]; vm_compute; reflexivity. Qed.

(** On the sample browser a triangle after a stroke and a clear is not the
    triangle alone. *)
Lemma clear_keeps_line_style_witness :
  reconstruct (B := Sample.browser)
    ([Sample.scribble] ++ [Sample.clearAll] ++ [Sample.triangleAction]) (newContext 2 2)
  <> reconstruct (B := Sample.browser) [Sample.triangleAction] (newContext 2 2).
Proof.
  refine (proj2 (proj2 (clear_keeps_line_style (B := Sample.browser)
            (DrawStroke.mk [Sample.pt 0 0; Sample.pt 1 1] "red" 2 brush)
            Sample.triangleDown Sample.scribble Sample.clearAll Sample.triangleAction
            (newContext 2 2) eq_refl eq_refl eq_refl _ eq_refl eq_refl)) _).
  - simpl. lia.
  - vm_compute. discriminate.
Defined.

(** C9, as the claim states it, at a triangle dragged upwards from
    [(0, 10)] to [(10, 0)]: the path starts at [(5, 10)], on the bottom
    edge of the box, and its base is on the top edge. *)
Lemma triangle_dragged_upwards_counterexample :
  path (drawShape (B := Sample.browser) Sample.triangleUp (newContext 20 20))
    = [moveTo (0 + (10 - 0) / 2)%Q 10%Q; lineTo 0%Q (10 + (0 - 10))%Q;
       lineTo (0 + (10 - 0))%Q (10 + (0 - 10))%Q; closePath] /\
  ~ specTriangle Sample.triangleUp
      (path (drawShape (B := Sample.browser) Sample.triangleUp (newContext 20 20))).
Proof.
  split; [reflexivity|].
  intros (ax & ay & bx & by_ & cx & cy & Hp & _ & Hay & _).
  injection Hp as _ <- _ _ _ _.
  unfold boxTop in Hay. simpl in Hay.
  rewrite Q.min_r in Hay by (unfold Qle; simpl; lia).
  discriminate Hay.
Qed.

End Samples.

(** ** More on the relay server *)

Section ServerMore.
Import Server Session.

(** What [handleLeave] leaves under its own room id. *)
Lemma handleLeave_lookup roomId socketId (rs : gmap string Room) :
  fst (handleLeave roomId socketId rs) !! roomId =
    match rs !! roomId with
    | None => None
    | Some room =>
      match findIndex (hasId socketId) (users room) with
      | None => Some room
      | Some index =>
        match usersAfterLeave index (users room) with
        | [] => None
        | us => Some (mkRoom us (history room) (redoStack room))
        end
      end
    end.
Proof.
  rewrite handleLeave_rooms.
  destruct (rs !! roomId) as [room|] eqn:Hroom; [|exact Hroom].
  destruct (findIndex (hasId socketId) (users room)); [|exact Hroom].
  destruct (usersAfterLeave n (users room)); [apply lookup_delete_eq|apply lookup_insert_eq].
Qed.

Lemma handleLeave_other roomId socketId (rs : gmap string Room) r :
  r <> roomId -> fst (handleLeave roomId socketId rs) !! r = rs !! r.
Proof.
  intros Hr. rewrite handleLeave_rooms.
  destruct (rs !! roomId) as [room|]; [|reflexivity].
  destruct (findIndex (hasId socketId) (users room)); [|reflexivity].
  destruct (usersAfterLeave n (users room));
    [apply lookup_delete_ne|apply lookup_insert_ne]; congruence.
Qed.

Lemma handleLeave_effects roomId socketId (rs : gmap string Room) :
  Forall (fun e => exists ev, e = Emit (ToRoom roomId) ev) (snd (handleLeave roomId socketId rs)).
Proof.
  unfold handleLeave.
  destruct (rs !! roomId) as [room|]; [|constructor].
  destruct (findIndex (hasId socketId) (users room)); [|constructor].
  match goal with |- context [if ?b then promoteFirst _ else _] => destruct b end;
    match goal with |- context [Nat.eqb (length ?l) 0] => destruct (Nat.eqb (length l) 0) end;
    simpl; repeat constructor; eauto.
Qed.

(** X1.  [handleLeave] for a room that does not exist, or for a socket that
    is not among its members, changes nothing and sends nothing; in every
    case it leaves all other rooms as they were and sends to its own room
    only. *)
Theorem handleLeave_touches_its_room_only roomId socketId (rs : gmap string Room) :
  (rs !! roomId = None -> handleLeave roomId socketId rs = (rs, [])) /\
  (forall room, rs !! roomId = Some room ->
     find (hasId socketId) (users room) = None ->
     handleLeave roomId socketId rs = (rs, [])) /\
  (forall r, r <> roomId -> fst (handleLeave roomId socketId rs) !! r = rs !! r) /\
  Forall (fun e => exists ev, e = Emit (ToRoom roomId) ev)
    (snd (handleLeave roomId socketId rs)).
Proof.
  repeat split.
  - intros H. unfold handleLeave. rewrite H. reflexivity.
  - intros room Hroom Hf. unfold handleLeave. rewrite Hroom.
    apply findIndex_None in Hf. rewrite Hf. reflexivity.
  - intros r Hr. apply handleLeave_other. exact Hr.
  - apply handleLeave_effects.
Qed.

(** *** The host is the first member *)

Lemma Forall_delete {A} (P : A -> Prop) (l : list A) i :
  Forall P l -> Forall P (delete i l).
Proof.
  revert i. induction l as [|a l IH]; intros i H; [destruct i; exact H|].
  inversion H; subst. destruct i; simpl; [assumption|]. constructor; auto.
Qed.

Lemma usersAfterLeave_hostFirst room index u :
  hostFirst room -> users room !! index = Some u ->
  usersAfterLeave index (users room) <> [] ->
  hostFirst (mkRoom (usersAfterLeave index (users room)) (history room) (redoStack room)).
Proof.
  intros (h & rest & Hus & Hh & Hrest) Hu Hne. unfold hostFirst. simpl.
  rewrite (usersAfterLeave_cases _ _ _ Hu) in *. rewrite Hus in *.
  destruct index as [|index].
  - injection Hu as <-. simpl in *. rewrite Hh.
    destruct rest as [|b rest']; [congruence|].
    inversion Hrest; subst. exists (User.setHost true b), rest'. auto.
  - simpl in Hu. change (delete (S index) (h :: rest)) with (h :: delete index rest) in *.
    assert (Hnu : User.isHost u = false).
    { rewrite Forall_forall in Hrest. apply Hrest.
      eapply list_elem_of_lookup_2. exact Hu. }
    rewrite Hnu. exists h, (delete index rest). split; [reflexivity|].
    split; [exact Hh|]. apply Forall_delete. exact Hrest.
Qed.

(** X2.  In every state the server reaches, the first member of each room,
    the one that has been in it longest, is its host, and no other member
    is. *)
Theorem host_is_first_member reqs roomId room :
  rooms (run reqs init) !! roomId = Some room ->
  exists u rest, users room = u :: rest /\ User.isHost u = true /\
    Forall (fun v => User.isHost v = false) rest.
Proof.
  intros Hroom.
  apply (reachable_every hostFirst) with (reqs := reqs) (i := roomId); [..|exact Hroom].
  - intros. eexists _, []. simpl. auto.
  - intros r u (h & rest & Hus & Hh & Hrest) Hu. exists h, (rest ++ [u]). simpl.
    rewrite Hus. split; [reflexivity|]. split; [exact Hh|].
    apply Forall_app. split; [exact Hrest|]. constructor; [exact Hu|constructor].
  - intros r index u H Hu Hne. apply usersAfterLeave_hostFirst with (u := u); assumption.
  - intros r a H. exact H.
  - intros r h a H _. exact H.
  - intros r rd a H _. exact H.
Qed.

(** *** Undo and redo *)

Lemma setRooms_same (s : State) : setRooms (rooms s) s = s.
Proof. destruct s. reflexivity. Qed.

(** X3.  On a room with a non-empty history, an undo followed by a redo
    gives back the state the server was in; and on a room with a non-empty
    redo stack, so does a redo followed by an undo. *)
Theorem undo_redo_round_trip roomId (s : State) room :
  rooms s !! roomId = Some room ->
  (history room <> [] -> fst (on_redo roomId (fst (on_undo roomId s))) = s) /\
  (redoStack room <> [] -> fst (on_undo roomId (fst (on_redo roomId s))) = s).
Proof.
  intros Hroom. split; intros Hne.
  - destruct (pop (history room)) as [[h a]|] eqn:Hpop; [|apply pop_None in Hpop; congruence].
    unfold on_undo at 1. rewrite Hroom, Hpop. simpl.
    unfold on_redo. simpl. rewrite lookup_insert_eq. simpl.
    rewrite pop_app_last. simpl. apply pop_Some in Hpop.
    rewrite insert_insert_eq, <- Hpop.
    destruct s as [rs sk]. simpl in *. unfold setRooms. simpl. f_equal.
    apply insert_id. rewrite Hroom. destruct room; reflexivity.
  - destruct (pop (redoStack room)) as [[r a]|] eqn:Hpop; [|apply pop_None in Hpop; congruence].
    unfold on_redo at 1. rewrite Hroom, Hpop. simpl.
    unfold on_undo. simpl. rewrite lookup_insert_eq. simpl.
    rewrite pop_app_last. simpl. apply pop_Some in Hpop.
    rewrite insert_insert_eq, <- Hpop.
    destruct s as [rs sk]. simpl in *. unfold setRooms. simpl. f_equal.
    apply insert_id. rewrite Hroom. destruct room; reflexivity.
Qed.

Lemma undo_timeline roomId (s : State) r :
  timeline <$> rooms (fst (on_undo roomId s)) !! r = timeline <$> rooms s !! r /\
  users <$> rooms (fst (on_undo roomId s)) !! r = users <$> rooms s !! r.
Proof.
  unfold on_undo. destruct (rooms s !! roomId) as [room|] eqn:Hroom; [|auto].
  destruct (pop (history room)) as [[h a]|] eqn:Hpop; [|auto]. simpl.
  destruct (decide (roomId = r)) as [<-|Hne].
  - rewrite lookup_insert_eq, Hroom. simpl. apply pop_Some in Hpop.
    unfold timeline. simpl. rewrite Hpop, rev_app_distr, <- app_assoc. auto.
  - rewrite lookup_insert_ne by exact Hne. auto.
Qed.

Lemma redo_timeline roomId (s : State) r :
  timeline <$> rooms (fst (on_redo roomId s)) !! r = timeline <$> rooms s !! r /\
  users <$> rooms (fst (on_redo roomId s)) !! r = users <$> rooms s !! r.
Proof.
  unfold on_redo. destruct (rooms s !! roomId) as [room|] eqn:Hroom; [|auto].
  destruct (pop (redoStack room)) as [[rd a]|] eqn:Hpop; [|auto]. simpl.
  destruct (decide (roomId = r)) as [<-|Hne].
  - rewrite lookup_insert_eq, Hroom. simpl. apply pop_Some in Hpop.
    unfold timeline. simpl. rewrite Hpop, rev_app_distr, <- app_assoc. auto.
  - rewrite lookup_insert_ne by exact Hne. auto.
Qed.

(** X4.  Undo and redo only move the boundary between what is done and
    what is undone: whatever undo and redo requests arrive, from whomever
    and for whichever rooms, the timeline of every room (its history
    followed by the undone actions, the most recently undone first) and
    its members are what they were. *)
Theorem undo_redo_keep_timeline (reqs : list (string * Request)) (s : State) r :
  forallb (fun q => isUndoRedo (snd q)) reqs = true ->
  timeline <$> rooms (run reqs s) !! r = timeline <$> rooms s !! r /\
  users <$> rooms (run reqs s) !! r = users <$> rooms s !! r.
Proof.
  revert s. induction reqs as [|[sid req] reqs IH]; intros s Hall; [auto|].
  simpl in Hall. apply andb_true_iff in Hall as [Hreq Hall].
  change (run ((sid, req) :: reqs) s) with (run reqs (fst (handle sid req s))).
  destruct (IH (fst (handle sid req s)) Hall) as [-> ->].
  destruct req; try discriminate; simpl; [apply undo_timeline|apply redo_timeline].
Qed.

(** *** Kick *)

(** X5.  A kick by the host of the room leaves the room table as the
    target's own leave would; besides the messages of that leave, the only
    effects are that the target's socket, if it is connected, is taken out
    of the transport group and told that it was kicked. *)
Theorem kick_by_host_is_leave socketId roomId userId (s : State) room requester :
  rooms s !! roomId = Some room ->
  find (hasId socketId) (users room) = Some requester ->
  User.isHost requester = true ->
  fst (on_kick_user socketId roomId userId s) = fst (on_leave_room userId roomId s) /\
  snd (on_kick_user socketId roomId userId s) =
    (if bool_decide (userId ∈ sockets s)
     then [Leave userId roomId; Emit (ToSocket userId) user_kicked] else [])
    ++ snd (handleLeave roomId userId (rooms s)).
Proof.
  intros Hroom Hreq Hhost. unfold on_kick_user, on_leave_room.
  rewrite Hroom, Hreq, Hhost. simpl.
  destruct (handleLeave roomId userId (rooms s)). auto.
Qed.

(** *** Disconnect *)

Lemma leaveIfMember_lookup socketId (acc : gmap string Room * list Effect) k room r :
  fst acc !! k = Some room ->
  fst (leaveIfMember socketId acc (k, room)) !! r =
    if decide (r = k) then fst (handleLeave k socketId (fst acc)) !! k else fst acc !! r.
Proof.
  intros Hk. unfold leaveIfMember. simpl.
  destruct (find (hasId socketId) (users room)) eqn:Hf.
  - destruct (handleLeave k socketId (fst acc)) as [rs out] eqn:Hl. simpl.
    change rs with (fst (rs, out)). rewrite <- Hl.
    destruct (decide (r = k)) as [->|Hne]; [reflexivity|].
    apply handleLeave_other. exact Hne.
  - destruct (decide (r = k)) as [->|Hne]; [|reflexivity].
    rewrite handleLeave_lookup, Hk.
    apply findIndex_None in Hf. rewrite Hf. reflexivity.
Qed.

Lemma disconnect_fold socketId (entries : list (string * Room)) acc r :
  NoDup (map fst entries) ->
  (forall k room, (k, room) ∈ entries -> fst acc !! k = Some room) ->
  fst (fold_left (leaveIfMember socketId) entries acc) !! r =
    if decide (r ∈ map fst entries)
    then fst (handleLeave r socketId (fst acc)) !! r
    else fst acc !! r.
Proof.
  revert acc. induction entries as [|[k room] entries IH]; intros acc Hnd Hacc.
  - simpl. destruct (decide (r ∈ [])) as [H|_]; [inversion H|reflexivity].
  - simpl in *. apply NoDup_cons in Hnd as [Hk Hnd].
    assert (Hkacc : fst acc !! k = Some room) by (apply Hacc; left).
    rewrite IH; [|exact Hnd|].
    + destruct (decide (r ∈ map fst entries)) as [Hin|Hnin].
      * assert (Hrk : r <> k) by (intros ->; contradiction).
        rewrite decide_True by (right; exact Hin).
        rewrite !handleLeave_lookup.
        rewrite (leaveIfMember_lookup _ _ _ _ _ Hkacc), decide_False by exact Hrk.
        reflexivity.
      * rewrite (leaveIfMember_lookup _ _ _ _ _ Hkacc).
        destruct (decide (r = k)) as [->|Hrk].
        -- rewrite decide_True by left. reflexivity.
        -- rewrite decide_False; [reflexivity|].
           intros [?|?]%elem_of_cons; contradiction.
    + intros k' room' Hin.
      assert (Hk' : k' <> k).
      { intros ->. apply Hk. apply list_elem_of_fmap. exists (k, room'). auto. }
      rewrite (leaveIfMember_lookup _ _ _ _ _ Hkacc), decide_False by exact Hk'.
      apply Hacc. right. exact Hin.
Qed.

(** On each room, a disconnect is the leave of the socket from that room. *)
Lemma disconnect_lookup socketId (s : State) r :
  rooms (fst (on_disconnect socketId s)) !! r
    = fst (handleLeave r socketId (rooms s)) !! r.
Proof.
  unfold on_disconnect.
  pose proof (disconnect_fold socketId (map_to_list (rooms s)) (rooms s, []) r
                (NoDup_fst_map_to_list (rooms s))) as H.
  destruct (fold_left _ _ _) as [rs out]. simpl in *. rewrite H.
  - destruct (decide (r ∈ map fst (map_to_list (rooms s)))) as [Hin|Hnin]; [reflexivity|].
    rewrite handleLeave_lookup.
    destruct (rooms s !! r) as [room|] eqn:Hroom; [|reflexivity].
    exfalso. apply Hnin. apply list_elem_of_fmap. exists (r, room).
    split; [reflexivity|]. apply elem_of_map_to_list. exact Hroom.
  - intros k room Hin. apply elem_of_map_to_list. exact Hin.
Qed.

(** X6.  A disconnect acts on every room as the leave of the socket from
    that room: a room that does not list the socket stays as it is, a room
    that lists it loses the first entry of the socket, with the host
    migration and the deletion of an emptied room that a leave brings; and
    the socket is no longer among the connected ones. *)
Theorem disconnect_is_leave_everywhere socketId (s : State) :
  (forall r, rooms (fst (on_disconnect socketId s)) !! r
             = fst (handleLeave r socketId (rooms s)) !! r) /\
  (forall r room, rooms s !! r = Some room ->
     find (hasId socketId) (users room) = None ->
     rooms (fst (on_disconnect socketId s)) !! r = Some room) /\
  socketId ∉ sockets (fst (on_disconnect socketId s)).
Proof.
  split; [|split].
  - intros r. apply disconnect_lookup.
  - intros r room Hroom Hf. rewrite disconnect_lookup, handleLeave_lookup, Hroom.
    apply findIndex_None in Hf. rewrite Hf. reflexivity.
  - unfold on_disconnect. destruct (fold_left _ _ _). simpl.
    rewrite elem_of_difference. intros [_ H]. apply H. apply elem_of_singleton. reflexivity.
Qed.

(** *** What a request leaves alone *)

Lemma handleLeave_history k socketId (rs : gmap string Room) r room' :
  fst (handleLeave k socketId rs) !! r = Some room' ->
  exists room, rs !! r = Some room /\
    history room' = history room /\ redoStack room' = redoStack room.
Proof.
  destruct (decide (r = k)) as [->|Hne].
  - rewrite handleLeave_lookup.
    destruct (rs !! k) as [room|]; [|discriminate].
    destruct (findIndex (hasId socketId) (users room)).
    + destruct (usersAfterLeave n (users room)); [discriminate|].
      intros [= <-]. eauto.
    + intros [= <-]. eauto.
  - rewrite handleLeave_other by exact Hne. eauto.
Qed.

Lemma handle_history_frame socketId req (s : State) r room' :
  editsHistory req = false -> isCreate req = false ->
  rooms (fst (handle socketId req s)) !! r = Some room' ->
  exists room, rooms s !! r = Some room /\
    history room' = history room /\ redoStack room' = redoStack room.
Proof.
  intros He Hc. destruct req; try discriminate; simpl; eauto.
  - unfold on_join_room. destruct (rooms s !! roomId) as [room|] eqn:Hroom; [|eauto].
    simpl. destruct (decide (roomId = r)) as [<-|Hne].
    + rewrite lookup_insert_eq. intros [= <-]. eauto.
    + rewrite lookup_insert_ne by exact Hne. eauto.
  - unfold on_leave_room.
    pose proof (handleLeave_history roomId socketId (rooms s) r room') as H.
    destruct (handleLeave roomId socketId (rooms s)). exact H.
  - unfold on_kick_user.
    destruct (rooms s !! roomId) as [room|]; [|eauto].
    destruct (find (hasId socketId) (users room)) as [requester|]; [|eauto].
    destruct (negb (User.isHost requester)); [eauto|].
    pose proof (handleLeave_history roomId userId (rooms s) r room') as H.
    destruct (handleLeave roomId userId (rooms s)). exact H.
  - rewrite disconnect_lookup. apply handleLeave_history.
Qed.

Lemma handle_members_frame socketId req (s : State) r :
  editsMembers req = false ->
  users <$> rooms (fst (handle socketId req s)) !! r = users <$> rooms s !! r.
Proof.
  intros He.
  assert (Hdur : forall roomId action,
            users <$> rooms (fst (on_durable roomId action s)) !! r = users <$> rooms s !! r).
  { intros roomId action. simpl. unfold addToHistory.
    destruct (rooms s !! roomId) as [room|] eqn:Hroom; [|reflexivity].
    destruct (decide (roomId = r)) as [<-|Hne].
    - rewrite lookup_insert_eq, Hroom. reflexivity.
    - rewrite lookup_insert_ne by exact Hne. reflexivity. }
  destruct req; try discriminate; simpl; try reflexivity; try apply Hdur.
  - apply undo_timeline.
  - apply redo_timeline.
Qed.

(** X7.  Only [create_room] makes a room: after any other request, every
    room of the table was there before.  So a join, an action, an undo or
    a redo for an unknown id makes no room of that id. *)
Theorem only_create_room_adds_rooms socketId req (s : State) r :
  isCreate req = false ->
  is_Some (rooms (fst (handle socketId req s)) !! r) -> is_Some (rooms s !! r).
Proof.
  intros Hc [room' Hroom'].
  destruct (editsHistory req) eqn:He.
  - assert (Hm : editsMembers req = false) by (destruct req; try discriminate; reflexivity).
    pose proof (handle_members_frame socketId req s r Hm) as H.
    rewrite Hroom' in H. destruct (rooms s !! r); [eauto|discriminate].
  - destruct (handle_history_frame socketId req s r room' He Hc Hroom') as (room & H & _).
    eauto.
Qed.

(** X8.  The two kinds of bookkeeping do not interfere.  A request that is
    not a drawing action, an undo or a redo (and not a [create_room], which
    may replace a room) leaves the history and the redo stack of every room
    it keeps as they were: joining, leaving, kicking and disconnecting
    never touch what was drawn.  A request that is not a create, join,
    leave, kick or disconnect leaves the member list of every room as it
    was, and the set of rooms with it. *)
Theorem members_and_history_are_separate socketId req (s : State) r :
  (editsHistory req = false -> isCreate req = false ->
   forall room', rooms (fst (handle socketId req s)) !! r = Some room' ->
     exists room, rooms s !! r = Some room /\
       history room' = history room /\ redoStack room' = redoStack room) /\
  (editsMembers req = false ->
   users <$> rooms (fst (handle socketId req s)) !! r = users <$> rooms s !! r).
Proof.
  split.
  - intros He Hc room'. apply handle_history_frame; assumption.
  - apply handle_members_frame.
Qed.

End ServerMore.

(** ** [SocketService] *)

Section ServiceMore.
Import Service.

(** *** Listeners *)

Section ListenerTable.
Context {Callback : Type} `{EqDecision Callback}.

(** X9.  [trigger] calls the listeners of an event in the order of their
    registration.  [off] removes every registration of the callback under
    that event, also the ones made before the last [on]; neither [on] nor
    [off] changes what any other event calls, and [off] for an event
    without listeners changes nothing. *)
Theorem listeners_on_off (event : string) (cb : Callback)
  (m : gmap string (list Callback)) :
  trigger event (on event cb m) = trigger event m ++ [cb] /\
  trigger event (off event cb m)
    = List.filter (fun c => negb (bool_decide (c = cb))) (trigger event m) /\
  ~ In cb (trigger event (off event cb (on event cb m))) /\
  (m !! event = None -> off event cb m = m) /\
  (forall e, e <> event ->
     trigger e (on event cb m) = trigger e m /\ trigger e (off event cb m) = trigger e m).
Proof.
  assert (Hoff : forall m' : gmap string (list Callback),
            trigger event (off event cb m')
            = List.filter (fun c => negb (bool_decide (c = cb))) (trigger event m')).
  { intros m'. unfold trigger, off.
    destruct (m' !! event) as [l|] eqn:E; [|rewrite E; reflexivity].
    rewrite lookup_insert_eq. reflexivity. }
  split; [|split; [|split; [|split]]].
  - unfold trigger, on. rewrite lookup_insert_eq. reflexivity.
  - apply Hoff.
  - rewrite Hoff. intros Hin. apply List.filter_In in Hin as [_ Hne].
    rewrite bool_decide_eq_true_2 in Hne by reflexivity. discriminate.
  - intros E. unfold off. rewrite E. reflexivity.
  - intros e He. unfold trigger, on, off. split.
    + rewrite lookup_insert_ne by congruence. reflexivity.
    + destruct (m !! event); [|reflexivity].
      rewrite lookup_insert_ne by congruence. reflexivity.
Qed.

End ListenerTable.

(** *** The cursor throttle *)

(** X10.  Whatever the clock readings of a run of [emitCursor] calls, two
    positions are never sent less than 30 ms apart: every reading at which
    a position is sent is at least 30 after the reading of the send before
    it (and the first one at least 30 after the initial
    [lastCursorEmit]). *)
Theorem cursor_sends_are_spaced (nows : list Z) (lastCursorEmit : Z) :
  spaced lastCursorEmit (sentAt nows lastCursorEmit).
Proof.
  revert lastCursorEmit. induction nows as [|now nows IH]; intros last; [exact I|].
  simpl. unfold emitCursor. destruct (Z.ltb_spec (now - last) 30).
  - apply IH.
  - simpl. split; [lia|apply IH].
Qed.

(** *** The mock history and the server's *)

Lemma history_call_agrees roomId call (s : Server.State) (m : Mock.State) room :
  Server.rooms s !! roomId = Some room ->
  Server.history room = Mock.mockHistory m ->
  Server.redoStack room = Mock.mockRedoStack m ->
  serverSync roomId call s = mockSync call m /\
  exists room',
    Server.rooms (serverCall roomId call s) !! roomId = Some room' /\
    Server.users room' = Server.users room /\
    Server.history room' = Mock.mockHistory (mockCall call m) /\
    Server.redoStack room' = Mock.mockRedoStack (mockCall call m).
Proof.
  intros Hroom Hh Hr. destruct call as [action| |]; simpl.
  - split; [reflexivity|]. unfold Server.addToHistory. rewrite Hroom.
    eexists. split; [apply lookup_insert_eq|]. simpl. rewrite Hh. auto.
  - unfold Server.on_undo, Mock.emitUndo. rewrite Hroom, Hh.
    destruct (Server.pop (Mock.mockHistory m)) as [[h a]|]; simpl.
    + split; [reflexivity|]. eexists. split; [apply lookup_insert_eq|].
      simpl. rewrite Hr. auto.
    + split; [reflexivity|]. exists room. auto.
  - unfold Server.on_redo, Mock.emitRedo. rewrite Hroom, Hr.
    destruct (Server.pop (Mock.mockRedoStack m)) as [[r a]|]; simpl.
    + split; [rewrite Hh; reflexivity|]. eexists. split; [apply lookup_insert_eq|].
      simpl. rewrite Hh. auto.
    + split; [reflexivity|]. exists room. auto.
Qed.

(** X11.  The fallback bus and the relay server keep the same history.
    Starting from a mock state and a room with equal histories and redo
    stacks, any run of durable actions, undos and redos leaves them equal
    again, leaves the members of the room alone, and the next undo or redo
    hands the same full history to the [history_sync] listeners (or none
    at all) on either transport. *)
Theorem mock_history_agrees_with_server roomId (calls : list HistoryCall)
  (s : Server.State) (m : Mock.State) room :
  Server.rooms s !! roomId = Some room ->
  Server.history room = Mock.mockHistory m ->
  Server.redoStack room = Mock.mockRedoStack m ->
  let s' := fold_left (fun st c => serverCall roomId c st) calls s in
  let m' := fold_left (fun st c => mockCall c st) calls m in
  (exists room',
     Server.rooms s' !! roomId = Some room' /\
     Server.users room' = Server.users room /\
     Server.history room' = Mock.mockHistory m' /\
     Server.redoStack room' = Mock.mockRedoStack m') /\
  forall next, serverSync roomId next s' = mockSync next m'.
Proof.
  revert s m room. induction calls as [|call calls IH]; intros s m room Hroom Hh Hr.
  - simpl. split; [exists room; auto|].
    intros next. apply (history_call_agrees roomId next s m room Hroom Hh Hr).
  - destruct (history_call_agrees roomId call s m room Hroom Hh Hr)
      as (_ & room1 & Hroom1 & Hu1 & Hh1 & Hr1).
    destruct (IH _ _ _ Hroom1 Hh1 Hr1) as ((room' & H1 & H2 & H3 & H4) & Hsync).
    split; [|exact Hsync]. exists room'. repeat split; try assumption. congruence.
Qed.

End ServiceMore.

(** ** The client's view of the room *)

Section AppMore.
Import Server App.

Lemma deliver_mounted me ev st :
  ev <> user_kicked -> deliver me ev (mounted st) = mounted (react me ev st).
Proof. intros Hev. destruct ev; try reflexivity. congruence. Qed.

Lemma deliverAll_mounted me evs st :
  Forall (fun ev => ev <> user_kicked) evs ->
  deliverAll me evs (mounted st) = mounted (fold_left (fun s ev => react me ev s) evs st).
Proof.
  revert st. induction evs as [|ev evs IH]; intros st Hall; [reflexivity|].
  inversion Hall; subst. unfold deliverAll. simpl.
  rewrite deliver_mounted by assumption. apply IH. assumption.
Qed.

(** *** A member leaves *)

Lemma handleLeave_events roomId L (rs : gmap string Room) room index u :
  rs !! roomId = Some room ->
  findIndex (hasId L) (Server.users room) = Some index ->
  Server.users room !! index = Some u ->
  usersAfterLeave index (Server.users room) <> [] ->
  toRoom roomId (snd (handleLeave roomId L rs)) =
    (if User.isHost u then [room_updated (usersAfterLeave index (Server.users room))] else [])
    ++ [user_left L].
Proof.
  intros Hroom Hi Hu Hne. unfold handleLeave. rewrite Hroom, Hi.
  unfold usersAfterLeave in *. rewrite Hu in *.
  destruct (User.isHost u);
    (destruct (delete index (Server.users room)) as [|b rest]; simpl in *; [congruence|]);
    rewrite String.eqb_refl; reflexivity.
Qed.

Lemma filter_all_others L us :
  ~ In L (map User.id us) -> List.filter (otherThan L) us = us.
Proof.
  induction us as [|a us IH]; intros Hnin; [reflexivity|]. simpl in *.
  unfold otherThan at 1. destruct (String.eqb_spec (User.id a) L) as [E|E].
  - exfalso. apply Hnin. left. exact E.
  - simpl. f_equal. apply IH. intros H. apply Hnin. right. exact H.
Qed.

Lemma filter_is_delete L us index :
  List.NoDup (map User.id us) -> findIndex (hasId L) us = Some index ->
  List.filter (otherThan L) us = delete index us /\ ~ In L (map User.id (delete index us)).
Proof.
  revert index. induction us as [|a us IH]; intros index Hnd Hi; [discriminate|].
  simpl in Hi, Hnd. inversion Hnd as [|? ? Ha Hnd']; subst.
  unfold hasId in Hi at 1. simpl. unfold otherThan at 1.
  destruct (String.eqb_spec (User.id a) L) as [E|E].
  - injection Hi as <-. simpl. subst L. split; [apply filter_all_others|]; exact Ha.
  - destruct (findIndex (hasId L) us) as [j|] eqn:Hj; [|discriminate].
    injection Hi as <-. destruct (IH j Hnd' eq_refl) as [IH1 IH2].
    simpl. rewrite IH1. split; [reflexivity|].
    change (delete (S j) (a :: us)) with (a :: delete j us). simpl.
    intros [H|H]; [congruence|contradiction].
Qed.

Lemma find_delete_other me L us index :
  me <> L -> findIndex (hasId L) us = Some index ->
  find (hasId me) (delete index us) = find (hasId me) us.
Proof.
  intros Hne. revert index. induction us as [|a us IH]; intros index Hi; [discriminate|].
  simpl in Hi. unfold hasId in Hi at 1.
  destruct (String.eqb_spec (User.id a) L) as [E|E].
  - injection Hi as <-. simpl. unfold hasId at 2.
    destruct (String.eqb_spec (User.id a) me); [congruence|reflexivity].
  - destruct (findIndex (hasId L) us) as [j|] eqn:Hj; [|discriminate].
    injection Hi as <-. change (delete (S j) (a :: us)) with (a :: delete j us).
    simpl. rewrite (IH j eq_refl). reflexivity.
Qed.

Lemma find_promoteFirst_None me us :
  find (hasId me) (promoteFirst us) = None -> find (hasId me) us = None.
Proof.
  destruct us as [|b rest]; [auto|]. simpl. unfold hasId at 1 3. simpl.
  destruct (String.eqb (User.id b) me); [discriminate|auto].
Qed.

(** X12.  The roster of a client follows a leave.  Let the member ids of a
    room be distinct and let a member other than the client leave (on its
    own, by a kick or by a disconnect).  A client that showed the members
    of the room shows, once it has handled what [handleLeave] sent to the
    room, exactly the members the server now has, in the server's order;
    its own entry is the server's, so that the member to whom the host
    role migrated knows it is the host. *)
Theorem roster_follows_leave me roomId L (rs : gmap string Room) room index (st : App.State) :
  rs !! roomId = Some room ->
  List.NoDup (map User.id (Server.users room)) ->
  findIndex (hasId L) (Server.users room) = Some index ->
  me <> L ->
  App.users st = Server.users room ->
  App.currentUser st = find (hasId me) (Server.users room) ->
  usersAfterLeave index (Server.users room) <> [] ->
  let c' := deliverAll me (toRoom roomId (snd (handleLeave roomId L rs))) (mounted st) in
  App.users (app c') = usersAfterLeave index (Server.users room) /\
  App.currentUser (app c') = find (hasId me) (usersAfterLeave index (Server.users room)) /\
  App.appState (app c') = App.appState st /\
  fst (handleLeave roomId L rs) !! roomId =
    Some (mkRoom (usersAfterLeave index (Server.users room))
            (Server.history room) (Server.redoStack room)).
Proof.
  intros Hroom Hnd Hi Hme Hus Hcur Hne c'.
  destruct (findIndex_Some _ _ _ Hi) as (u & Hu & _).
  destruct (filter_is_delete L _ _ Hnd Hi) as [Hfd Hgone].
  pose proof (find_delete_other me L _ _ Hme Hi) as Hfind.
  assert (Hsrv : fst (handleLeave roomId L rs) !! roomId =
    Some (mkRoom (usersAfterLeave index (Server.users room))
            (Server.history room) (Server.redoStack room))).
  { rewrite handleLeave_rooms, Hroom, Hi.
    destruct (usersAfterLeave index (Server.users room)); [congruence|].
    apply lookup_insert_eq. }
  subst c'. rewrite (handleLeave_events _ _ _ _ _ _ Hroom Hi Hu Hne).
  rewrite deliverAll_mounted
    by (destruct (User.isHost u); repeat constructor; discriminate).
  assert (Hleft : forall st', App.users (handleUserLeft L st')
                              = List.filter (otherThan L) (App.users st')) by reflexivity.
  rewrite (usersAfterLeave_cases _ _ _ Hu) in *.
  destruct (delete index (Server.users room)) as [|b rest] eqn:Hdel; [congruence|].
  destruct (User.isHost u).
  - change (app (mounted ?x)) with x.
    change (fold_left _ ([room_updated ?us] ++ [user_left L]) st)
      with (handleUserLeft L (handleRoomUpdated me us st)).
    rewrite Hleft.
    change (App.users (handleRoomUpdated me ?us st)) with us.
    rewrite (filter_all_others L (User.setHost true b :: rest) Hgone).
    repeat split; try exact Hsrv.
    change (App.currentUser (handleUserLeft L (handleRoomUpdated me ?us st)))
      with (match find (hasId me) us with Some x => Some x | None => App.currentUser st end).
    destruct (find (hasId me) (User.setHost true b :: rest)) eqn:Hf; [reflexivity|].
    rewrite Hcur, <- Hfind.
    apply (find_promoteFirst_None me (b :: rest)). exact Hf.
  - change (app (mounted ?x)) with x.
    change (fold_left _ ([] ++ [user_left L]) st) with (handleUserLeft L st).
    rewrite Hleft, Hus, Hfd.
    repeat split; try exact Hsrv.
    change (App.currentUser (handleUserLeft L st)) with (App.currentUser st).
    rewrite Hcur, <- Hfind. reflexivity.
Qed.

(** *** A member joins *)

Lemma find_app_new {A} (p : A -> bool) l x :
  find p l = None -> find p (l ++ [x]) = if p x then Some x else None.
Proof.
  induction l as [|a l IH]; simpl; [reflexivity|].
  destruct (p a); [discriminate|exact IH].
Qed.

(** X13.  The rosters follow a join.  When a socket that is not yet a
    member joins a room, the server appends it to the members; a client
    that showed the members before and handles the [user_joined] sent to
    the others shows the server's new list, and handling it a second time
    changes nothing; the joiner's own client, handling what was sent to its
    socket, is in the lobby of that room with the same list and with the
    new entry as its own. *)
Theorem roster_follows_join J roomId username color (s : Server.State) room me
  (st stJ : App.State) :
  rooms s !! roomId = Some room ->
  find (hasId J) (Server.users room) = None ->
  App.users st = Server.users room ->
  let out := snd (on_join_room J roomId username color s) in
  let user := User.mk J username false color in
  let c' := deliverAll me (toOthers roomId J out) (mounted st) in
  Server.users <$> rooms (fst (on_join_room J roomId username color s)) !! roomId
    = Some (Server.users room ++ [user]) /\
  App.users (app c') = Server.users room ++ [user] /\
  deliverAll me (toOthers roomId J out) c' = c' /\
  app (deliverAll J (toSocket J out) (mounted stJ))
    = App.mk LOBBY roomId (Server.users room ++ [user]) (Some user).
Proof.
  intros Hroom Hnew Hus out user c'.
  assert (Hothers : toOthers roomId J out = [user_joined user]).
  { subst out. unfold on_join_room. rewrite Hroom. simpl.
    rewrite !String.eqb_refl. reflexivity. }
  assert (Hmine : toSocket J out
                  = [room_joined roomId (Server.users room ++ [user]);
                     history_sync (Server.history room)]).
  { subst out. unfold on_join_room. rewrite Hroom. simpl.
    rewrite !String.eqb_refl. reflexivity. }
  assert (Hstep : deliverAll me [user_joined user] (mounted st)
                  = mounted (App.mk (App.appState st) (App.roomId st)
                               (Server.users room ++ [user]) (App.currentUser st))).
  { rewrite deliverAll_mounted by (repeat constructor; discriminate).
    change (fold_left _ [user_joined user] st) with (handleUserJoined user st).
    unfold handleUserJoined. rewrite Hus. change (User.id user) with J.
    rewrite Hnew. reflexivity. }
  subst c'. rewrite Hothers, Hmine, Hstep.
  split; [|split; [|split]].
  - unfold on_join_room. rewrite Hroom. simpl. rewrite lookup_insert_eq. reflexivity.
  - reflexivity.
  - rewrite deliverAll_mounted by (repeat constructor; discriminate).
    change (fold_left _ [user_joined user] ?x) with (handleUserJoined user x).
    unfold handleUserJoined. change (User.id user) with J.
    change (App.users (App.mk ?a ?b ?c ?d)) with c.
    rewrite (find_app_new _ _ _ Hnew). unfold hasId at 1. change (User.id user) with J.
    rewrite String.eqb_refl. reflexivity.
  - rewrite deliverAll_mounted by (repeat constructor; discriminate).
    change (app (mounted ?x)) with x.
    change (fold_left _ [room_joined roomId ?us; history_sync ?h] stJ)
      with (handleRoomJoined J roomId us stJ).
    unfold handleRoomJoined.
    rewrite (find_app_new _ _ _ Hnew). unfold hasId at 1. change (User.id user) with J.
    rewrite String.eqb_refl. reflexivity.
Qed.

(** *** Exit *)

(** X14.  [handleExit] leaves the client without listeners: the table of
    the service is cleared and the listeners of the component, registered
    once when it mounted, are not registered again.  So after an exit, and
    after a kick, which exits, no event changes the client any more: it
    stays on the welcome screen with no room, also when the server answers
    a later [create_room] or [join_room] with [room_joined]. *)
Theorem no_listener_after_exit me (st : App.State) (c : Client) (evs : list Event) :
  deliver me user_kicked (mounted st) = mkClient ∅ App.initial /\
  deliverAll me evs (handleExit c) = mkClient ∅ App.initial /\
  app (deliverAll me evs (handleExit c)) = App.mk WELCOME "" [] None.
Proof.
  assert (H : deliverAll me evs (mkClient ∅ App.initial) = mkClient ∅ App.initial).
  { induction evs as [|ev evs IH]; [reflexivity|].
    unfold deliverAll in *. simpl. exact IH. }
  split; [reflexivity|]. unfold handleExit. rewrite H. split; reflexivity.
Qed.

End AppMore.

(** ** More on the replay engine *)

(** *** The flood fill reaches the whole region *)

Section FillRegion.
Import Canvas.
Local Open Scope Z_scope.

Variables (w h : Z) (start : Pixel) (fillc : Z * Z * Z * Z) (d0 : list Z) (seed : Z * Z).
Hypothesis size0 : length d0 = Z.to_nat (4 * (w * h)).
Hypothesis start_is_seed : start = rd4 d0 (offset w (fst seed) (snd seed)).
Hypothesis fresh : painted fillc <> start.

Let colourAt (d : list Z) (p : Z * Z) : Pixel := rd4 d (offset w (fst p) (snd p)).

(** The loop has painted [p]. *)
Let filled (d : list Z) (p : Z * Z) : Prop :=
  colourAt d p = painted fillc /\ colourAt d0 p = start.

(** Every pixel has its first colour or the fill colour; every neighbour of
    a painted pixel that had the seed's colour is painted or waits on the
    stack; so does the seed. *)
Let pending (d : list Z) (stack : list (Z * Z)) : Prop :=
  length d = length d0 /\
  (forall q, inside w h q -> colourAt d q = colourAt d0 q \/ colourAt d q = painted fillc) /\
  (forall p q, inside w h p -> filled d p -> neighbour p q -> inside w h q ->
     colourAt d0 q = start -> filled d q \/ q ∈ stack) /\
  (inside w h seed -> filled d seed \/ seed ∈ stack).

Lemma paint_here d cx cy :
  length d = length d0 -> inside w h (cx, cy) ->
  colourAt (wr4 d (offset w cx cy) fillc) (cx, cy) = painted fillc.
Proof.
  intros Hlen Ht. unfold colourAt. simpl.
  apply (rd4_painted w h); [congruence|exact Ht].
Qed.

Lemma paint_elsewhere d cx cy q :
  inside w h (cx, cy) -> inside w h q -> q <> (cx, cy) ->
  colourAt (wr4 d (offset w cx cy) fillc) q = colourAt d q.
Proof.
  intros Ht Hq Hne. unfold colourAt. apply rd4_wr4_other.
  pose proof (offset_range w h (cx, cy) Ht) as Hr1. simpl in Hr1.
  pose proof (offset_range w h q Hq) as Hr2.
  destruct (decide (offset w (fst q) (snd q) = offset w cx cy)) as [E|E].
  - exfalso. apply Hne. apply (offset_inj w h q (cx, cy) Hq Ht).
    exists (offset w (fst q) (snd q)). unfold channelOf. simpl. lia.
  - unfold offset in *. lia.
Qed.

Lemma filled_stays d cx cy p :
  length d = length d0 -> inside w h (cx, cy) -> inside w h p ->
  filled d p -> filled (wr4 d (offset w cx cy) fillc) p.
Proof.
  intros Hlen Ht Hp [H1 H2]. split; [|exact H2].
  destruct (decide (p = (cx, cy))) as [->|Hne]; [apply paint_here; assumption|].
  rewrite paint_elsewhere by assumption. exact H1.
Qed.

Lemma fillLoop_pending (fuel : nat) stack d d' :
  fillLoop fuel w h start fillc stack d = Some d' -> pending d stack -> pending d' [].
Proof.
  revert stack d. induction fuel as [|fuel IH]; intros stack d Hrun Hp.
  - destruct stack as [|[cx cy] stack]; [|discriminate]. injection Hrun as <-. exact Hp.
  - destruct stack as [|[cx cy] stack]; [injection Hrun as <-; exact Hp|].
    rewrite fillLoop_step in Hrun.
    destruct Hp as (Hlen & Hcol & Hnb & Hseed).
    destruct (outside w h cx cy) eqn:Hout.
    + (* off the canvas: dropped *)
      apply (IH _ _ Hrun). split; [exact Hlen|]. split; [exact Hcol|].
      assert (Hdrop : forall q, inside w h q -> q ∈ (cx, cy) :: stack -> q ∈ stack).
      { intros q Hq [->|Hin]%elem_of_cons; [|exact Hin].
        apply inside_outside in Hq. congruence. }
      split.
      * intros p q Hpi Hpf Hpq Hq Hq0.
        destruct (Hnb p q Hpi Hpf Hpq Hq Hq0) as [?|Hin]; [left; assumption|].
        right. apply Hdrop; assumption.
      * intros Hs. destruct (Hseed Hs) as [?|Hin]; [left; assumption|].
        right. apply Hdrop; assumption.
    + apply inside_outside in Hout.
      destruct (samePixel _ _) eqn:Hsame.
      * (* of the seed's colour: painted, neighbours pushed *)
        apply samePixel_true in Hsame.
        assert (Horig : colourAt d0 (cx, cy) = start).
        { destruct (Hcol (cx, cy) Hout) as [E|E]; unfold colourAt in *; simpl in *.
          - rewrite <- E. exact Hsame.
          - exfalso. apply fresh. rewrite <- E. exact Hsame. }
        assert (Hnow : filled (wr4 d (offset w cx cy) fillc) (cx, cy)).
        { split; [apply (paint_here d cx cy); assumption|exact Horig]. }
        apply (IH _ _ Hrun). split; [rewrite wr4_length; exact Hlen|].
        split; [|split].
        -- intros q Hq. destruct (decide (q = (cx, cy))) as [->|Hne].
           ++ right. apply Hnow.
           ++ rewrite (paint_elsewhere d cx cy q) by assumption. apply Hcol. exact Hq.
        -- intros p q Hpi Hpf Hpq Hq Hq0.
           destruct (decide (p = (cx, cy))) as [->|Hne].
           ++ right. unfold neighbour in Hpq. simpl in Hpq.
              destruct Hpq as [->|[->|[->| ->]]]; rewrite !elem_of_cons; auto 6.
           ++ assert (Hbefore : filled d p).
              { destruct Hpf as [H1 H2]. split; [|exact H2].
                rewrite (paint_elsewhere d cx cy p) in H1 by assumption. exact H1. }
              destruct (Hnb p q Hpi Hbefore Hpq Hq Hq0) as [Hqf|Hin].
              ** left. apply (filled_stays d cx cy q); assumption.
              ** apply elem_of_cons in Hin as [->|Hin]; [left; exact Hnow|].
                 right. rewrite !elem_of_cons. auto 6.
        -- intros Hs. destruct (Hseed Hs) as [Hsf|Hin].
           ++ left. apply (filled_stays d cx cy seed); assumption.
           ++ apply elem_of_cons in Hin as [->|Hin]; [left; exact Hnow|].
              right. rewrite !elem_of_cons. auto 6.
      * (* of another colour by now: dropped *)
        apply samePixel_false in Hsame.
        assert (Hdrop : forall q, inside w h q -> colourAt d0 q = start ->
                  q ∈ (cx, cy) :: stack -> filled d q \/ q ∈ stack).
        { intros q Hq Hq0 [->|Hin]%elem_of_cons; [|right; exact Hin].
          left. split; [|exact Hq0].
          destruct (Hcol (cx, cy) Hq) as [E|E]; [|exact E].
          exfalso. apply Hsame. unfold colourAt in *. simpl in *. congruence. }
        apply (IH _ _ Hrun). split; [exact Hlen|]. split; [exact Hcol|]. split.
        -- intros p q Hpi Hpf Hpq Hq Hq0.
           destruct (Hnb p q Hpi Hpf Hpq Hq Hq0) as [?|Hin]; [left; assumption|].
           apply Hdrop; assumption.
        -- intros Hs. destruct (Hseed Hs) as [?|Hin]; [left; assumption|].
           apply Hdrop; [exact Hs|symmetry; exact start_is_seed|exact Hin].
Qed.

Lemma pending_done d' q :
  pending d' [] -> connected w h d0 seed q -> filled d' q.
Proof.
  intros (_ & _ & Hnb & Hseed) Hq. induction Hq as [Hs|p q Hp IH Hpq Hq Hcolour].
  - destruct (Hseed Hs) as [?|Hin]; [assumption|inversion Hin].
  - destruct (Hnb p q (connected_inside _ _ _ _ _ Hp) IH Hpq Hq) as [?|Hin];
      [|assumption|inversion Hin].
    unfold colourAt. rewrite Hcolour. symmetry. exact start_is_seed.
Qed.

(** When the loop returns, every pixel linked to the seed has the fill
    colour. *)
Lemma fillLoop_fills_region (fuel : nat) d' q :
  fillLoop fuel w h start fillc [seed] d0 = Some d' ->
  connected w h d0 seed q ->
  rd4 d' (offset w (fst q) (snd q)) = painted fillc.
Proof.
  intros Hrun Hq.
  apply (pending_done d' q); [|exact Hq].
  apply (fillLoop_pending fuel [seed] d0 d' Hrun).
  split; [reflexivity|]. split; [intros; left; reflexivity|]. split.
  - intros p q' _ [H1 H2] _ _ _. exfalso. apply fresh.
    unfold colourAt in *. congruence.
  - intros _. right. apply list_elem_of_singleton. reflexivity.
Qed.

End FillRegion.

Section CanvasMore.
Import Canvas.
Context {B : Browser}.

(** X15.  With byte channels and a bitmap of the right size, a fill that
    does not stop at the same-colour check paints exactly the region of the
    seed: every pixel that a chain of 4-neighbours of the seed's colour
    links to the seed ends with the fill colour at full alpha, and every
    other pixel of the canvas keeps its four channels. *)
Theorem floodFill_paints_exactly_the_region
  (fuel : nat) (x y : Q) (fillColor : string) (c c' : Ctx) (r g b : Z) :
  byteChannels B -> wellSized c ->
  computedColor fillColor = Some (r, g, b) ->
  let seed := (Qfloor x, Qfloor y) in
  let W := width c in
  rd4 (data c) (offset W (fst seed) (snd seed)) <> (Some r, Some g, Some b, Some 255%Z) ->
  floodFill fuel x y fillColor c = Some c' ->
  forall q, inside W (height c) q ->
    (connected W (height c) (data c) seed q ->
     rd4 (data c') (offset W (fst q) (snd q)) = (Some r, Some g, Some b, Some 255%Z)) /\
    (~ connected W (height c) (data c) seed q ->
     rd4 (data c') (offset W (fst q) (snd q)) = rd4 (data c) (offset W (fst q) (snd q))).
Proof.
  intros Hbytes Hsize Hcol seed W Hdiff Hrun q Hq.
  unfold floodFill in Hrun. rewrite Hcol in Hrun. fold seed in Hrun. fold W in Hrun.
  assert (Hsame : samePixel (numbers (r, g, b, 255%Z))
                    (rd4 (data c) (offset W (fst seed) (snd seed))) = false).
  { apply samePixel_false. intros E. apply Hdiff. rewrite <- E. reflexivity. }
  rewrite Hsame in Hrun.
  destruct (fillLoop _ _ _ _ _ _ _) as [d'|] eqn:Hloop; [|discriminate].
  injection Hrun as <-. simpl.
  assert (Hfresh : painted (r, g, b, 255%Z) <> rd4 (data c) (offset W (fst seed) (snd seed))).
  { rewrite painted_numbers by (eapply Hbytes; eauto). apply samePixel_false. exact Hsame. }
  split.
  - intros Hconn.
    rewrite (fillLoop_fills_region W (height c) _ (r, g, b, 255%Z) (data c) seed
               Hsize eq_refl Hfresh fuel d' q Hloop Hconn).
    apply painted_numbers. eapply Hbytes; eauto.
  - intros Hnot.
    assert (Hbyte : forall j, channelOf W q j -> rd d' j = rd (data c) j).
    { intros j Hj.
      destruct (fillLoop_touchedOnly W (height c) _ _ (data c) seed eq_refl
                  fuel [seed] (data c) d' Hloop) with (j := j) as [E|(q' & Hq' & Hq'j)].
      - intros i. left. reflexivity.
      - intros p Hp. apply list_elem_of_singleton in Hp. left. exact Hp.
      - exact E.
      - exfalso. apply Hnot.
        rewrite (offset_inj W (height c) q q' Hq (connected_inside _ _ _ _ _ Hq'));
          [exact Hq'|]. exists j. auto. }
    unfold rd4. rewrite !Hbyte by (unfold channelOf; lia). reflexivity.
Qed.

(** *** What a replay depends on *)

(** The context without its pending path. *)
Let forget (c : Ctx) : Ctx := withPath [] c.

Lemma drawStroke_forget d c : forget (drawStroke d (forget c)) = forget (drawStroke d c).
Proof.
  unfold drawStroke. destruct (DrawStroke.points d) as [|p0 [|p1 rest]]; reflexivity.
Qed.

Lemma drawShape_forget d c : drawShape d (forget c) = drawShape d c.
Proof.
  unfold drawShape, set_lineWidth, set_strokeStyle, forget.
  destruct (parsesAsColor _); destruct (Qle_bool _ 0); destruct (DrawShape.type d);
    reflexivity.
Qed.

Lemma floodFill_forget (fuel : nat) x y col c :
  option_map forget (floodFill fuel x y col (forget c))
    = option_map forget (floodFill fuel x y col c).
Proof.
  unfold floodFill, forget. cbn [withPath width height data].
  destruct (computedColor col) as [[[r g] b]|]; [|reflexivity].
  destruct (samePixel _ _); [reflexivity|].
  destruct (fillLoop _ _ _ _ _ _ _); reflexivity.
Qed.

Lemma replay_forget (fuel : nat) a c :
  option_map forget (replay fuel a (forget c)) = option_map forget (replay fuel a c).
Proof.
  unfold replay. destruct (CanvasAction.payload a) as [[d|]|[d|]|[d|]|]; try reflexivity.
  - simpl. f_equal. apply drawStroke_forget.
  - simpl. rewrite drawShape_forget. reflexivity.
  - apply floodFill_forget.
Qed.

Lemma replayAll_forget (fuel : nat) l c :
  option_map forget (replayAll fuel l (forget c)) = option_map forget (replayAll fuel l c).
Proof.
  revert c. induction l as [|a l IH]; intros c; [reflexivity|]. simpl.
  pose proof (replay_forget fuel a c) as H.
  destruct (replay fuel a (forget c)) as [c1|], (replay fuel a c) as [c2|];
    try discriminate; [|reflexivity].
  assert (Hf : forget c1 = forget c2) by (simpl in H; congruence).
  rewrite <- (IH c1), <- (IH c2), Hf. reflexivity.
Qed.

(** X16.  A full redraw shows the history and nothing else of the past:
    what [redrawCanvas] leaves on the canvas, and the pen it leaves,
    depend on the context only through its size and its pen, not on the
    bitmap that was there and not on the path that was pending. *)
Theorem redraw_ignores_old_bitmap (fuel : nat) (actions : list CanvasAction.t) (c1 c2 : Ctx) :
  width c1 = width c2 -> height c1 = height c2 -> pen c1 = pen c2 ->
  option_map data (redrawCanvas fuel actions c1) = option_map data (redrawCanvas fuel actions c2) /\
  option_map pen (redrawCanvas fuel actions c1) = option_map pen (redrawCanvas fuel actions c2) /\
  reconstruct actions c1 = reconstruct actions c2.
Proof.
  intros Hw Hh Hp.
  assert (Hsame : forget (clearRect c1) = forget (clearRect c2)).
  { destruct c1, c2. simpl in *. subst. reflexivity. }
  assert (Hrun : forall f, option_map forget (redrawCanvas f actions c1)
                           = option_map forget (redrawCanvas f actions c2)).
  { intros f. unfold redrawCanvas.
    rewrite <- (replayAll_forget f actions (clearRect c1)),
            <- (replayAll_forget f actions (clearRect c2)), Hsame. reflexivity. }
  assert (Hdata : forall f, option_map data (redrawCanvas f actions c1)
                            = option_map data (redrawCanvas f actions c2)).
  { intros f. specialize (Hrun f).
    destruct (redrawCanvas f actions c1), (redrawCanvas f actions c2);
      try discriminate; [|reflexivity].
    assert (Hf : forget c = forget c0) by (simpl in Hrun; congruence).
    simpl. f_equal.
    change (data (forget c) = data (forget c0)). rewrite Hf. reflexivity. }
  split; [apply Hdata|]. split.
  - specialize (Hrun fuel).
    destruct (redrawCanvas fuel actions c1), (redrawCanvas fuel actions c2);
      try discriminate; [|reflexivity].
    assert (Hf : forget c = forget c0) by (simpl in Hrun; congruence).
    simpl. f_equal.
    change (pen (forget c) = pen (forget c0)). rewrite Hf. reflexivity.
  - unfold reconstruct, enough. rewrite Hw, Hh. apply Hdata.
Qed.

(** *** [drawStroke] *)

Lemma lineToAll_path ps c :
  path (lineToAll ps c) = path c ++ map (fun p => lineTo (Point.x p) (Point.y p)) ps.
Proof.
  revert c. induction ps as [|p ps IH]; intros c; simpl; [rewrite app_nil_r; reflexivity|].
  unfold lineToAll in *. simpl. rewrite IH. simpl. rewrite <- app_assoc. reflexivity.
Qed.

(** X17.  A stroke with fewer than two points draws nothing and leaves the
    context as it was.  A stroke with two points or more is stroked once,
    as the polyline from its first point through all the others in order,
    with round caps and round joins; its [tool] is not read. *)
Theorem drawStroke_is_one_polyline (d : DrawStroke.t) (c : Ctx) :
  match DrawStroke.points d with
  | p0 :: p1 :: rest =>
    let polyline :=
      moveTo (Point.x p0) (Point.y p0)
      :: map (fun p => lineTo (Point.x p) (Point.y p)) (p1 :: rest) in
    data (drawStroke d c)
      = paintStroke (pen (drawStroke d c)) (pathOutline polyline) (width c) (height c) (data c) /\
    lineCap (pen (drawStroke d c)) = CapRound /\
    lineJoin (pen (drawStroke d c)) = JoinRound
  | _ => drawStroke d c = c
  end /\
  forall t, drawStroke (DrawStroke.mk (DrawStroke.points d) (DrawStroke.color d)
                          (DrawStroke.width d) t) c = drawStroke d c.
Proof.
  split; [|reflexivity].
  destruct (DrawStroke.points d) as [|p0 [|p1 rest]] eqn:Hps;
    [unfold drawStroke; rewrite Hps; reflexivity ..|].
  assert (Hlen : (2 <= length (DrawStroke.points d))%nat) by (rewrite Hps; simpl; lia).
  destruct (drawStroke_pen d c Hlen) as [Hcap Hjoin].
  split; [|split; assumption].
  unfold drawStroke. rewrite Hps. unfold stroke_.
  match goal with |- context [lineToAll ?ps ?c0] =>
    destruct (lineToAll_frame ps c0) as (Hw & Hh & Hd & Hp);
    pose proof (lineToAll_path ps c0) as Hpath end.
  cbn [data pen withData]. rewrite Hpath, Hw, Hh, Hd, Hp. clear Hpath Hw Hh Hd Hp.
  unfold set_lineWidth, set_strokeStyle.
  destruct (parsesAsColor _); destruct (Qle_bool _ 0); reflexivity.
Qed.

End CanvasMore.

(** ** The component around the canvas *)

Section PaintMore.
Import Canvas Paint.
Context {B : Browser}.

(** *** Incremental drawing *)

Lemma handleHistoryAction_is_replay (fuel : nat) me a prev c :
  ownStroke me a = false ->
  handleHistoryAction fuel me a (prev, c)
    = option_map (fun c' => (prev ++ [a], c')) (replay fuel a c).
Proof.
  unfold ownStroke, handleHistoryAction, replay.
  destruct (CanvasAction.payload a) as [[d|]|[d|]|[d|]|]; try reflexivity.
  intros ->. reflexivity.
Qed.

Lemma handleHistoryActions_is_replay (fuel : nat) me actions prev c :
  forallb (fun a => negb (ownStroke me a)) actions = true ->
  handleHistoryActions fuel me actions (prev, c)
    = option_map (fun c' => (prev ++ actions, c')) (replayAll fuel actions c).
Proof.
  revert prev c. induction actions as [|a actions IH]; intros prev c Hall.
  - simpl. rewrite app_nil_r. reflexivity.
  - simpl in Hall. apply andb_true_iff in Hall as [Ha Hall].
    apply negb_true_iff in Ha. cbn [handleHistoryActions replayAll].
    rewrite (handleHistoryAction_is_replay fuel me a prev c Ha).
    destruct (replay fuel a c) as [c1|]; [|reflexivity]. simpl.
    rewrite (IH _ _ Hall), <- app_assoc. reflexivity.
Qed.

(** X18.  Drawing the actions as they arrive gives the picture of a full
    redraw: a client whose canvas was redrawn from a history and that then
    handles further [history_action] events, none of them a stroke of its
    own, has appended them all to its copy of the history (which it never
    truncates) and shows the bitmap that [redrawCanvas] gives for the
    longer history. *)
Theorem incremental_drawing_is_replay (fuel : nat) (me : string)
  (history actions : list CanvasAction.t) (c0 c : Ctx) :
  forallb (fun a => negb (ownStroke me a)) actions = true ->
  redrawCanvas fuel history c0 = Some c ->
  handleHistoryActions fuel me actions (history, c)
    = option_map (fun c' => (history ++ actions, c'))
        (redrawCanvas fuel (history ++ actions) c0).
Proof.
  intros Hall Hredraw. rewrite (handleHistoryActions_is_replay _ _ _ _ _ Hall).
  unfold redrawCanvas in *. rewrite replayAll_app, Hredraw. reflexivity.
Qed.

(** *** The pointer handlers *)

Lemma moves_cons q ps (p : Painter) :
  moves (q :: ps) p
    = (fst (moves ps (fst (moveDrawing (Point.x q) (Point.y q) p))),
       snd (moveDrawing (Point.x q) (Point.y q) p)
         ++ snd (moves ps (fst (moveDrawing (Point.x q) (Point.y q) p)))).
Proof.
  simpl. destruct (moveDrawing (Point.x q) (Point.y q) p) as [p1 out1].
  simpl. destruct (moves ps p1); reflexivity.
Qed.

Lemma moveDrawing_stroke t x y start (p : Painter) :
  tool p = strokeTool t -> isDrawing p = true -> startPoint p = Some start ->
  moveDrawing x y p
    = (mkPainter (tool p) (color p) (lineWidth p) true (Some start)
         (Some (Point.mk x y)) (currentStrokePoints p ++ [Point.mk x y])
         (drawLineSegment
            (DrawLine.mk (Some (default (Point.mk x y) (lastPoint p))) (Point.mk x y)
               (effectiveColor t (color p)) (effectiveWidth t (lineWidth p)))
            (canvas p))
         (preview p),
       [emitCursor x y;
        emitDrawLine
          (DrawLine.mk (Some (default (Point.mk x y) (lastPoint p))) (Point.mk x y)
             (effectiveColor t (color p)) (effectiveWidth t (lineWidth p)))]).
Proof.
  intros Ht Hd Hs. unfold moveDrawing. rewrite Hd, Hs, Ht. reflexivity.
Qed.

Lemma moveDrawing_shape t x y start (p : Painter) :
  tool p = shapeTool t -> isDrawing p = true -> startPoint p = Some start ->
  moveDrawing x y p
    = (mkPainter (tool p) (color p) (lineWidth p) true (Some start)
         (lastPoint p) (currentStrokePoints p) (canvas p)
         (drawShape (DrawShape.mk t start (Point.mk x y) (color p) (lineWidth p) false)
            (clearRect (preview p))),
       [emitCursor x y]).
Proof.
  intros Ht Hd Hs. unfold moveDrawing. rewrite Hd, Hs, Ht. reflexivity.
Qed.

Lemma moves_stroke t start ps (p : Painter) :
  tool p = strokeTool t -> isDrawing p = true -> startPoint p = Some start ->
  tool (fst (moves ps p)) = tool p /\
  color (fst (moves ps p)) = color p /\
  lineWidth (fst (moves ps p)) = lineWidth p /\
  isDrawing (fst (moves ps p)) = true /\
  startPoint (fst (moves ps p)) = Some start /\
  currentStrokePoints (fst (moves ps p)) = currentStrokePoints p ++ ps /\
  preview (fst (moves ps p)) = preview p /\
  durable (snd (moves ps p)) = [] /\
  segments (snd (moves ps p)) = length ps.
Proof.
  revert p. induction ps as [|q ps IH]; intros p Ht Hd Hs.
  - simpl. rewrite app_nil_r. repeat split; try reflexivity; assumption.
  - rewrite moves_cons.
    rewrite (moveDrawing_stroke t (Point.x q) (Point.y q) start p Ht Hd Hs).
    cbn [fst snd].
    match goal with |- context [moves ps ?p1] =>
      destruct (IH p1) as (H1 & H2 & H3 & H4 & H5 & H6 & H7 & H8 & H9);
        [exact Ht|reflexivity|reflexivity|] end.
    rewrite H1, H2, H3, H4, H5, H6, H7. cbn [tool color lineWidth currentStrokePoints preview].
    rewrite <- app_assoc. destruct q as [qx qy].
    repeat split; try reflexivity.
    + exact H8.
    + unfold segments in *. cbn [app List.filter length]. rewrite H9. reflexivity.
Qed.

(** X19.  A gesture with a stroke tool sends one durable action when it
    ends, and none before: the stroke through the point where the pointer
    went down and every point it moved to, in order, in white for the
    eraser and in the current colour otherwise, one unit wide for the
    pencil and of the current width otherwise; every move sends one
    segment for the others to see, and the component is idle again. *)
Theorem stroke_gesture_sends_its_points
  (fuel : nat) (id0 id : string) (ts0 ts : Z) (me : string) (t : StrokeTool)
  (x y : Q) (ps : list Point.t) (p : Painter) :
  tool p = strokeTool t ->
  exists p1,
    startDrawing fuel id0 ts0 me x y p = Some (p1, []) /\
    let '(p2, out2) := moves ps p1 in
    let '(p3, out3) := endDrawing id ts me p2 in
    durable out2 = [] /\
    out3 = [emitStroke
              (CanvasAction.mk id
                 (Stroke (Some (DrawStroke.mk (Point.mk x y :: ps)
                                  (effectiveColor t (color p))
                                  (effectiveWidth t (lineWidth p)) t)))
                 me ts)] /\
    segments out2 = length ps /\
    isDrawing p3 = false /\ startPoint p3 = None /\ currentStrokePoints p3 = [].
Proof.
  intros Ht. unfold startDrawing. rewrite Ht. eexists. split; [reflexivity|].
  match goal with |- context [moves ps ?p1] =>
    destruct (moves_stroke t (Point.mk x y) ps p1)
      as (H1 & H2 & H3 & H4 & H5 & H6 & H7 & H8 & H9);
      [reflexivity|reflexivity|reflexivity|];
    destruct (moves ps p1) as [p2 out2] end.
  cbn [fst snd tool color lineWidth currentStrokePoints preview] in *.
  unfold endDrawing. rewrite H4, H5, H1, H2, H3, H6. cbn.
  repeat split; assumption.
Qed.

Lemma moves_shape t start ps (p : Painter) :
  tool p = shapeTool t -> isDrawing p = true -> startPoint p = Some start ->
  tool (fst (moves ps p)) = tool p /\
  color (fst (moves ps p)) = color p /\
  lineWidth (fst (moves ps p)) = lineWidth p /\
  isDrawing (fst (moves ps p)) = true /\
  startPoint (fst (moves ps p)) = Some start /\
  lastPoint (fst (moves ps p)) = lastPoint p /\
  canvas (fst (moves ps p)) = canvas p /\
  durable (snd (moves ps p)) = [].
Proof.
  revert p. induction ps as [|q ps IH]; intros p Ht Hd Hs.
  - simpl. repeat split; try reflexivity; assumption.
  - rewrite moves_cons.
    rewrite (moveDrawing_shape t (Point.x q) (Point.y q) start p Ht Hd Hs).
    cbn [fst snd].
    match goal with |- context [moves ps ?p1] =>
      destruct (IH p1) as (H1 & H2 & H3 & H4 & H5 & H6 & H7 & H8);
        [exact Ht|reflexivity|reflexivity|] end.
    rewrite H1, H2, H3, H4, H5, H6, H7.
    repeat split; try reflexivity. exact H8.
Qed.

(** X20.  A gesture with a shape tool sends one durable action when it
    ends: a shape whose start point is where the pointer went down and
    whose end point is that same point, wherever the pointer moved in
    between.  [moveDrawing] shows the shape up to the pointer on the
    preview canvas but records the pointer only for the stroke tools, and
    [endDrawing] takes the end point from that record.  The shape that is
    sent, and drawn on the canvas, has width and height zero. *)
Theorem shape_gesture_ends_where_it_started
  (fuel : nat) (id0 id : string) (ts0 ts : Z) (me : string) (t : ShapeType)
  (x y : Q) (ps : list Point.t) (p : Painter) :
  tool p = shapeTool t ->
  exists p1,
    startDrawing fuel id0 ts0 me x y p = Some (p1, []) /\
    let '(p2, out2) := moves ps p1 in
    let '(p3, out3) := endDrawing id ts me p2 in
    let sent := DrawShape.mk t (Point.mk x y) (Point.mk x y) (color p) (lineWidth p) false in
    durable out2 = [] /\
    out3 = [emitShape (CanvasAction.mk id (Shape (Some sent)) me ts)] /\
    canvas p3 = drawShape sent (canvas p) /\
    Point.x (DrawShape.endPoint sent) - Point.x (DrawShape.startPoint sent) == 0 /\
    Point.y (DrawShape.endPoint sent) - Point.y (DrawShape.startPoint sent) == 0 /\
    isDrawing p3 = false.
Proof.
  intros Ht. unfold startDrawing. rewrite Ht. eexists. split; [reflexivity|].
  match goal with |- context [moves ps ?p1] =>
    destruct (moves_shape t (Point.mk x y) ps p1)
      as (H1 & H2 & H3 & H4 & H5 & H6 & H7 & H8);
      [reflexivity|reflexivity|reflexivity|];
    destruct (moves ps p1) as [p2 out2] end.
  cbn [fst snd tool color lineWidth lastPoint canvas] in *.
  unfold endDrawing. rewrite H4, H5, H1, H2, H3, H6, H7. cbn.
  repeat split; try assumption; try reflexivity; ring.
Qed.

(** X21.  Without a pointer that is down there is no action: on an idle
    component, moves and the end of a gesture send no durable action and
    leave the canvas alone.  A click with the fill tool fills the canvas at
    the click, sends exactly that fill, and leaves the component idle, so
    that the release of the button sends nothing more. *)
Theorem idle_component_sends_nothing
  (fuel : nat) (id id' : string) (ts ts' : Z) (me : string) (x y : Q)
  (ps : list Point.t) (p : Painter) :
  (isDrawing p = false ->
   let '(p2, out2) := moves ps p in
   let '(p3, out3) := endDrawing id ts me p2 in
   durable (out2 ++ out3) = [] /\ p3 = p) /\
  (tool p = fillTool ->
   forall c, floodFill fuel x y (color p) (canvas p) = Some c ->
   exists p1,
     startDrawing fuel id ts me x y p
       = Some (p1, [emitFill (CanvasAction.mk id
                                (Fill (Some (FillAction.mk (Point.mk x y) (color p)))) me ts)]) /\
     canvas p1 = c /\ isDrawing p1 = false /\
     snd (endDrawing id' ts' me p1) = []).
Proof.
  split.
  - intros Hidle.
    assert (Hmoves : forall l, fst (moves l p) = p /\ durable (snd (moves l p)) = []).
    { induction l as [|q l [IH1 IH2]]; [split; reflexivity|].
      simpl. unfold moveDrawing. rewrite Hidle.
      destruct (moves l p) as [p' out']. simpl in *. subst p'. auto. }
    destruct (Hmoves ps) as [H1 H2]. destruct (moves ps p) as [p2 out2]. simpl in *.
    subst p2. unfold endDrawing. rewrite Hidle. rewrite app_nil_r. auto.
  - intros Ht c Hc. unfold startDrawing. rewrite Ht, Hc.
    eexists. split; [reflexivity|]. repeat split.
Qed.

(** *** The picker's colour *)

Lemma toString16_step (fuel : nat) (a d : Z) acc :
  (0 <= d < 16)%Z -> (0 < a)%Z ->
  toString16_from (S fuel) (a * 16 + d) acc
    = toString16_from fuel a (String (hexDigit d) acc).
Proof.
  intros Hd Ha. cbn [toString16_from].
  replace ((a * 16 + d) mod 16)%Z with d by (rewrite Z.add_comm, Z.mod_add; [symmetry; apply Z.mod_small|]; lia).
  replace ((a * 16 + d) / 16)%Z with a by (rewrite Z.add_comm, Z.div_add, Z.div_small; lia).
  destruct (Z.eqb_spec a 0); [lia|reflexivity].
Qed.

Lemma toString16_one (fuel : nat) acc :
  toString16_from fuel 1 acc = String "1" acc.
Proof. destruct fuel; reflexivity. Qed.

(** X22.  The colour that the picker sets is a sharp sign followed by six
    hexadecimal digits in lower case, two for each of the red, green and
    blue bytes of the pixel, leading zeros kept; the alpha of the pixel is
    not part of it. *)
Theorem pickedColor_is_six_digits (r g b : Z) :
  (0 <= r <= 255)%Z -> (0 <= g <= 255)%Z -> (0 <= b <= 255)%Z ->
  pickedColor r g b = String "#" (hex2 r ++ hex2 g ++ hex2 b) /\
  String.length (pickedColor r g b) = 7%nat.
Proof.
  intros Hr Hg Hb.
  assert (Hval : pickedColor r g b = String "#" (hex2 r ++ hex2 g ++ hex2 b));
    [|split; [exact Hval|rewrite Hval; reflexivity]].
  unfold pickedColor, toString16. f_equal.
  rewrite !Z.shiftl_mul_pow2 by lia.
  pose proof (Z.div_mod r 16 ltac:(lia)) as Er.
  pose proof (Z.div_mod g 16 ltac:(lia)) as Eg.
  pose proof (Z.div_mod b 16 ltac:(lia)) as Eb.
  pose proof (Z.mod_pos_bound r 16 ltac:(lia)) as Br.
  pose proof (Z.mod_pos_bound g 16 ltac:(lia)) as Bg.
  pose proof (Z.mod_pos_bound b 16 ltac:(lia)) as Bb.
  assert (0 <= r / 16 < 16)%Z as Hr' by (split; [apply Z.div_pos; lia|apply Z.div_lt_upper_bound; lia]).
  assert (0 <= g / 16 < 16)%Z as Hg' by (split; [apply Z.div_pos; lia|apply Z.div_lt_upper_bound; lia]).
  assert (0 <= b / 16 < 16)%Z as Hb' by (split; [apply Z.div_pos; lia|apply Z.div_lt_upper_bound; lia]).
  set (n := (1 * 2 ^ 24 + r * 2 ^ 16 + g * 2 ^ 8 + b)%Z).
  assert (Hlog : Z.log2 n = 24%Z).
  { apply Z.log2_unique; [lia|]. subst n.
    change (2 ^ 24)%Z with 16777216%Z. change (2 ^ (24 + 1))%Z with 33554432%Z.
    change (2 ^ 16)%Z with 65536%Z. change (2 ^ 8)%Z with 256%Z. lia. }
  rewrite Hlog.
  assert (Hn : n = ((((((1 * 16 + r / 16) * 16 + r mod 16) * 16 + g / 16) * 16 + g mod 16)
                      * 16 + b / 16) * 16 + b mod 16)%Z).
  { subst n. change (2 ^ 24)%Z with 16777216%Z.
    change (2 ^ 16)%Z with 65536%Z. change (2 ^ 8)%Z with 256%Z. lia. }
  rewrite Hn. change (Z.to_nat 24) with 24%nat.
  rewrite !toString16_step by lia.
  rewrite toString16_one. reflexivity.
Qed.

(** *** The line width buttons *)

Local Open Scope Q_scope.

(** X23.  Whatever buttons are clicked, a line width that is between 1 and
    50 stays between 1 and 50 (the component starts with 4); so the width
    of every stroke and shape that the component sends is one that the
    canvas accepts. *)
Theorem lineWidth_stays_in_range (clicks : list WidthClick) (lw : Q) :
  (1 <= lw)%Q -> (lw <= 50)%Q ->
  let lw' := fold_left clickWidth clicks lw in
  (1 <= lw')%Q /\ (lw' <= 50)%Q /\
  forall c, (Canvas.lineWidth (pen (set_lineWidth lw' c)) == lw')%Q.
Proof.
  revert lw. induction clicks as [|b clicks IH]; intros lw H1 H50.
  - simpl. split; [exact H1|]. split; [exact H50|].
    intros c. unfold set_lineWidth.
    destruct (Qle_bool lw 0) eqn:E; [|reflexivity].
    apply Qle_bool_iff in E. exfalso.
    apply (Qlt_irrefl 0). apply Qlt_le_trans with 1; [reflexivity|].
    apply Qle_trans with lw; assumption.
  - simpl. apply IH; destruct b; unfold clickWidth, widthDown, widthUp.
    + apply Q.le_max_l.
    + apply Q.min_glb; [unfold Qle; simpl; lia|].
      apply Qle_trans with (lw + 0); [rewrite Qplus_0_r; exact H1|].
      apply Qplus_le_r. unfold Qle; simpl; lia.
    + apply Q.max_lub; [unfold Qle; simpl; lia|].
      apply Qle_trans with (lw + 0); [|rewrite Qplus_0_r; exact H50].
      unfold Qminus. apply Qplus_le_r. unfold Qle; simpl; lia.
    + apply Q.le_min_l.
Qed.

End PaintMore.

(** ** The cursors of the others *)

Section CursorsMore.
Import Cursors.

Lemma filter_other_elem (userId id : string) (l : list string) :
  id ∈ List.filter (fun i => negb (String.eqb i userId)) l <-> id ∈ l /\ id <> userId.
Proof.
  rewrite !list_elem_of_In, filter_In, negb_true_iff, String.eqb_neq. reflexivity.
Qed.

Lemma handle_consistent me st ev :
  consistent me st -> consistent me (handle me st ev).
Proof.
  intros (Hnd & Hme & Hdata). destruct ev as [data el|userId]; simpl.
  - unfold handleRemoteCursor.
    destruct (String.eqb_spec (CursorPosition.userId data) me) as [Heq|Hne];
      [repeat split; assumption|].
    assert (Hkeep : forall id, id ∈ activeCursorIds st ->
              is_Some (<[CursorPosition.userId data := data]> (cursorData st) !! id)).
    { intros id Hid.
      destruct (decide (CursorPosition.userId data = id)) as [->|Hother].
      - rewrite lookup_insert_eq. eexists; reflexivity.
      - rewrite lookup_insert_ne by exact Hother. apply Hdata, Hid. }
    destruct el; [repeat split; assumption|].
    destruct (bool_decide_reflect (CursorPosition.userId data ∈ activeCursorIds st))
      as [Hin|Hout]; [repeat split; assumption|].
    repeat split; simpl.
    + apply NoDup_app. repeat split; [exact Hnd| |apply NoDup_singleton].
      intros id Hid Hid'. apply list_elem_of_singleton in Hid'. subst id. exact (Hout Hid).
    + intros Hin. apply elem_of_app in Hin as [Hin|Hin]; [exact (Hme Hin)|].
      apply list_elem_of_singleton in Hin. exact (Hne (eq_sym Hin)).
    + intros id Hid. apply elem_of_app in Hid as [Hid|Hid]; [exact (Hkeep id Hid)|].
      apply list_elem_of_singleton in Hid. subst id.
      rewrite lookup_insert_eq. eexists; reflexivity.
  - unfold handleUserLeft. repeat split; simpl.
    + apply NoDup_ListNoDup, List.NoDup_filter, NoDup_ListNoDup, Hnd.
    + intros Hin. apply filter_other_elem in Hin as [Hin _]. exact (Hme Hin).
    + intros id Hid. apply filter_other_elem in Hid as [Hid Hne].
      rewrite lookup_delete_ne by (intros E; exact (Hne (eq_sym E))).
      apply Hdata, Hid.
Qed.

(** X24.  Whatever cursor and leave events the canvas receives, and
    whether or not the element of a cursor exists when its event arrives,
    the cursors that are shown are distinct, the user's own is never among
    them, and each has a position to be shown at; after [user_left] for a
    user neither its cursor nor its position is kept. *)
Theorem cursors_stay_consistent (me : string) (evs : list Event) (userId : string) :
  consistent me (fold_left (handle me) evs initial) /\
  (let st := handle me (fold_left (handle me) evs initial) (user_left userId) in
   (userId ∉ activeCursorIds st) /\ cursorData st !! userId = None).
Proof.
  assert (Hall : forall st, consistent me st -> consistent me (fold_left (handle me) evs st)).
  { induction evs as [|ev evs IH]; intros st Hst; [exact Hst|].
    simpl. apply IH, handle_consistent, Hst. }
  split.
  - apply Hall. repeat split; simpl.
    + apply NoDup_nil_2.
    + apply not_elem_of_nil.
    + intros id Hid. apply elem_of_nil in Hid. destruct Hid.
  - simpl. split.
    + intros Hin. apply filter_other_elem in Hin as [_ Hne]. exact (Hne eq_refl).
    + apply lookup_delete_eq.
Qed.

End CursorsMore.

(** ** The client's copy of the history *)

Section HistoryCopy.
Import Canvas.
Context {B : Browser}.

Lemma handleHistoryAction_history (fuel : nat) me a prev c st' :
  Paint.handleHistoryAction fuel me a (prev, c) = Some st' -> fst st' = prev ++ [a].
Proof.
  unfold Paint.handleHistoryAction.
  destruct (CanvasAction.payload a) as [[d|]|[d|]|[d|]|].
  - destruct (String.eqb _ _); intros [= <-]; reflexivity.
  - intros [= <-]; reflexivity.
  - intros [= <-]; reflexivity.
  - intros [= <-]; reflexivity.
  - destruct (floodFill _ _ _ _ _); [intros [= <-]; reflexivity|discriminate].
  - intros [= <-]; reflexivity.
  - intros [= <-]; reflexivity.
Qed.

Lemma handleHistoryActions_history (fuel : nat) me actions prev c st' :
  Paint.handleHistoryActions fuel me actions (prev, c) = Some st' ->
  fst st' = prev ++ actions.
Proof.
  revert prev c. induction actions as [|a actions IH]; intros prev c.
  - simpl. intros [= <-]. rewrite app_nil_r. reflexivity.
  - cbn [Paint.handleHistoryActions].
    destruct (Paint.handleHistoryAction fuel me a (prev, c)) as [[h1 c1]|] eqn:Hstep;
      [|discriminate].
    apply handleHistoryAction_history in Hstep. simpl in Hstep. subst h1.
    intros Hrest. rewrite (IH _ _ Hrest), <- app_assoc. reflexivity.
Qed.

Lemma handleHistoryAction_total (fuel : nat) me a prev c :
  byteChannels B -> keepsSize B -> wellSized c -> (enough c <= fuel)%nat ->
  exists c', Paint.handleHistoryAction fuel me a (prev, c) = Some (prev ++ [a], c') /\
    wellSized c' /\ width c' = width c /\ height c' = height c.
Proof.
  intros Hb Hk Hs Hfuel.
  destruct (Paint.ownStroke me a) eqn:Hown.
  - exists c. split; [|auto].
    unfold Paint.ownStroke in Hown. unfold Paint.handleHistoryAction.
    destruct (CanvasAction.payload a) as [[d|]|[d|]|[d|]|]; try discriminate Hown.
    rewrite Hown. reflexivity.
  - rewrite (handleHistoryAction_is_replay fuel me a prev c Hown).
    destruct (replay_total fuel a c Hb Hs Hfuel) as [c' Hc'].
    exists c'. rewrite Hc'. split; [reflexivity|].
    split; [exact (replay_wellSized _ _ _ _ Hk Hs Hc')|].
    exact (replay_frame _ _ _ _ Hc').
Qed.

Lemma handleHistoryActions_total (fuel : nat) me actions prev c :
  byteChannels B -> keepsSize B -> wellSized c -> (enough c <= fuel)%nat ->
  exists c', Paint.handleHistoryActions fuel me actions (prev, c)
             = Some (prev ++ actions, c').
Proof.
  intros Hb Hk. revert prev c. induction actions as [|a actions IH]; intros prev c Hs Hfuel.
  - exists c. simpl. rewrite app_nil_r. reflexivity.
  - destruct (handleHistoryAction_total fuel me a prev c Hb Hk Hs Hfuel)
      as (c1 & Hc1 & Hs1 & Hw1 & Hh1).
    destruct (IH (prev ++ [a]) c1 Hs1) as [c' Hc'].
    { unfold enough in *. rewrite Hw1, Hh1. exact Hfuel. }
    exists c'. cbn [Paint.handleHistoryActions]. rewrite Hc1, Hc', <- app_assoc.
    reflexivity.
Qed.

(** X25.  The client's copy of the history is not capped.  When a room and
    a client hold the same history and the server appends a run of actions,
    each of which the client handles as a [history_action], the client
    handles them all (its fills return, colours having byte channels) and
    holds all of them, while the room holds the last 500; once more than
    500 actions are known to the client, its copy is not the history of
    the room (which is what a later [history_sync] hands out). *)
Theorem client_history_is_not_capped (fuel : nat) (me roomId : string)
  (actions : list CanvasAction.t) (rs : gmap string Server.Room) (room : Server.Room)
  (c : Ctx) :
  byteChannels B -> keepsSize B -> wellSized c -> (enough c <= fuel)%nat ->
  rs !! roomId = Some room ->
  length (Server.history room) <= 500 ->
  let all := Server.history room ++ actions in
  exists st',
    Paint.handleHistoryActions fuel me actions (Server.history room, c) = Some st' /\
    fst st' = all /\
    Server.history <$> Server.appendAll roomId actions rs !! roomId
      = Some (drop (length all - 500) all) /\
    (500 < length all ->
     Server.history <$> Server.appendAll roomId actions rs !! roomId <> Some (fst st')).
Proof.
  intros Hb Hk Hs Hfuel Hroom Hlen all.
  destruct (handleHistoryActions_total fuel me actions (Server.history room) c
              Hb Hk Hs Hfuel) as [c' Hclient].
  pose proof (fold_pushCapped actions (Server.history room) Hlen) as [_ Hfold].
  assert (Hserver : Server.history <$> Server.appendAll roomId actions rs !! roomId
                    = Some (drop (length all - 500) all)).
  { rewrite (appendAll_lookup roomId actions rs room Hroom). simpl. f_equal. exact Hfold. }
  exists (all, c'). split; [exact Hclient|]. split; [reflexivity|].
  split; [exact Hserver|].
  intros Hmany. rewrite Hserver. simpl. intros [= Heq].
  apply (f_equal length) in Heq. rewrite length_drop in Heq. subst all. lia.
Qed.

End HistoryCopy.

(** ** The further statements at sample data *)

Section MoreSamples.
Import Canvas.

(** The lobby after A has drawn the rectangle. *)
Lemma drawn_room :
  Server.rooms (fst (Server.on_durable "ROOM01" Sample.X Sample.lobby)) !! "ROOM01"
    = Some (Server.mkRoom (Server.users Sample.lobbyRoom) [Sample.X] []).
Proof. vm_compute. reflexivity. Qed.

(** *** The relay server *)

Lemma host_is_first_member_witness :
  exists u rest, Server.users Sample.lobbyRoom = u :: rest /\ User.isHost u = true /\
    Forall (fun v => User.isHost v = false) rest.
Proof.
  apply (host_is_first_member
           [("A", Server.connection); ("B", Server.connection);
            ("A", Server.create_room "ROOM01" "alice" "#f87171");
            ("B", Server.join_room "ROOM01" "bob" "#fb923c")]
           "ROOM01" Sample.lobbyRoom).
  exact lobby_room.
Defined.

Lemma undo_redo_round_trip_witness :
  let s := fst (Server.on_durable "ROOM01" Sample.X Sample.lobby) in
  fst (Server.on_redo "ROOM01" (fst (Server.on_undo "ROOM01" s))) = s.
Proof.
  apply (proj1 (undo_redo_round_trip "ROOM01"
                  (fst (Server.on_durable "ROOM01" Sample.X Sample.lobby))
                  (Server.mkRoom (Server.users Sample.lobbyRoom) [Sample.X] [])
                  drawn_room)).
  discriminate.
Defined.

Lemma undo_redo_keep_timeline_witness :
  let s := fst (Server.on_durable "ROOM01" Sample.X Sample.lobby) in
  let reqs := [("A", Server.undo "ROOM01"); ("B", Server.redo "ROOM01");
               ("A", Server.undo "ROOM01")] in
  Session.timeline <$> Server.rooms (Server.run reqs s) !! "ROOM01"
    = Session.timeline <$> Server.rooms s !! "ROOM01" /\
  Server.users <$> Server.rooms (Server.run reqs s) !! "ROOM01"
    = Server.users <$> Server.rooms s !! "ROOM01".
Proof.
  apply (undo_redo_keep_timeline
           [("A", Server.undo "ROOM01"); ("B", Server.redo "ROOM01");
            ("A", Server.undo "ROOM01")]
           (fst (Server.on_durable "ROOM01" Sample.X Sample.lobby)) "ROOM01").
  reflexivity.
Defined.

(** After the three requests of that witness the rectangle is undone. *)
Example undo_redo_undo :
  Server.rooms
    (Server.run [("A", Server.undo "ROOM01"); ("B", Server.redo "ROOM01");
                 ("A", Server.undo "ROOM01")]
       (fst (Server.on_durable "ROOM01" Sample.X Sample.lobby))) !! "ROOM01"
    = Some (Server.mkRoom (Server.users Sample.lobbyRoom) [] [Sample.X]).
Proof. vm_compute. reflexivity. Qed.

Lemma kick_by_host_witness :
  fst (Server.on_kick_user "A" "ROOM01" "B" Sample.lobby)
    = fst (Server.on_leave_room "B" "ROOM01" Sample.lobby) /\
  snd (Server.on_kick_user "A" "ROOM01" "B" Sample.lobby) =
    (if bool_decide ("B" ∈ Server.sockets Sample.lobby)
     then [Server.Leave "B" "ROOM01"; Server.Emit (Server.ToSocket "B") Server.user_kicked]
     else [])
    ++ snd (Server.handleLeave "ROOM01" "B" (Server.rooms Sample.lobby)).
Proof.
  apply (kick_by_host_is_leave "A" "ROOM01" "B" Sample.lobby Sample.lobbyRoom
           (User.mk "A" "alice" true "#f87171") lobby_room);
    reflexivity.
Defined.

(** What the host's kick of B sends: B leaves the group and is told so,
    then the room is told that B left. *)
Example kick_by_host_effects :
  snd (Server.on_kick_user "A" "ROOM01" "B" Sample.lobby)
    = [Server.Leave "B" "ROOM01"; Server.Emit (Server.ToSocket "B") Server.user_kicked;
       Server.Emit (Server.ToRoom "ROOM01") (Server.user_left "B")].
Proof. vm_compute. reflexivity. Qed.

Lemma only_create_room_adds_rooms_witness :
  is_Some (Server.rooms Sample.lobby !! "ROOM01").
Proof.
  apply (only_create_room_adds_rooms "C" (Server.join_room "ROOM01" "carol" "#fbbf24")
           Sample.lobby "ROOM01"); [reflexivity|].
  vm_compute. eexists. reflexivity.
Defined.

(** A join of a room that does not exist makes no room. *)
Example join_of_unknown_room :
  Server.rooms (fst (Server.handle "C" (Server.join_room "NOROOM" "carol" "#fbbf24")
                       Sample.lobby)) !! "NOROOM" = None.
Proof. vm_compute. reflexivity. Qed.

(** *** The service and the component around it *)

Lemma mock_history_agrees_witness :
  let calls := [Service.Durable Sample.X; Service.Durable Sample.Y; Service.Undo] in
  let s' := fold_left (fun st c => Service.serverCall "ROOM01" c st) calls Sample.lobby in
  let m' := fold_left (fun st c => Service.mockCall c st) calls (Mock.mkState [] []) in
  (exists room',
     Server.rooms s' !! "ROOM01" = Some room' /\
     Server.users room' = Server.users Sample.lobbyRoom /\
     Server.history room' = Mock.mockHistory m' /\
     Server.redoStack room' = Mock.mockRedoStack m') /\
  forall next, Service.serverSync "ROOM01" next s' = Service.mockSync next m'.
Proof.
  apply (mock_history_agrees_with_server "ROOM01"
           [Service.Durable Sample.X; Service.Durable Sample.Y; Service.Undo]
           Sample.lobby (Mock.mkState [] []) Sample.lobbyRoom lobby_room);
    reflexivity.
Defined.

Lemma roster_follows_leave_witness :
  let alice := User.mk "A" "alice" true "#f87171" in
  let st := App.mk App.LOBBY "ROOM01" (Server.users Sample.lobbyRoom) (Some alice) in
  let c' := App.deliverAll "A"
              (App.toRoom "ROOM01"
                 (snd (Server.handleLeave "ROOM01" "B" (Server.rooms Sample.lobby))))
              (App.mounted st) in
  App.users (App.app c') = Server.usersAfterLeave 1 (Server.users Sample.lobbyRoom) /\
  App.currentUser (App.app c')
    = Server.find (Server.hasId "A")
        (Server.usersAfterLeave 1 (Server.users Sample.lobbyRoom)) /\
  App.appState (App.app c') = App.LOBBY /\
  fst (Server.handleLeave "ROOM01" "B" (Server.rooms Sample.lobby)) !! "ROOM01" =
    Some (Server.mkRoom (Server.usersAfterLeave 1 (Server.users Sample.lobbyRoom))
            (Server.history Sample.lobbyRoom) (Server.redoStack Sample.lobbyRoom)).
Proof.
  apply (roster_follows_leave "A" "ROOM01" "B" (Server.rooms Sample.lobby)
           Sample.lobbyRoom 1
           (App.mk App.LOBBY "ROOM01" (Server.users Sample.lobbyRoom)
              (Some (User.mk "A" "alice" true "#f87171")))
           lobby_room).
  - simpl. repeat constructor; simpl; intuition discriminate.
  - reflexivity.
  - discriminate.
  - reflexivity.
  - reflexivity.
  - vm_compute. discriminate.
Defined.

Lemma roster_follows_join_witness :
  let alice := User.mk "A" "alice" true "#f87171" in
  let carol := User.mk "C" "carol" false "#fbbf24" in
  let st := App.mk App.LOBBY "ROOM01" (Server.users Sample.lobbyRoom) (Some alice) in
  let out := snd (Server.on_join_room "C" "ROOM01" "carol" "#fbbf24" Sample.lobby) in
  let c' := App.deliverAll "A" (App.toOthers "ROOM01" "C" out) (App.mounted st) in
  Server.users <$>
    Server.rooms (fst (Server.on_join_room "C" "ROOM01" "carol" "#fbbf24" Sample.lobby))
      !! "ROOM01"
    = Some (Server.users Sample.lobbyRoom ++ [carol]) /\
  App.users (App.app c') = Server.users Sample.lobbyRoom ++ [carol] /\
  App.deliverAll "A" (App.toOthers "ROOM01" "C" out) c' = c' /\
  App.app (App.deliverAll "C" (App.toSocket "C" out) (App.mounted App.initial))
    = App.mk App.LOBBY "ROOM01" (Server.users Sample.lobbyRoom ++ [carol]) (Some carol).
Proof.
  apply (roster_follows_join "C" "ROOM01" "carol" "#fbbf24" Sample.lobby Sample.lobbyRoom
           "A"
           (App.mk App.LOBBY "ROOM01" (Server.users Sample.lobbyRoom)
              (Some (User.mk "A" "alice" true "#f87171")))
           App.initial lobby_room);
    reflexivity.
Defined.

(** A client that was kicked hears nothing of a room it creates
    afterwards. *)
Example kicked_client_stays_on_welcome :
  let alice := User.mk "B" "bob" false "#fb923c" in
  let st := App.mk App.LOBBY "ROOM01" (Server.users Sample.lobbyRoom) (Some alice) in
  App.app (App.deliverAll "B"
             [Server.user_kicked;
              Server.room_joined "ROOM02" [User.mk "B" "bob" true "#fb923c"]]
             (App.mounted st))
    = App.initial.
Proof. vm_compute. reflexivity. Qed.

(** *** The canvas *)

Lemma floodFill_region_witness :
  let c' := withData [255; 0; 0; 255;  9; 9; 9; 9;  0; 0; 0; 0;
                      255; 0; 0; 255;  9; 9; 9; 9;  0; 0; 0; 0]%Z Sample.walled in
  let q := (0, 1)%Z in
  (connected 3 2 (data Sample.walled) (0, 0)%Z q ->
   rd4 (data c') (offset 3 (fst q) (snd q))
     = (Some 255, Some 0, Some 0, Some 255)%Z) /\
  (~ connected 3 2 (data Sample.walled) (0, 0)%Z q ->
   rd4 (data c') (offset 3 (fst q) (snd q))
     = rd4 (data Sample.walled) (offset 3 (fst q) (snd q))).
Proof.
  apply (floodFill_paints_exactly_the_region (B := Sample.browser) 25 0 0 "red"
           Sample.walled
           (withData [255; 0; 0; 255;  9; 9; 9; 9;  0; 0; 0; 0;
                      255; 0; 0; 255;  9; 9; 9; 9;  0; 0; 0; 0]%Z Sample.walled)
           255 0 0 sample_byteChannels).
  - reflexivity.
  - reflexivity.
  - vm_compute. discriminate.
  - vm_compute. reflexivity.
  - unfold inside. simpl. lia.
Defined.

Lemma redraw_ignores_old_bitmap_witness :
  option_map data (redrawCanvas (B := Sample.browser) 25 [Sample.X; Sample.fillRed]
                     Sample.walled)
    = option_map data (redrawCanvas (B := Sample.browser) 25 [Sample.X; Sample.fillRed]
                         (newContext 3 2)) /\
  option_map pen (redrawCanvas (B := Sample.browser) 25 [Sample.X; Sample.fillRed]
                    Sample.walled)
    = option_map pen (redrawCanvas (B := Sample.browser) 25 [Sample.X; Sample.fillRed]
                        (newContext 3 2)) /\
  reconstruct (B := Sample.browser) [Sample.X; Sample.fillRed] Sample.walled
    = reconstruct (B := Sample.browser) [Sample.X; Sample.fillRed] (newContext 3 2).
Proof.
  apply (redraw_ignores_old_bitmap (B := Sample.browser) 25 [Sample.X; Sample.fillRed]
           Sample.walled (newContext 3 2));
    reflexivity.
Defined.

Lemma incremental_drawing_witness :
  Paint.handleHistoryActions (B := Sample.browser) 25 "B" [Sample.fillRed; Sample.scribble]
    ([Sample.clearAll], clearRect (clearRect (newContext 2 2)))
  = option_map (fun c' => ([Sample.clearAll] ++ [Sample.fillRed; Sample.scribble], c'))
      (redrawCanvas (B := Sample.browser) 25
         ([Sample.clearAll] ++ [Sample.fillRed; Sample.scribble]) (newContext 2 2)).
Proof.
  apply (incremental_drawing_is_replay (B := Sample.browser) 25 "B" [Sample.clearAll]
           [Sample.fillRed; Sample.scribble] (newContext 2 2)
           (clearRect (clearRect (newContext 2 2))));
    reflexivity.
Defined.

(** The user's own stroke is appended but not drawn again: for A, who drew
    the scribble, the canvas stays as it is. *)
Example own_stroke_is_not_redrawn :
  Paint.handleHistoryAction (B := Sample.browser) 25 "A" Sample.scribble
    ([], newContext 2 2)
  = Some ([Sample.scribble], newContext 2 2).
Proof. reflexivity. Qed.

(** *** The pointer handlers *)

Lemma stroke_gesture_witness :
  let p := Paint.mkPainter (Paint.strokeTool eraser) "red" 4 false None None []
             (newContext 2 2) (newContext 2 2) in
  exists p1,
    Paint.startDrawing (B := Sample.browser) 25 "i0" 0 "A" 0 0 p = Some (p1, []) /\
    let '(p2, out2) := Paint.moves (B := Sample.browser) [Sample.pt 1 0; Sample.pt 1 1] p1 in
    let '(p3, out3) := Paint.endDrawing (B := Sample.browser) "i1" 7 "A" p2 in
    Paint.durable out2 = [] /\
    out3 = [Paint.emitStroke
              (CanvasAction.mk "i1"
                 (Stroke (Some (DrawStroke.mk
                                  (Point.mk 0 0 :: [Sample.pt 1 0; Sample.pt 1 1])
                                  (Paint.effectiveColor eraser "red")
                                  (Paint.effectiveWidth eraser 4) eraser)))
                 "A" 7)] /\
    Paint.segments out2 = length [Sample.pt 1 0; Sample.pt 1 1] /\
    Paint.isDrawing p3 = false /\ Paint.startPoint p3 = None /\
    Paint.currentStrokePoints p3 = [].
Proof.
  apply (stroke_gesture_sends_its_points (B := Sample.browser) 25 "i0" "i1" 0 7 "A" eraser
           0 0 [Sample.pt 1 0; Sample.pt 1 1]
           (Paint.mkPainter (Paint.strokeTool eraser) "red" 4 false None None []
              (newContext 2 2) (newContext 2 2))).
  reflexivity.
Defined.

Lemma shape_gesture_witness :
  let p := Paint.mkPainter (Paint.shapeTool rect) "red" 4 false None None []
             (newContext 2 2) (newContext 2 2) in
  exists p1,
    Paint.startDrawing (B := Sample.browser) 25 "i0" 0 "A" 0 0 p = Some (p1, []) /\
    let '(p2, out2) := Paint.moves (B := Sample.browser) [Sample.pt 1 0; Sample.pt 1 1] p1 in
    let '(p3, out3) := Paint.endDrawing (B := Sample.browser) "i1" 7 "A" p2 in
    let sent := DrawShape.mk rect (Point.mk 0 0) (Point.mk 0 0) "red" 4 false in
    Paint.durable out2 = [] /\
    out3 = [Paint.emitShape (CanvasAction.mk "i1" (Shape (Some sent)) "A" 7)] /\
    Paint.canvas p3 = drawShape (B := Sample.browser) sent (newContext 2 2) /\
    (Point.x (DrawShape.endPoint sent) - Point.x (DrawShape.startPoint sent) == 0)%Q /\
    (Point.y (DrawShape.endPoint sent) - Point.y (DrawShape.startPoint sent) == 0)%Q /\
    Paint.isDrawing p3 = false.
Proof.
  apply (shape_gesture_ends_where_it_started (B := Sample.browser) 25 "i0" "i1" 0 7 "A" rect
           0 0 [Sample.pt 1 0; Sample.pt 1 1]
           (Paint.mkPainter (Paint.shapeTool rect) "red" 4 false None None []
              (newContext 2 2) (newContext 2 2))).
  reflexivity.
Defined.

(** The preview of that gesture showed the rectangle up to the pointer. *)
Example shape_preview_follows_pointer :
  let p := Paint.mkPainter (Paint.shapeTool rect) "red" 4 true (Some (Sample.pt 0 0))
             (Some (Sample.pt 0 0)) [Sample.pt 0 0] (newContext 2 2) (newContext 2 2) in
  path (Paint.preview (fst (Paint.moveDrawing (B := Sample.browser) 1 1 p)))
    = path (drawShape (B := Sample.browser)
              (DrawShape.mk rect (Sample.pt 0 0) (Point.mk 1 1) "red" 4 false)
              (clearRect (newContext 2 2))) /\
  Paint.lastPoint (fst (Paint.moveDrawing (B := Sample.browser) 1 1 p))
    = Some (Sample.pt 0 0).
Proof. split; reflexivity. Qed.

(** A click with the fill tool on a blank canvas of two by two. *)
Example fill_click :
  let p := Paint.mkPainter Paint.fillTool "red" 4 false None None []
             (newContext 2 2) (newContext 2 2) in
  option_map snd (Paint.startDrawing (B := Sample.browser) 25 "i0" 3 "A" 0 0 p)
    = Some [Paint.emitFill
              (CanvasAction.mk "i0" (Fill (Some (FillAction.mk (Point.mk 0 0) "red")))
                 "A" 3)] /\
  option_map (fun r => data (Paint.canvas (fst r)))
    (Paint.startDrawing (B := Sample.browser) 25 "i0" 3 "A" 0 0 p)
    = Some [255; 0; 0; 255;  255; 0; 0; 255;  255; 0; 0; 255;  255; 0; 0; 255]%Z.
Proof. vm_compute. split; reflexivity. Qed.

Lemma pickedColor_witness :
  Paint.pickedColor 255 0 16
    = String "#" (Paint.hex2 255 ++ Paint.hex2 0 ++ Paint.hex2 16) /\
  String.length (Paint.pickedColor 255 0 16) = 7%nat.
Proof. apply (pickedColor_is_six_digits 255 0 16); lia. Defined.

(** The text of that colour. *)
Example pickedColor_text : Paint.pickedColor 255 0 16 = "#ff0010".
Proof. vm_compute. reflexivity. Qed.

Lemma lineWidth_witness :
  let lw' := fold_left Paint.clickWidth [Paint.Minus; Paint.Minus; Paint.Plus] 4%Q in
  (1 <= lw')%Q /\ (lw' <= 50)%Q /\
  forall c, (lineWidth (pen (set_lineWidth lw' c)) == lw')%Q.
Proof.
  apply (lineWidth_stays_in_range [Paint.Minus; Paint.Minus; Paint.Plus] 4%Q);
    unfold Qle; simpl; lia.
Defined.

(** *** The client's copy of the history, and the cursors *)

(** A fill and 500 clears after it, on the lobby and on B's canvas of two
    by two: B holds the 501 actions, the room has lost the fill. *)
Lemma client_history_witness :
  let actions := Sample.fillRed :: replicate 500 Sample.clearAll in
  let room_history :=
    Server.history <$>
      Server.appendAll "ROOM01" actions (Server.rooms Sample.lobby) !! "ROOM01" in
  exists st',
    Paint.handleHistoryActions (B := Sample.browser) 17 "B" actions ([], newContext 2 2)
      = Some st' /\
    fst st' = actions /\
    length (fst st') = 501 /\
    room_history = Some (replicate 500 Sample.clearAll) /\
    room_history <> Some (fst st').
Proof.
  destruct (client_history_is_not_capped (B := Sample.browser) 17 "B" "ROOM01"
              (Sample.fillRed :: replicate 500 Sample.clearAll)
              (Server.rooms Sample.lobby) Sample.lobbyRoom (newContext 2 2)
              sample_byteChannels sample_keepsSize eq_refl (Nat.le_refl _) lobby_room
              (Nat.le_0_l _))
    as (st' & Hclient & Hcopy & Hserver & Hdiffer).
  exists st'. split; [exact Hclient|]. split; [exact Hcopy|].
  split; [rewrite Hcopy; reflexivity|]. split; [exact Hserver|].
  apply Hdiffer. vm_compute. apply le_n.
Defined.

(** The same by running the two: the lengths after the 501 actions. *)
Example client_501_server_500 :
  let actions := Sample.fillRed :: replicate 500 Sample.clearAll in
  option_map (fun st => length (fst st))
    (Paint.handleHistoryActions (B := Sample.browser) 17 "B" actions ([], newContext 2 2))
    = Some 501 /\
  (fun room => length (Server.history room)) <$>
    Server.appendAll "ROOM01" actions (Server.rooms Sample.lobby) !! "ROOM01"
    = Some 500.
Proof. vm_compute. split; reflexivity. Qed.

(** B's cursor arrives twice before its element exists, then A's own: one
    cursor is shown. *)
Example one_cursor_for_two_moves :
  let b := Cursors.CursorPosition.mk "B" 1 2 (Some "bob") "#fb923c" in
  let a := Cursors.CursorPosition.mk "A" 3 4 (Some "alice") "#f87171" in
  Cursors.activeCursorIds
    (fold_left (Cursors.handle "A")
       [Cursors.cursor_move b false; Cursors.cursor_move b false;
        Cursors.cursor_move a false] Cursors.initial)
    = ["B"].
Proof. vm_compute. reflexivity. Qed.

End MoreSamples.
